(** * Warframe export ingestion: index decompression, index parsing and
      graph materialisation

    A shallow embedding of [src/ingestion/data_downloader.py],
    [src/graph/models.py] and [src/graph/ingest_neo4j.py], followed by the
    properties of the ingestion pipeline. *)

From Stdlib Require Import ZArith List String Ascii Bool Lia.
From stdpp Require Import base option gmap strings list fin_maps.

Local Open Scope Z_scope.
Set Warnings "-register-all".

(** Byte buffers ([bytes] objects of the source). *)
Abbreviation bytes := (list Byte.byte).

(** Exceptions the modelled code can raise. *)
Inductive exn : Type :=
  | LZMAError
  | TypeError
  | AttributeError
  | StoreError.

(** A Python call either returns a value or raises. *)
Inductive outcome (A : Type) : Type :=
  | Returned (a : A)
  | Raised (e : exn).
Arguments Returned {A} a.
Arguments Raised {A} e.

(** ** data_downloader.py: decompression *)

Module Lzma.

(** What one call of [LZMADecompressor.decompress] on a fresh decompressor
    gives: either [LZMAError], or the decoded output together with the
    decompressor's [unused_data] and [eof] attributes. *)
Inductive dec_result : Type :=
  | DecError
  | DecOk (res unused : bytes) (eof : bool).

(** The lengths [hi], [hi - 1], ... of [steps] successive attempts. *)
Fixpoint countdown (hi : Z) (steps : nat) : list Z :=
  match steps with
  | O => []
  | S m => hi :: countdown (hi - 1) m
  end.

(** [byt[:length]] with Python's slice semantics: a negative bound counts
    from the end, and bounds out of range are clipped. *)
Definition py_slice_to {A} (l : list A) (n : Z) : list A :=
  if (0 <=? n)%Z then take (Z.to_nat n) l
  else take (Z.to_nat (Z.of_nat (length l) + n)) l.

Section Decompressor.

(** The stream decoder of the [lzma] library, one fresh
    [LZMADecompressor(FORMAT_AUTO)] per call. *)
Variable decomp : bytes -> dec_result.

(** The [while True] loop of [decompress_lzma]; [results] is the list
    accumulated so far.  [None] stands for a loop that has not finished
    within [fuel] iterations. *)
Fixpoint decompress_lzma_loop (fuel : nat) (data : bytes)
    (results : list bytes) : option (outcome bytes) :=
  match fuel with
  | O => None
  | S fuel' =>
      match decomp data with
      | DecError =>
          match results with
          | [] => Some (Raised LZMAError)
          | _ :: _ => Some (Returned (concat results))
          end
      | DecOk res unused eof =>
          let results' := results ++ [res] in
          match unused with
          | [] => Some (Returned (concat results'))
          | _ :: _ =>
              if negb eof then Some (Raised LZMAError)
              else decompress_lzma_loop fuel' unused results'
          end
      end
  end.

(** [decompress_lzma(data)].  Every iteration but the last hands a
    non-empty [unused_data] to the next one, so one more iteration than
    the buffer has bytes is all a decoder that consumes input can take. *)
Definition decompress_lzma (data : bytes) : option (outcome bytes) :=
  decompress_lzma_loop (S (length data)) data [].

(** The shrink-and-retry loop of [download_and_decompress], from the
    response body [byt] to [decompressed_bytes].  [length] is the loop
    variable; the result also records the lengths that were tried, in
    order.  Only [LZMAError] is caught; anything else leaves the loop.
    [None]: not finished within [fuel] attempts. *)
Fixpoint retry_loop (fuel : nat) (byt : bytes) (length : Z)
    : option (list Z * outcome bytes) :=
  match fuel with
  | O => None
  | S fuel' =>
      match decompress_lzma (py_slice_to byt length) with
      | None => None
      | Some (Returned decompressed_bytes) =>
          Some ([length], Returned decompressed_bytes)
      | Some (Raised LZMAError) =>
          match retry_loop fuel' byt (length - 1) with
          | Some (tried, out) => Some (length :: tried, out)
          | None => None
          end
      | Some (Raised e) => Some ([length], Raised e)
      end
  end.

(** [download_and_decompress], between the HTTP response and the text
    decoding: [length = len(byt)], then the retry loop. *)
Definition download_and_decompress (fuel : nat) (byt : bytes)
    : option (list Z * outcome bytes) :=
  retry_loop fuel byt (Z.of_nat (length byt)).

(** [frame] is a complete compressed frame holding [plain]: whatever
    follows it, the decoder returns [plain], reaches the end-of-stream
    marker and leaves what follows unused. *)
Definition valid_frame (frame plain : bytes) : Prop :=
  forall rest, decomp (frame ++ rest) = DecOk plain rest true.

(** The decoder consumes input: what it leaves unused is shorter than
    what it was given. *)
Definition consumes_input : Prop :=
  forall data res unused eof,
    decomp data = DecOk res unused eof ->
    unused <> [] -> (length unused < length data)%nat.

End Decompressor.

(** A miniature stream format with the behaviour of an LZMA stream decoder,
    used to run the loops on concrete buffers: a frame is the byte [L], a
    length byte [n], [n] payload bytes and the end mark [E].  As the
    library's decoder does, it returns what it has decoded so far when the
    input ends inside a frame ([eof] false, nothing unused) and fails on a
    wrong header or end mark. *)
Definition frame_magic : Byte.byte := Byte.x4c.
Definition frame_end : Byte.byte := Byte.x45.

Definition frame_decomp (data : bytes) : dec_result :=
  match data with
  | [] => DecOk [] [] false
  | m :: rest =>
      if negb (Byte.eqb m frame_magic) then DecError
      else
        match rest with
        | [] => DecOk [] [] false
        | n :: body =>
            let k := Byte.to_nat n in
            match drop k body with
            | [] => DecOk (take k body) [] false
            | e :: unused =>
                if Byte.eqb e frame_end then DecOk (take k body) unused true
                else DecError
            end
        end
  end.

Definition frame_encode (plain : bytes) : bytes :=
  frame_magic :: default Byte.x00 (Byte.of_nat (length plain))
    :: plain ++ [frame_end].

End Lzma.

(** ** data_downloader.py: the manifest index *)

Module Index.

Local Open Scope string_scope.

(** [str.isspace] on the characters a one-byte code point can hold. *)
Definition is_space (c : ascii) : bool :=
  let n := nat_of_ascii c in
  ((9 <=? n) && (n <=? 13) || (28 <=? n) && (n <=? 32)
   || (n =? 133) || (n =? 160))%nat.

Definition newline : ascii := ascii_of_nat 10.

Fixpoint lstrip (s : string) : string :=
  match s with
  | EmptyString => EmptyString
  | String c s' => if is_space c then lstrip s' else s
  end.

Fixpoint rstrip (s : string) : string :=
  match s with
  | EmptyString => EmptyString
  | String c s' =>
      match rstrip s' with
      | EmptyString => if is_space c then EmptyString else String c EmptyString
      | r => String c r
      end
  end.

(** [str.strip()] *)
Definition strip (s : string) : string := rstrip (lstrip s).

(** [str.split(sep)] for a one-character separator: always at least one
    piece, empty pieces kept. *)
Fixpoint split (sep : ascii) (s : string) : list string :=
  match s with
  | EmptyString => [EmptyString]
  | String c s' =>
      if Ascii.eqb c sep then EmptyString :: split sep s'
      else
        match split sep s' with
        | piece :: pieces => String c piece :: pieces
        | [] => [String c EmptyString]
        end
  end.

(** [decompress_index], on the text that [f.read()] returned. *)
Definition decompress_index (text : string) : list string :=
  split newline (strip text).

(** [sep.join(pieces)] *)
Fixpoint join (sep : ascii) (pieces : list string) : string :=
  match pieces with
  | [] => EmptyString
  | [p] => p
  | p :: rest => p ++ String sep (join sep rest)
  end.

(** A line is blank when it holds nothing but white space. *)
Fixpoint blank (s : string) : bool :=
  match s with
  | EmptyString => true
  | String c s' => is_space c && blank s'
  end.

Fixpoint has_char (c : ascii) (s : string) : bool :=
  match s with
  | EmptyString => false
  | String d s' => Ascii.eqb d c || has_char c s'
  end.

Definition first_char (s : string) : option ascii :=
  match s with EmptyString => None | String c _ => Some c end.

Fixpoint last_char (s : string) : option ascii :=
  match s with
  | EmptyString => None
  | String c EmptyString => Some c
  | String _ s' => last_char s'
  end.

(** The reading of the index the specification gives: one identifier per
    line of the text, blank lines left out. *)
Definition nonblank_lines (text : string) : list string :=
  List.filter (fun line => negb (blank line)) (split newline text).

End Index.
(** ** JSON values and Python's view of them *)

Module Json.

(** A parsed JSON document ([json.load]).  Numbers are the integers; a JSON
    object keeps its entries in document order. *)
Inductive json : Type :=
  | JNull
  | JBool (b : bool)
  | JNum (n : Z)
  | JStr (s : string)
  | JList (items : list json)
  | JObj (entries : list (string * json)).

(** A raw record: a Python [dict] with string keys. *)
Abbreviation dict := (list (string * json)).

(** Structural equality on values. *)
Fixpoint json_eqb (a b : json) {struct a} : bool :=
  match a, b with
  | JNull, JNull => true
  | JBool x, JBool y => Bool.eqb x y
  | JNum x, JNum y => Z.eqb x y
  | JStr x, JStr y => String.eqb x y
  | JList l, JList m =>
      (fix items_eqb (l m : list json) {struct l} : bool :=
         match l, m with
         | [], [] => true
         | x :: l', y :: m' => json_eqb x y && items_eqb l' m'
         | _, _ => false
         end) l m
  | JObj l, JObj m =>
      (fix entries_eqb (l m : list (string * json)) {struct l} : bool :=
         match l, m with
         | [], [] => true
         | (k, x) :: l', (k', y) :: m' =>
             String.eqb k k' && json_eqb x y && entries_eqb l' m'
         | _, _ => false
         end) l m
  | _, _ => false
  end.

(** [d.get(key)]: [None] when the key is absent. *)
Fixpoint dict_get (key : string) (d : dict) : option json :=
  match d with
  | [] => None
  | (k, v) :: d' => if String.eqb k key then Some v else dict_get key d'
  end.

(** [d.get(key, dflt)] *)
Definition dict_get_default (key : string) (dflt : json) (d : dict) : json :=
  default dflt (dict_get key d).

(** [x.get(key, dflt)] on an arbitrary value: only a [dict] has [get]. *)
Definition py_get (key : string) (dflt : json) (x : json) : outcome json :=
  match x with
  | JObj d => Returned (dict_get_default key dflt d)
  | _ => Raised AttributeError
  end.

(** Truth value of [if x:]. *)
Definition py_truthy (x : json) : bool :=
  match x with
  | JNull => false
  | JBool b => b
  | JNum n => negb (n =? 0)%Z
  | JStr s => negb (String.eqb s EmptyString)
  | JList l => match l with [] => false | _ => true end
  | JObj d => match d with [] => false | _ => true end
  end.

Fixpoint chars (s : string) : list json :=
  match s with
  | EmptyString => []
  | String c s' => JStr (String c EmptyString) :: chars s'
  end.

(** The items that [for item in x] visits, or [TypeError] when [x] cannot
    be iterated: a list gives its items, a string its characters, a dict
    its keys. *)
Definition py_iter (x : json) : outcome (list json) :=
  match x with
  | JList l => Returned l
  | JStr s => Returned (chars s)
  | JObj d => Returned (map (fun kv => JStr (fst kv)) d)
  | JNull | JBool _ | JNum _ => Raised TypeError
  end.

End Json.
(** ** The graph store and the Cypher statements the pipeline issues *)

Module Graph.
Import Json.

Local Open Scope string_scope.
Local Open Scope nat_scope.

Inductive label : Type := Weapon | Resource | Recipe | Category.
Inductive reltype : Type := BUILDS | REQUIRES | BELONGS_TO.

#[global] Instance label_eq_dec : EqDecision label.
Proof. solve_decision. Defined.
#[global] Instance reltype_eq_dec : EqDecision reltype.
Proof. solve_decision. Defined.

(** A node carries one label and a property map; a relationship goes from
    one node to another, the nodes being identified by their position in
    the store (the engine's internal node identity), and carries the
    [quantity] property when it has one. *)
Record node : Type := Node { n_label : label; n_props : gmap string json }.
Record edge : Type :=
  Edge { e_src : nat; e_type : reltype; e_quantity : option json; e_dst : nat }.
Record store : Type := Store { nodes : list node; edges : list edge }.

Definition empty_store : store := Store [] [].

Definition is_null (v : json) : bool :=
  match v with JNull => true | _ => false end.

Definition quantity_eqb (a b : option json) : bool :=
  match a, b with
  | Some x, Some y => json_eqb x y
  | None, None => true
  | _, _ => false
  end.

Definition edge_eqb (a b : edge) : bool :=
  Nat.eqb (e_src a) (e_src b) && bool_decide (e_type a = e_type b)
  && quantity_eqb (e_quantity a) (e_quantity b) && Nat.eqb (e_dst a) (e_dst b).

(** [(x:L {key: v})]: the node has the label and its property [key] equals
    [v]; a null value equals nothing. *)
Definition node_matches (L : label) (key : string) (v : json) (n : node)
    : bool :=
  bool_decide (n_label n = L)
  && match n_props n !! key with
     | Some w => json_eqb w v
     | None => false
     end
  && negb (is_null v).

(** Identities of the nodes satisfying [p], counting from [i]. *)
Fixpoint find_ids (p : node -> bool) (i : nat) (ns : list node) : list nat :=
  match ns with
  | [] => []
  | n :: ns' => (if p n then [i] else []) ++ find_ids p (S i) ns'
  end.

(** [MATCH (x:L {key: v})] *)
Definition match_ids (L : label) (key : string) (v : json) (s : store)
    : list nat :=
  find_ids (node_matches L key v) 0 (nodes s).

(** [SET x += props]: each entry of [props] overwrites the property of that
    name, a null entry removes it, the other properties stay. *)
Definition set_plus (props old : gmap string json) : gmap string json :=
  merge (fun p o =>
           match p with
           | Some JNull => None
           | Some v => Some v
           | None => o
           end) props old.

Definition set_node_props (props : dict) (n : node) : node :=
  Node (n_label n) (set_plus (list_to_map props) (n_props n)).

Definition has_edge (e : edge) (s : store) : bool :=
  existsb (edge_eqb e) (edges s).

(** [MERGE (a)-[:T {quantity: q}]->(b)] for one row [(a, b)]: a relationship
    of that type between the two nodes with that very [quantity] is looked
    for, and created when there is none. *)
Definition merge_edge_row (T : reltype) (q : option json) (s : store)
    (row : nat * nat) : store :=
  let e := Edge (fst row) T q (snd row) in
  if has_edge e s then s else Store (nodes s) (edges s ++ [e]).

Section Engine.

(** Which values the engine accepts as a property value (null is not
    one). *)
Variable storable : json -> bool.

Definition props_storable (props : dict) : bool :=
  forallb (fun kv => is_null (snd kv) || storable (snd kv)) props.

(** [MERGE (x:L {key: v})]: nothing happens when a node matches, else
    one is created.  A statement the engine rejects leaves the store as
    it was. *)
Definition cypher_merge_node (L : label) (key : string) (v : json)
    (s : store) : outcome store :=
  if is_null v || negb (storable v) then Raised StoreError
  else if existsb (node_matches L key v) (nodes s) then Returned s
  else Returned (Store (nodes s ++ [Node L {[key := v]}]) (edges s)).

(** [MERGE (x:L {key: v}) SET x += $props] *)
Definition cypher_merge_node_set (L : label) (key : string) (v : json)
    (props : dict) (s : store) : outcome store :=
  if is_null v || negb (storable v) || negb (props_storable props)
  then Raised StoreError
  else
    let upd n :=
      if node_matches L key v n then set_node_props props n else n in
    if existsb (node_matches L key v) (nodes s)
    then Returned (Store (map upd (nodes s)) (edges s))
    else Returned
           (Store (nodes s ++ [set_node_props props (Node L {[key := v]})])
                  (edges s)).

(** [MATCH (a:La {ka: va}) MATCH (b:Lb {kb: vb})
     MERGE (a)-[:T {quantity: q}]->(b) RETURN cnt]:
    the new store and [cnt], the number of rows the two [MATCH] clauses
    produced.  With no row the [MERGE] is not evaluated. *)
Definition cypher_match_merge_edge (La : label) (ka : string) (va : json)
    (Lb : label) (kb : string) (vb : json) (T : reltype)
    (q : option json) (s : store) : outcome (store * nat) :=
  let rows := list_prod (match_ids La ka va s) (match_ids Lb kb vb s) in
  match rows with
  | [] => Returned (s, 0)
  | _ :: _ =>
      if match q with
         | Some v => is_null v || negb (storable v)
         | None => false
         end
      then Raised StoreError
      else Returned (foldl (merge_edge_row T q) s rows, length rows)
  end.

End Engine.

(** The engine's rule for property values: a number, string or boolean, or
    a list of values of one of these kinds. *)
Definition neo4j_storable (v : json) : bool :=
  match v with
  | JNull | JObj _ => false
  | JBool _ | JNum _ | JStr _ => true
  | JList l =>
      forallb (fun x => match x with JBool _ => true | _ => false end) l
      || forallb (fun x => match x with JNum _ => true | _ => false end) l
      || forallb (fun x => match x with JStr _ => true | _ => false end) l
  end.

(** ** models.py: the validated records *)

(** The annotations of the model fields: [str], [int], [float], [bool],
    [List[float]] and [List[Dict[str, Any]]]; a field that is not required
    is [Optional] with default [None]. *)
Inductive ftype : Type := TStr | TInt | TFloat | TBool | TListFloat | TListDict.

Record field : Type :=
  Field { f_name : string; f_type : ftype; f_required : bool }.

Definition WeaponNode : list field :=
  [ Field "uniqueName" TStr true;
    Field "name" TStr true;
    Field "accuracy" TFloat false;
    Field "blockingAngle" TInt false;
    Field "codexSecret" TBool false;
    Field "comboDuration" TInt false;
    Field "criticalChance" TFloat false;
    Field "criticalMultiplier" TFloat false;
    Field "damagePerShot" TListFloat false;
    Field "description" TStr false;
    Field "excludeFromCodex" TBool false;
    Field "fireRate" TFloat false;
    Field "followThrough" TFloat false;
    Field "heavyAttackDamage" TInt false;
    Field "heavySlamAttack" TInt false;
    Field "heavySlamRadialDamage" TInt false;
    Field "heavySlamRadius" TInt false;
    Field "magazineSize" TInt false;
    Field "masteryReq" TInt false;
    Field "maxLevelCap" TInt false;
    Field "multishot" TInt false;
    Field "noise" TStr false;
    Field "omegaAttenuation" TFloat false;
    Field "primeOmegaAttenuation" TFloat false;
    Field "procChance" TFloat false;
    Field "productCategory" TStr false;
    Field "range" TFloat false;
    Field "reloadTime" TFloat false;
    Field "sentinel" TBool false;
    Field "slamAttack" TInt false;
    Field "slamRadialDamage" TInt false;
    Field "slamRadius" TInt false;
    Field "slideAttack" TInt false;
    Field "slot" TInt false;
    Field "totalDamage" TFloat false;
    Field "trigger" TStr false;
    Field "windUp" TFloat false ].

Definition ResourceNode : list field :=
  [ Field "uniqueName" TStr true;
    Field "name" TStr true;
    Field "codexSecret" TBool false;
    Field "description" TStr false;
    Field "excludeFromCodex" TBool false;
    Field "longDescription" TStr false;
    Field "parentName" TStr false;
    Field "primeSellingPrice" TInt false;
    Field "showInInventory" TBool false ].

Definition RecipeNode : list field :=
  [ Field "uniqueName" TStr true;
    Field "resultType" TStr true;
    Field "alwaysAvailable" TBool false;
    Field "buildPrice" TInt false;
    Field "buildTime" TInt false;
    Field "codexSecret" TBool false;
    Field "consumeOnUse" TBool false;
    Field "excludeFromCodex" TBool false;
    Field "ingredients" TListDict false;
    Field "num" TInt false;
    Field "primeSellingPrice" TInt false;
    Field "secretIngredients" TListDict false;
    Field "skipBuildTimePrice" TInt false ].

Definition declared (fs : list field) (key : string) : bool :=
  existsb (fun f => String.eqb (f_name f) key) fs.

Definition mem_string (key : string) (keys : list string) : bool :=
  existsb (String.eqb key) keys.

(** The entries [Config.extra = "allow"] keeps: those the model does not
    declare. *)
Definition extras (fs : list field) (d : dict) : dict :=
  List.filter (fun kv => negb (declared fs (fst kv))) d.

(** [model_dump(exclude=..., exclude_none=True)] of a validated record. *)
Definition model_dump (exclude : list string) (m : dict) : dict :=
  List.filter
    (fun kv => negb (mem_string (fst kv) exclude) && negb (is_null (snd kv))) m.

(** [d[key] = v]: the entry is replaced where it stands, or added at the
    end. *)
Fixpoint dict_set (key : string) (v : json) (d : dict) : dict :=
  match d with
  | [] => [(key, v)]
  | (k, w) :: d' =>
      if String.eqb k key then (k, v) :: d' else (k, w) :: dict_set key v d'
  end.

Section Validation.

(** What the validation library makes of a non-null value for a field of
    a type other than [str]: the validated value, or nothing when the
    value is rejected. *)
Variable coerce : ftype -> json -> option json.

(** A [str] field takes a string and nothing else. *)
Definition validate_value (t : ftype) (v : json) : option json :=
  match t with
  | TStr => match v with JStr _ => Some v | _ => None end
  | _ => coerce t v
  end.

Definition validate_field (f : field) (d : dict) : option json :=
  match dict_get (f_name f) d with
  | None | Some JNull => if f_required f then None else Some JNull
  | Some v => validate_value (f_type f) v
  end.

Fixpoint validate_fields (fs : list field) (d : dict) : option dict :=
  match fs with
  | [] => Some []
  | f :: fs' =>
      match validate_field f d, validate_fields fs' d with
      | Some v, Some m => Some ((f_name f, v) :: m)
      | _, _ => None
      end
  end.

(** [Model( **d )]: the declared fields in declaration order, then the
    extra entries; [None] is a [ValidationError]. *)
Definition validate (fs : list field) (d : dict) : option dict :=
  match validate_fields fs d with
  | Some m => Some (m ++ extras fs d)%list
  | None => None
  end.

End Validation.

(** A validation that converts nothing: each type takes the JSON values of
    its own shape. *)
Definition strict_coerce (t : ftype) (v : json) : option json :=
  match t, v with
  | TInt, JNum _ | TFloat, JNum _ | TBool, JBool _ => Some v
  | TListFloat, JList l =>
      if forallb (fun x => match x with JNum _ => true | _ => false end) l
      then Some v else None
  | TListDict, JList l =>
      if forallb (fun x => match x with JObj _ => true | _ => false end) l
      then Some v else None
  | _, _ => None
  end.

(** ** ingest_neo4j.py: the ingestion passes *)

(** What the passes print about records they could not ingest: the
    validation warning with the identifier it names, and the message of
    the catch-all handler. *)
Inductive event : Type :=
  | ValidationWarning (L : label) (ident : json)
  | IngestError (L : label) (e : exn).

(** The store and the messages printed so far. *)
Abbreviation state := (store * list event)%type.

(** A loop over statements that are not guarded by a handler: it stops at
    the first exception, keeping what the store had become. *)
Fixpoint for_each {A} (body : A -> store -> store * option exn)
    (items : list A) (s : store) : store * option exn :=
  match items with
  | [] => (s, None)
  | x :: items' =>
      match body x s with
      | (s', None) => for_each body items' s'
      | (s', Some e) => (s', Some e)
      end
  end.

(** [categories.add(c)].  Python fixes no order for the iteration over a
    set; the set is kept here in the order of insertion, and the loop over
    it follows that order. *)
Definition set_add (c : string) (cs : list string) : list string :=
  if mem_string c cs then cs else (cs ++ [c])%list.

Section Pipeline.

Variable storable : json -> bool.
Variable coerce : ftype -> json -> option json.
(** [str(x)] *)
Variable py_str : json -> string.

(** *** Resources *)

(** The body of the loop of [ingest_resources]. *)
Definition ingest_resource (st : state) (resource_data : json) : state :=
  match resource_data with
  | JObj d =>
      match validate coerce ResourceNode d with
      | None =>
          (fst st,
           (snd st ++ [ValidationWarning Resource
              (dict_get_default "uniqueName" (JStr "unknown") d)])%list)
      | Some resource =>
          match cypher_merge_node_set storable Resource "uniqueName"
                  (dict_get_default "uniqueName" JNull resource)
                  (model_dump ["uniqueName"] resource) (fst st) with
          | Returned s' => (s', snd st)
          | Raised e => (fst st, (snd st ++ [IngestError Resource e])%list)
          end
      end
  | _ => (fst st, (snd st ++ [IngestError Resource TypeError])%list)
  end.

Definition ingest_resources (resources : list json) (st : state) : state :=
  foldl ingest_resource st resources.

(** *** Weapons *)

(** [weapon_dict] after the [damagePerShot] conversion. *)
Definition weapon_props (weapon : dict) : dict :=
  let weapon_dict := model_dump [] weapon in
  let weapon_dict :=
    match dict_get "damagePerShot" weapon_dict with
    | Some v =>
        if py_truthy v
        then dict_set "damagePerShot" (JStr (py_str v)) weapon_dict
        else weapon_dict
    | None => weapon_dict
    end in
  List.filter (fun kv => negb (String.eqb (fst kv) "uniqueName"))
    weapon_dict.

(** The body of the loop of [ingest_weapons]; [categories] is the set
    being collected. *)
Definition ingest_weapon (acc : state * list string) (weapon_data : json)
    : state * list string :=
  let '(st, categories) := acc in
  match weapon_data with
  | JObj d =>
      match validate coerce WeaponNode d with
      | None =>
          ((fst st,
            (snd st ++ [ValidationWarning Weapon
               (dict_get_default "name" (JStr "unknown") d)])%list),
           categories)
      | Some weapon =>
          match cypher_merge_node_set storable Weapon "uniqueName"
                  (dict_get_default "uniqueName" JNull weapon)
                  (weapon_props weapon) (fst st) with
          | Returned s' =>
              ((s', snd st),
               match dict_get_default "productCategory" JNull weapon with
               | JStr c =>
                   if py_truthy (JStr c) then set_add c categories
                   else categories
               | _ => categories
               end)
          | Raised e =>
              ((fst st, (snd st ++ [IngestError Weapon e])%list),
               categories)
          end
      end
  | _ =>
      ((fst st, (snd st ++ [IngestError Weapon TypeError])%list),
       categories)
  end.

(** The body of the loop of [_create_weapon_categories]. *)
Definition link_category (category : string) (s : store)
    : store * option exn :=
  match cypher_merge_node storable Category "name" (JStr category) s with
  | Raised e => (s, Some e)
  | Returned s1 =>
      match cypher_match_merge_edge storable
              Weapon "productCategory" (JStr category)
              Category "name" (JStr category) BELONGS_TO None s1 with
      | Raised e => (s1, Some e)
      | Returned (s2, _) => (s2, None)
      end
  end.

Definition _create_weapon_categories (categories : list string)
    (s : store) : store * option exn :=
  for_each link_category categories s.

(** The loop of [ingest_weapons] over the records. *)
Definition upsert_weapons (weapons : list json) (st : state)
    : state * list string :=
  foldl ingest_weapon (st, []) weapons.

Definition ingest_weapons (weapons : list json) (st : state)
    : state * option exn :=
  let '(st1, categories) := upsert_weapons weapons st in
  let '(s2, err) := _create_weapon_categories categories (fst st1) in
  ((s2, snd st1), err).

(** *** Recipes *)

(** The properties written on a Recipe node. *)
Definition recipe_props (recipe : dict) : dict :=
  model_dump ["uniqueName"; "ingredients"; "secretIngredients"] recipe.

(** The body of the first loop of [ingest_recipes]. *)
Definition ingest_recipe (st : state) (recipe_data : json) : state :=
  match recipe_data with
  | JObj d =>
      match validate coerce RecipeNode d with
      | None =>
          (fst st,
           (snd st ++ [ValidationWarning Recipe
              (dict_get_default "uniqueName" (JStr "unknown") d)])%list)
      | Some recipe =>
          match cypher_merge_node_set storable Recipe "uniqueName"
                  (dict_get_default "uniqueName" JNull recipe)
                  (recipe_props recipe) (fst st) with
          | Returned s' => (s', snd st)
          | Raised e => (fst st, (snd st ++ [IngestError Recipe e])%list)
          end
      end
  | _ => (fst st, (snd st ++ [IngestError Recipe TypeError])%list)
  end.

(** The BUILDS part of the loop body of [_create_recipe_relationships],
    on the raw record. *)
Definition create_builds (recipe_data : dict) (s : store)
    : store * option exn :=
  let recipe_unique := dict_get_default "uniqueName" JNull recipe_data in
  let result_type := dict_get_default "resultType" JNull recipe_data in
  if py_truthy result_type then
    let quantity := dict_get_default "num" (JNum 1) recipe_data in
    match cypher_match_merge_edge storable
            Recipe "uniqueName" recipe_unique
            Weapon "uniqueName" result_type BUILDS (Some quantity) s with
    | Raised e => (s, Some e)
    | Returned (s1, cnt) =>
        if Nat.eqb cnt 0 then
          match cypher_match_merge_edge storable
                  Recipe "uniqueName" recipe_unique
                  Resource "uniqueName" result_type BUILDS (Some quantity)
                  s1 with
          | Raised e => (s1, Some e)
          | Returned (s2, _) => (s2, None)
          end
        else (s1, None)
    end
  else (s, None).

(** The body of the loop over the ingredients. *)
Definition create_requires (recipe_unique : json) (ingredient : json)
    (s : store) : store * option exn :=
  match py_get "ItemType" JNull ingredient,
        py_get "ItemCount" (JNum 1) ingredient with
  | Returned item_type, Returned item_count =>
      if py_truthy item_type then
        match cypher_match_merge_edge storable
                Recipe "uniqueName" recipe_unique
                Resource "uniqueName" item_type REQUIRES (Some item_count)
                s with
        | Raised e => (s, Some e)
        | Returned (s', _) => (s', None)
        end
      else (s, None)
  | Raised e, _ | _, Raised e => (s, Some e)
  end.

(** The body of the loop of [_create_recipe_relationships]. *)
Definition recipe_relationships (recipe_data : json) (s : store)
    : store * option exn :=
  match recipe_data with
  | JObj d =>
      let recipe_unique := dict_get_default "uniqueName" JNull d in
      let ingredients := dict_get_default "ingredients" (JList []) d in
      match create_builds d s with
      | (s1, Some e) => (s1, Some e)
      | (s1, None) =>
          match py_iter ingredients with
          | Raised e => (s1, Some e)
          | Returned items => for_each (create_requires recipe_unique) items s1
          end
      end
  | _ => (s, Some AttributeError)
  end.

Definition _create_recipe_relationships (recipes : list json) (s : store)
    : store * option exn :=
  for_each recipe_relationships recipes s.

(** The first loop of [ingest_recipes]. *)
Definition upsert_recipes (recipes : list json) (st : state) : state :=
  foldl ingest_recipe st recipes.

Definition ingest_recipes (recipes : list json) (st : state)
    : state * option exn :=
  let st1 := upsert_recipes recipes st in
  let '(s2, err) := _create_recipe_relationships recipes (fst st1) in
  ((s2, snd st1), err).

(** *** The whole run *)

(** [clear_database]: [MATCH (n) DETACH DELETE n]. *)
Definition clear_database (st : state) : state := (empty_store, snd st).

(** [ingest_all], on the three manifests; [clear] tells whether the
    clearing was asked for and confirmed. *)
Definition ingest_all (clear : bool) (resources weapons recipes : list json)
    (st : state) : state * option exn :=
  let st0 := if clear then clear_database st else st in
  let st1 := ingest_resources resources st0 in
  match ingest_weapons weapons st1 with
  | (st2, Some e) => (st2, Some e)
  | (st2, None) => ingest_recipes recipes st2
  end.

End Pipeline.

(** *** The node upserts of a pass, seen from the store *)

(** The upsert statement a record leads to: the key and the properties. *)
Abbreviation upsert := (json * dict)%type.

(** The upsert is one the store accepts. *)
Definition accepted (storable : json -> bool) (op : upsert) : bool :=
  negb (is_null (fst op)) && storable (fst op)
  && props_storable storable (snd op).

(** What an upsert does to one node. *)
Definition upsert_node (L : label) (op : upsert) (n : node) : node :=
  if node_matches L "uniqueName" (fst op) n then set_node_props (snd op) n
  else n.

(** What the store is after the statement, rejected or not. *)
Definition apply_upsert (storable : json -> bool) (L : label) (s : store)
    (op : upsert) : store :=
  match cypher_merge_node_set storable L "uniqueName" (fst op) (snd op) s with
  | Returned s' => s'
  | Raised _ => s
  end.

(** What a list of upserts, run in order, does to one node. *)
Definition upsert_nodes (L : label) (ops : list upsert) (n : node) : node :=
  foldl (fun n op => upsert_node L op n) n ops.

(** The store has taken the upserts in: each key has its node, and running
    the upserts again would leave every node as it is. *)
Definition saturated (L : label) (ops : list upsert) (s : store) : Prop :=
  (forall op, op ∈ ops ->
     existsb (node_matches L "uniqueName" (fst op)) (nodes s) = true)
  /\ (forall n, n ∈ nodes s -> upsert_nodes L ops n = n).

(** Two nodes that differ at most in the properties [op] writes. *)
Definition agree (op : upsert) (n m : node) : Prop :=
  n_label n = n_label m
  /\ forall k, dict_get k (snd op) = None -> n_props n !! k = n_props m !! k.

(** The upserts of a pass: accepted by the store, and not writing the
    key. *)
Definition good (storable : json -> bool) (op : upsert) : Prop :=
  accepted storable op = true /\ dict_get "uniqueName" (snd op) = None.

(** The nodes labelled [L] are the same, at the same places, in both
    stores. *)
Definition frozen (L : label) (s s' : store) : Prop :=
  forall i n, n_label n = L ->
    (nodes s !! i = Some n <-> nodes s' !! i = Some n).

(** The store after the upserts that a pass derives from its records. *)
Definition run_upserts (storable : json -> bool) (L : label)
    (ops : list (option upsert)) (s : store) : store :=
  foldl (apply_upsert storable L) s (omap id ops).

(** No two nodes of the store carry the same label and [uniqueName]. *)
Definition unique_keys (s : store) : Prop :=
  forall L v i j n m,
    nodes s !! i = Some n -> nodes s !! j = Some m ->
    node_matches L "uniqueName" v n = true ->
    node_matches L "uniqueName" v m = true ->
    i = j.

(** The node of a category. *)
Definition category_node (c : string) : node :=
  Node Category {["name" := JStr c]}.

(** The upserts of a pass that the store accepts. *)
Definition pass_ops (storable : json -> bool) (ops : list (option upsert))
    : list upsert :=
  List.filter (accepted storable) (omap id ops).

Definition resource_op (coerce : ftype -> json -> option json) (raw : json)
    : option upsert :=
  match raw with
  | JObj d =>
      match validate coerce ResourceNode d with
      | Some resource =>
          Some (dict_get_default "uniqueName" JNull resource,
                model_dump ["uniqueName"] resource)
      | None => None
      end
  | _ => None
  end.

Definition weapon_op (coerce : ftype -> json -> option json)
    (py_str : json -> string) (raw : json) : option upsert :=
  match raw with
  | JObj d =>
      match validate coerce WeaponNode d with
      | Some weapon =>
          Some (dict_get_default "uniqueName" JNull weapon,
                weapon_props py_str weapon)
      | None => None
      end
  | _ => None
  end.

Definition recipe_op (coerce : ftype -> json -> option json) (raw : json)
    : option upsert :=
  match raw with
  | JObj d =>
      match validate coerce RecipeNode d with
      | Some recipe =>
          Some (dict_get_default "uniqueName" JNull recipe,
                recipe_props recipe)
      | None => None
      end
  | _ => None
  end.

(** A step that only merges relationships between nodes it looks up:
    when it completes it leaves the nodes alone and keeps the
    relationships that were there, and on any store with the same nodes
    that already has the relationships it made, it changes nothing. *)
Definition absorbing (f : store -> store * option exn) : Prop :=
  forall s s1, f s = (s1, None) ->
    nodes s1 = nodes s
    /\ edges s ⊆ edges s1
    /\ forall Y, nodes Y = nodes s -> edges s1 ⊆ edges Y -> f Y = (Y, None).

(** The statements the pipeline sends to the store, as steps on it. *)
Inductive store_step (storable : json -> bool) : store -> store -> Prop :=
  | step_clear s :
      store_step storable s empty_store
  | step_merge_node L key v s s' :
      cypher_merge_node storable L key v s = Returned s' ->
      store_step storable s s'
  | step_merge_node_set L key v props s s' :
      cypher_merge_node_set storable L key v props s = Returned s' ->
      store_step storable s s'
  | step_merge_edge La ka va Lb kb vb T q s s' cnt :
      cypher_match_merge_edge storable La ka va Lb kb vb T q s
        = Returned (s', cnt) ->
      store_step storable s s'.

(** Every relationship of the store joins two nodes of the store. *)
Definition edges_closed (s : store) : Prop :=
  Forall (fun e => e_src e < length (nodes s) /\ e_dst e < length (nodes s))
    (edges s).

(** The records of the end-to-end scenario: Weapon [W1] of category
    Pistols, Resource [Res1], and Recipe [R1] building two [W1] from five
    [Res1]; run with the engine's value rule and a validation that converts
    nothing. *)
Module Scenario.
Definition W1 : json :=
  JObj [("uniqueName", JStr "W1"); ("name", JStr "Lex");
        ("productCategory", JStr "Pistols")].
Definition Res1 : json :=
  JObj [("uniqueName", JStr "Res1"); ("name", JStr "Ferrite")].
Definition R1 : json :=
  JObj [("uniqueName", JStr "R1"); ("resultType", JStr "W1");
        ("num", JNum 2);
        ("ingredients",
         JList [JObj [("ItemType", JStr "Res1"); ("ItemCount", JNum 5)]])].
(** A recipe with a secret ingredient list, a price and an entry the
    model does not declare. *)
Definition R2_fields : dict :=
  [("uniqueName", JStr "R2"); ("resultType", JStr "W1");
   ("buildPrice", JNum 15000);
   ("ingredients",
    JList [JObj [("ItemType", JStr "Res1"); ("ItemCount", JNum 5)]]);
   ("secretIngredients",
    JList [JObj [("ItemType", JStr "Res1"); ("ItemCount", JNum 1)]]);
   ("tradable", JBool true)].
(** A recipe record that fails validation (its price is no number), and
    one that lacks the required result type. *)
Definition R3 : json :=
  JObj [("uniqueName", JStr "R3"); ("resultType", JStr "W1");
        ("buildPrice", JStr "free")].
Definition R4 : json :=
  JObj [("uniqueName", JStr "R4");
        ("ingredients",
         JList [JObj [("ItemType", JStr "Res1"); ("ItemCount", JNum 5)]])].
(** A recipe that lists the same resource twice, with two counts. *)
Definition R5 : json :=
  JObj [("uniqueName", JStr "R5"); ("resultType", JStr "W1");
        ("ingredients",
         JList [JObj [("ItemType", JStr "Res1"); ("ItemCount", JNum 5)];
                JObj [("ItemType", JStr "Res1"); ("ItemCount", JNum 7)]])].
Definition show (x : json) : string := "".
Definition run (clear : bool) (resources weapons recipes : list json)
    (st : state) : state * option exn :=
  ingest_all neo4j_storable strict_coerce show clear
    resources weapons recipes st.
Definition fresh : state := (empty_store, []).
Definition R1_fields : dict :=
  match R1 with JObj d => d | _ => [] end.
(** The store once the three kinds of node are in, before any
    relationship of a recipe is derived: Res1 is node 0, W1 node 1,
    Pistols node 2 and R1 node 3. *)
Definition nodes_in : store :=
  fst (upsert_recipes neo4j_storable strict_coerce [R1]
         (fst (run true [Res1] [W1] [] fresh))).
End Scenario.

End Graph.
(** ** Laws of a stream decoder *)

Module Decoder.
Import Lzma.

(** The decoder leaves input unused only behind an end-of-stream marker. *)
Definition unused_after_eof (decomp : bytes -> dec_result) : Prop :=
  forall data res unused eof,
    decomp data = DecOk res unused eof -> unused <> [] -> eof = true.

End Decoder.

(** ** data_downloader.py: the manifests *)

Module Downloader.
Import Index Json.
Local Open Scope string_scope.

Definition base_url : string :=
  "http://content.warframe.com/PublicExport/Manifest/".

(** [get_manifest_url(manifest_path)] *)
Definition get_manifest_url (manifest_path : string) : string :=
  base_url ++ manifest_path.

(** [get_all_manifests], on the text read from the index file. *)
Definition get_all_manifests (index_text : string) : list string :=
  decompress_index index_text.

(** [manifest.split('!')[0]]: [split] returns at least one piece, so the
    subscript never fails. *)
Definition filename (manifest : string) : string :=
  hd "" (split "!"%char manifest).

(** The JSON files on disk, by path; a file holds the document that
    [json.dump] wrote and [json.load] reads back. *)
Abbreviation files := (gmap string json).

(** What the main block prints for a manifest. *)
Inductive message : Type :=
  | Saved (file : string)
  | Failed (manifest : string).

Section Web.

(** [requests.get(url)], [raise_for_status()] and [response.json()]: the
    parsed body, or nothing when one of the three raises. *)
Variable fetch : string -> option json.
(** Whether [open(path, 'w')] succeeds; when it does not, the file is left
    as it was. *)
Variable writable : string -> bool.
(** [os.path.join] *)
Variable path_join : string -> string -> string.

(** [download_manifest_json(manifest_path, save_path)]: the files and the
    data returned, or nothing when an exception leaves the function. *)
Definition download_manifest_json (manifest_path : string)
    (save_path : option string) (fs : files) : files * option json :=
  match fetch (get_manifest_url manifest_path) with
  | None => (fs, None)
  | Some data =>
      match save_path with
      | Some p =>
          if negb (String.eqb p "") then
            if writable p then (<[p := data]> fs, Some data) else (fs, None)
          else (fs, Some data)
      | None => (fs, Some data)
      end
  end.

(** The body of the loop of the main block, with its handler. *)
Definition save_manifest (st : files * list message) (manifest : string)
    : files * list message :=
  let save_path := path_join "data_raw" (filename manifest) in
  match download_manifest_json manifest (Some save_path) (fst st) with
  | (fs, Some _) => (fs, (snd st ++ [Saved (filename manifest)])%list)
  | (fs, None) => (fs, (snd st ++ [Failed manifest])%list)
  end.

Definition save_manifests (manifests : list string)
    (st : files * list message) : files * list message :=
  foldl save_manifest st manifests.

(** The document the loop writes at [path] for [manifest], if it writes
    one there. *)
Definition written_at (path : string) (manifest : string) : option json :=
  let save_path := path_join "data_raw" (filename manifest) in
  match fetch (get_manifest_url manifest) with
  | Some data =>
      if negb (String.eqb save_path "") && writable save_path
         && String.eqb save_path path
      then Some data else None
  | None => None
  end.

End Web.

(** A server that has two manifests, a disk that takes every file, and
    the path separator of POSIX. *)
Module Example.
Definition fetch (url : string) : option json :=
  if String.eqb url (get_manifest_url "ExportWeapons_en.json!a1")
  then Some (JObj [("ExportWeapons", JList [])])
  else if String.eqb url (get_manifest_url "ExportWeapons_en.json!b2")
  then Some (JObj [("ExportWeapons", JList [JObj [("name", JStr "Lex")]])])
  else None.
Definition writable (path : string) : bool := true.
Definition path_join (a b : string) : string := a ++ "/" ++ b.
End Example.

End Downloader.

(** ** What the ingestion keeps of a store *)

Module Invariants.
Import Json Graph.
Local Open Scope string_scope.
Local Open Scope nat_scope.

(** [s'] keeps what [s] holds: every node is at its place, with its label,
    its [uniqueName] and every property it had (the value may be another
    one), a Category node is as it was, and every relationship is there. *)
Definition keeps (s s' : store) : Prop :=
  (forall i n, nodes s !! i = Some n ->
     exists n', nodes s' !! i = Some n'
       /\ n_label n' = n_label n
       /\ n_props n' !! "uniqueName" = n_props n !! "uniqueName"
       /\ (forall k, is_Some (n_props n !! k) -> is_Some (n_props n' !! k))
       /\ (n_label n = Category -> n' = n))
  /\ edges s ⊆ edges s'.

(** The label of the node at a place. *)
Definition label_at (s : store) (i : nat) : option label :=
  n_label <$> nodes s !! i.

(** The shape of a relationship of the graph: BUILDS from a Recipe to a
    Weapon or a Resource and REQUIRES from a Recipe to a Resource, both
    with a quantity; BELONGS_TO from a Weapon to a Category, with none. *)
Definition edge_typed (s : store) (e : edge) : bool :=
  match e_type e, label_at s (e_src e), label_at s (e_dst e) with
  | BUILDS, Some Recipe, Some Weapon
  | BUILDS, Some Recipe, Some Resource
  | REQUIRES, Some Recipe, Some Resource =>
      match e_quantity e with Some q => negb (is_null q) | None => false end
  | BELONGS_TO, Some Weapon, Some Category =>
      match e_quantity e with Some _ => false | None => true end
  | _, _, _ => false
  end.

Definition typed (s : store) : bool := forallb (edge_typed s) (edges s).

Definition is_str (v : option json) : bool :=
  match v with Some (JStr _) => true | _ => false end.

(** The fields a node of each label carries: the required fields of its
    model, as strings; a Category node carries a non-empty name. *)
Definition node_keyed (n : node) : bool :=
  match n_label n with
  | Weapon | Resource =>
      is_str (n_props n !! "uniqueName") && is_str (n_props n !! "name")
  | Recipe =>
      is_str (n_props n !! "uniqueName") && is_str (n_props n !! "resultType")
  | Category =>
      match n_props n !! "name" with
      | Some (JStr c) => negb (String.eqb c "")
      | _ => false
      end
  end.

Definition keyed (s : store) : bool := forallb node_keyed (nodes s).

(** No two Category nodes carry the same name. *)
Definition unique_categories (s : store) : Prop :=
  forall v i j n m,
    nodes s !! i = Some n -> nodes s !! j = Some m ->
    node_matches Category "name" v n = true ->
    node_matches Category "name" v m = true ->
    i = j.

(** No entry of the properties is null. *)
Definition null_free (props : dict) : bool :=
  forallb (fun kv => negb (is_null (snd kv))) props.

(** The field a node of a label carries besides its key. *)
Definition second_field (L : label) : string :=
  match L with Recipe => "resultType" | _ => "name" end.

(** An upsert of the pipeline for label [L]: the key is a string, and the
    properties hold the second required field, as a string, and neither
    the key nor a null. *)
Definition sound_op (L : label) (op : upsert) : Prop :=
  (exists u, fst op = JStr u)
  /\ is_str (dict_get (second_field L) (snd op)) = true
  /\ dict_get "uniqueName" (snd op) = None
  /\ null_free (snd op) = true.

(** The store has the node of category [c], and every Weapon node whose
    [productCategory] is [c] is linked to every Category node named
    [c]. *)
Definition linked (c : string) (s : store) : Prop :=
  (exists b, b ∈ match_ids Category "name" (JStr c) s)
  /\ forall w b,
       w ∈ match_ids Weapon "productCategory" (JStr c) s ->
       b ∈ match_ids Category "name" (JStr c) s ->
       Edge w BELONGS_TO None b ∈ edges s.

(** The BUILDS relationship that the record [d] calls for in [s]: from
    its Recipe node to the Weapon node of its result type or, when no
    Weapon has it, to the Resource node. *)
Definition builds_of (s : store) (d : dict) (e : edge) : Prop :=
  let recipe_unique := dict_get_default "uniqueName" JNull d in
  let result_type := dict_get_default "resultType" JNull d in
  let quantity := dict_get_default "num" (JNum 1) d in
  py_truthy result_type = true
  /\ exists r t,
       r ∈ match_ids Recipe "uniqueName" recipe_unique s
       /\ (t ∈ match_ids Weapon "uniqueName" result_type s
           \/ (match_ids Weapon "uniqueName" result_type s = []
               /\ t ∈ match_ids Resource "uniqueName" result_type s))
       /\ e = Edge r BUILDS (Some quantity) t.

(** The REQUIRES relationship that an ingredient calls for. *)
Definition requires_of (recipe_unique : json) (s : store) (ingredient : json)
    (e : edge) : Prop :=
  exists ing r x,
    ingredient = JObj ing
    /\ py_truthy (dict_get_default "ItemType" JNull ing) = true
    /\ r ∈ match_ids Recipe "uniqueName" recipe_unique s
    /\ x ∈ match_ids Resource "uniqueName"
            (dict_get_default "ItemType" JNull ing) s
    /\ e = Edge r REQUIRES
             (Some (dict_get_default "ItemCount" (JNum 1) ing)) x.

(** The relationships that a raw recipe record calls for. *)
Definition record_edges (s : store) (raw : json) (e : edge) : Prop :=
  exists d,
    raw = JObj d
    /\ (builds_of s d e
        \/ exists items ingredient,
             py_iter (dict_get_default "ingredients" (JList []) d)
               = Returned items
             /\ ingredient ∈ items
             /\ requires_of (dict_get_default "uniqueName" JNull d) s
                  ingredient e).

(** What a step that merges relationships does, against the relationships
    [R] it is to make. *)
Definition makes (R : store -> edge -> Prop)
    (f : store -> store * option exn) : Prop :=
  forall s,
    nodes (fst (f s)) = nodes s
    /\ edges s ⊆ edges (fst (f s))
    /\ (forall e, e ∈ edges (fst (f s)) -> e ∈ edges s \/ R s e)
    /\ (snd (f s) = None -> forall e, R s e -> e ∈ edges (fst (f s))).



End Invariants.

(** ** ingest_neo4j.py: the summary *)

Module Summary.
Import Json Graph.

(** One more in the group of [x]; a new group goes last. *)
Fixpoint bump {A} `{EqDecision A} (x : A) (rows : list (A * nat))
    : list (A * nat) :=
  match rows with
  | [] => [(x, 1%nat)]
  | (y, c) :: rows' =>
      if decide (y = x) then (y, S c) :: rows' else (y, c) :: bump x rows'
  end.

(** [RETURN key, cnt] over the rows: one row for each key that occurs,
    with the number of its occurrences.  The engine fixes no order for the
    groups; they are listed here in the order of first occurrence. *)
Definition count_by {A} `{EqDecision A} (keys : list A) : list (A * nat) :=
  foldl (fun rows x => bump x rows) [] keys.

(** [print_summary]: the lines printed under Node Counts and under
    Relationship Counts. *)
Definition print_summary (s : store)
    : list (label * nat) * list (reltype * nat) :=
  (count_by (map n_label (nodes s)), count_by (map e_type (edges s))).

(** The number of occurrences of [x]. *)
Definition occurrences {A} `{EqDecision A} (x : A) (keys : list A) : nat :=
  length (List.filter (fun y => bool_decide (y = x)) keys).

(** The count printed for [x]; 0 when no line is printed for it. *)
Definition row_count {A} `{EqDecision A} (x : A) (rows : list (A * nat))
    : nat :=
  default 0%nat (snd <$> List.find (fun r => bool_decide (fst r = x)) rows).

End Summary.

(** * Properties *)

(** ** Decompression *)

Module LzmaFacts.
Import Lzma.

Section Loops.

Variable decomp : bytes -> dec_result.

Lemma decompress_lzma_loop_raises fuel data results e :
  decompress_lzma_loop decomp fuel data results = Some (Raised e) ->
  e = LZMAError.
Proof.
  revert data results.
  induction fuel as [|fuel IH]; intros data results; simpl; [discriminate|].
  destruct (decomp data) as [|res unused eof].
  - destruct results; intros [=]; congruence.
  - destruct unused as [|b unused]; [discriminate|].
    destruct eof; simpl; [apply IH | intros [=]; congruence].
Qed.

Lemma decompress_lzma_loop_total fuel data results :
  consumes_input decomp ->
  (length data < fuel)%nat ->
  exists o, decompress_lzma_loop decomp fuel data results = Some o.
Proof.
  intros Hc. revert data results.
  induction fuel as [|fuel IH]; intros data results Hlt; [lia|].
  simpl. destruct (decomp data) as [|res unused eof] eqn:Hd.
  - destruct results; eauto.
  - destruct unused as [|b unused]; [eauto|].
    destruct eof; simpl; [|eauto].
    apply IH. pose proof (Hc _ _ _ _ Hd ltac:(discriminate)) as Hlen.
    simpl in *. lia.
Qed.

Lemma decompress_lzma_cases data :
  consumes_input decomp ->
  (exists out, decompress_lzma decomp data = Some (Returned out))
  \/ decompress_lzma decomp data = Some (Raised LZMAError).
Proof.
  intros Hc.
  destruct (decompress_lzma_loop_total (S (length data)) data [] Hc)
    as [o Ho]; [lia|].
  unfold decompress_lzma. rewrite Ho. destruct o as [out|e]; [eauto|].
  right. apply decompress_lzma_loop_raises in Ho. by subst.
Qed.

Lemma decompress_lzma_empty :
  consumes_input decomp ->
  decomp [] <> DecError ->
  exists out, decompress_lzma decomp [] = Some (Returned out).
Proof.
  intros Hc He. unfold decompress_lzma. simpl.
  destruct (decomp []) as [|res unused eof] eqn:Hd; [done|].
  destruct unused as [|b unused]; [eauto|].
  pose proof (Hc _ _ _ _ Hd ltac:(discriminate)) as Hlen.
  simpl in Hlen. lia.
Qed.

Lemma py_slice_to_nat (byt : bytes) (n : nat) :
  py_slice_to byt (Z.of_nat n) = take n byt.
Proof.
  unfold py_slice_to. destruct (Z.leb_spec 0 (Z.of_nat n)); [|lia].
  by rewrite Nat2Z.id.
Qed.

(** The retry loop started at a length [n] within the buffer stops at the
    longest prefix of at most [n] bytes that [decompress_lzma] accepts,
    having tried every length from [n] down to it. *)
Lemma retry_loop_run byt (n : nat) :
  consumes_input decomp ->
  decomp [] <> DecError ->
  exists (k : nat) out,
    (k <= n)%nat
    /\ (forall fuel, (n < fuel)%nat ->
         retry_loop decomp fuel byt (Z.of_nat n)
         = Some (countdown (Z.of_nat n) (S (n - k)), Returned out))
    /\ decompress_lzma decomp (take k byt) = Some (Returned out)
    /\ forall j, (k < j <= n)%nat ->
         decompress_lzma decomp (take j byt) = Some (Raised LZMAError).
Proof.
  intros Hc He.
  induction n as [|n IH].
  - destruct (decompress_lzma_empty Hc He) as [out Hout].
    exists 0%nat, out.
    split; [lia|]. split; [|split; [by rewrite take_0|intros j Hj; lia]].
    intros [|fuel] Hlt; [lia|].
    cbn [retry_loop]. by rewrite py_slice_to_nat, take_0, Hout.
  - destruct (decompress_lzma_cases (take (S n) byt) Hc) as [[out Hout]|Hr].
    + exists (S n), out.
      split; [lia|]. split; [|split; [done|intros j Hj; lia]].
      intros [|fuel] Hlt; [lia|].
      cbn [retry_loop]. rewrite py_slice_to_nat, Hout.
      by replace (S n - S n)%nat with 0%nat by lia.
    + destruct IH as (k & out & Hk & Hrun & Hok & Hfail).
      exists k, out.
      split; [lia|]. split; [|split; [done|]].
      * intros [|fuel] Hlt; [lia|].
        cbn [retry_loop]. rewrite py_slice_to_nat, Hr.
        replace (Z.of_nat (S n) - 1)%Z with (Z.of_nat n) by lia.
        rewrite Hrun by lia.
        replace (S n - k)%nat with (S (n - k)) by lia.
        cbn [countdown].
        by replace (Z.of_nat (S n) - 1)%Z with (Z.of_nat n) by lia.
      * intros j Hj. destruct (decide (j = S n)) as [->|]; [done|].
        apply Hfail. lia.
Qed.

Lemma countdown_length hi steps : length (countdown hi steps) = steps.
Proof. revert hi. induction steps; intros; simpl; auto. Qed.

Lemma countdown_lookup hi steps (i : nat) :
  (i < steps)%nat -> countdown hi steps !! i = Some (hi - Z.of_nat i)%Z.
Proof.
  revert hi i. induction steps as [|m IH]; intros hi i Hi; [lia|].
  destruct i as [|i]; simpl.
  - f_equal. lia.
  - rewrite IH by lia. f_equal. lia.
Qed.

Lemma decompress_lzma_zero_progress data :
  decomp data = DecError ->
  decompress_lzma decomp data = Some (Raised LZMAError).
Proof. intros Hd. unfold decompress_lzma. simpl. by rewrite Hd. Qed.

Lemma valid_frame_nonempty frame plain junk :
  valid_frame decomp frame plain ->
  junk <> [] ->
  (decomp junk = DecError \/ exists out e, decomp junk = DecOk out [] e) ->
  frame <> [].
Proof.
  intros Hv Hj Hd ->. specialize (Hv junk). simpl in Hv.
  destruct Hd as [Hd|(out & e & Hd)]; rewrite Hd in Hv; [done|].
  injection Hv as _ <- _. done.
Qed.

(** Two complete frames followed by bytes that hold no complete frame:
    the third decoder either fails, and the loop stops with the two
    outputs, or returns what the trailing bytes let it decode. *)
Lemma decompress_lzma_two_frames f1 p1 f2 p2 junk :
  valid_frame decomp f1 p1 ->
  valid_frame decomp f2 p2 ->
  junk <> [] ->
  (decomp junk = DecError ->
   decompress_lzma decomp (f1 ++ f2 ++ junk) = Some (Returned (p1 ++ p2)))
  /\ (forall out e, decomp junk = DecOk out [] e ->
      decompress_lzma decomp (f1 ++ f2 ++ junk)
      = Some (Returned (p1 ++ p2 ++ out))).
Proof.
  intros Hv1 Hv2 Hj.
  assert (Hrun : forall fuel results,
    decompress_lzma_loop decomp (S (S (S fuel))) (f1 ++ f2 ++ junk) results
    = match decomp junk with
      | DecError => Some (Returned (concat ((results ++ [p1]) ++ [p2])))
      | DecOk out [] _ =>
          Some (Returned (concat (((results ++ [p1]) ++ [p2]) ++ [out])))
      | DecOk out (b :: u) eof =>
          if negb eof then Some (Raised LZMAError)
          else decompress_lzma_loop decomp fuel (b :: u)
                 (((results ++ [p1]) ++ [p2]) ++ [out])
      end).
  { intros fuel results.
    cbn [decompress_lzma_loop]. rewrite (Hv1 (f2 ++ junk)).
    destruct (f2 ++ junk) as [|b0 u0] eqn:Hfj.
    { apply app_eq_nil in Hfj as [_ ?]. done. }
    rewrite <- Hfj. cbn [negb]. rewrite (Hv2 junk).
    destruct junk as [|b1 u1]; [done|]. cbn [negb].
    destruct (decomp (b1 :: u1)) as [|out unused eof];
      [|by destruct unused].
    destruct ((results ++ [p1]) ++ [p2]) eqn:Hres; [|done].
    by apply app_eq_nil in Hres as [_ ?]. }
  assert (Hlen : forall d, decomp junk = d ->
    (d = DecError \/ exists out e, d = DecOk out [] e) ->
    exists fuel, S (length (f1 ++ f2 ++ junk)) = S (S (S fuel))).
  { intros d Hd Hcase. subst d.
    pose proof (valid_frame_nonempty _ _ _ Hv1 Hj Hcase) as Hn1.
    destruct f1 as [|a1 f1]; [done|]. destruct junk as [|b1 junk]; [done|].
    exists (length (f1 ++ f2 ++ b1 :: junk) - 1)%nat.
    simpl. rewrite !length_app. simpl. lia. }
  split.
  - intros Hd. destruct (Hlen _ Hd) as [fuel Hfuel]; [by left|].
    unfold decompress_lzma. rewrite Hfuel, Hrun, Hd.
    simpl. by rewrite app_nil_r.
  - intros out e Hd. destruct (Hlen _ Hd) as [fuel Hfuel]; [right; eauto|].
    unfold decompress_lzma. rewrite Hfuel, Hrun, Hd.
    simpl. by rewrite app_nil_r.
Qed.

Lemma retry_loop_first_try byt out fuel :
  decompress_lzma decomp byt = Some (Returned out) ->
  download_and_decompress decomp (S fuel) byt
  = Some ([Z.of_nat (length byt)], Returned out).
Proof.
  intros Hd. unfold download_and_decompress. cbn [retry_loop].
  by rewrite py_slice_to_nat, firstn_all, Hd.
Qed.

End Loops.

(** The miniature decoder meets what the loops need of a decoder. *)
Lemma frame_decomp_consumes : consumes_input frame_decomp.
Proof.
  intros data res unused eof Hd Hne.
  destruct data as [|m [|n body]]; simpl in Hd.
  - by injection Hd as _ <- _.
  - destruct (negb (Byte.eqb m frame_magic)); [done|].
    by injection Hd as _ <- _.
  - destruct (negb (Byte.eqb m frame_magic)); [done|].
    destruct (drop (Byte.to_nat n) body) as [|e rest] eqn:Hdrop.
    + by injection Hd as _ <- _.
    + destruct (Byte.eqb e frame_end); [|done].
      injection Hd as _ <- _.
      apply (f_equal length) in Hdrop. rewrite length_drop in Hdrop.
      simpl in *. lia.
Qed.

Lemma frame_decomp_empty : frame_decomp [] = DecOk [] [] false.
Proof. reflexivity. Qed.

(** C6: for every response body, the shrink-and-retry loop of
    [download_and_decompress] terminates, given a decoder that consumes
    input and does not fail on an empty buffer (the library's decoder
    returns an empty output for it): it returns a decompressed buffer, the
    [i]-th attempt was made at length [len(byt) - i], one less at each
    failed attempt, and no attempt was made at a length below zero. *)
Theorem retry_loop_terminates decomp (byt : bytes) :
  consumes_input decomp ->
  decomp [] <> DecError ->
  exists tried out,
    (forall fuel, (length byt < fuel)%nat ->
       download_and_decompress decomp fuel byt = Some (tried, Returned out))
    /\ (length tried <= S (length byt))%nat
    /\ forall (i : nat) n, tried !! i = Some n ->
         n = (Z.of_nat (length byt) - Z.of_nat i)%Z /\ (0 <= n)%Z.
Proof.
  intros Hc He.
  destruct (retry_loop_run decomp byt (length byt) Hc He)
    as (k & out & Hk & Hrun & _ & _).
  exists (countdown (Z.of_nat (length byt)) (S (length byt - k))), out.
  split; [exact Hrun|]. split; [rewrite countdown_length; lia|].
  intros i n Hi.
  assert (i < S (length byt - k))%nat as Hlt.
  { apply lookup_lt_Some in Hi. by rewrite countdown_length in Hi. }
  rewrite countdown_lookup in Hi by done. injection Hi as <-. lia.
Qed.

Lemma retry_loop_terminates_witness :
  exists tried out,
    (forall fuel, (3 < fuel)%nat ->
       download_and_decompress frame_decomp fuel
         [Byte.xff; Byte.x02; Byte.x07] = Some (tried, Returned out))
    /\ (length tried <= 4)%nat
    /\ forall (i : nat) n, tried !! i = Some n ->
         n = (3 - Z.of_nat i)%Z /\ (0 <= n)%Z.
Proof.
  apply (retry_loop_terminates frame_decomp [Byte.xff; Byte.x02; Byte.x07]
           frame_decomp_consumes).
  rewrite frame_decomp_empty. discriminate.
Defined.

(** C5, as the code has it: when the first frame of a non-empty buffer
    fails to decode, [decompress_lzma] raises the decode error, but
    [download_and_decompress] catches it and retries on the buffer
    shortened by one byte; the run never ends in a decode error.  It
    returns the output of the longest prefix [decompress_lzma] accepts:
    that prefix, of length [k], is shorter than the buffer, every longer
    prefix raised, and the attempts were made at the lengths from the full
    one down to [k].  When the decoder fails on every non-empty prefix,
    [k] is zero and the output is empty. *)
Theorem zero_progress_is_retried decomp (byt : bytes) :
  consumes_input decomp ->
  decomp [] = DecOk [] [] false ->
  byt <> [] ->
  decomp byt = DecError ->
  decompress_lzma decomp byt = Some (Raised LZMAError)
  /\ exists (k : nat) tried out,
      (k < length byt)%nat
      /\ (Z.of_nat (length byt) :: (Z.of_nat (length byt) - 1)%Z :: tried
          = countdown (Z.of_nat (length byt)) (S (length byt - k)))
      /\ (forall fuel, (length byt < fuel)%nat ->
           download_and_decompress decomp fuel byt
           = Some (Z.of_nat (length byt) :: (Z.of_nat (length byt) - 1)%Z
                     :: tried, Returned out))
      /\ decompress_lzma decomp (take k byt) = Some (Returned out)
      /\ (forall j, (k < j <= length byt)%nat ->
           decompress_lzma decomp (take j byt) = Some (Raised LZMAError))
      /\ ((forall j, (0 < j <= length byt)%nat ->
             decomp (take j byt) = DecError) ->
          k = 0%nat /\ out = []
          /\ last (Z.of_nat (length byt) - 1 :: tried)%Z = Some 0%Z).
Proof.
  intros Hc He Hne Hd.
  pose proof (decompress_lzma_zero_progress decomp byt Hd) as Hraise.
  split; [done|].
  destruct (retry_loop_run decomp byt (length byt) Hc) as
    (k & out & Hk & Hrun & Hok & Hfail); [by rewrite He|].
  assert (k < length byt)%nat as Hlt.
  { destruct (decide (k = length byt)) as [->|]; [|lia].
    rewrite firstn_all in Hok. congruence. }
  destruct (length byt - k)%nat as [|m] eqn:Hm; [lia|].
  exists k, (countdown (Z.of_nat (length byt) - 1 - 1) m), out.
  split; [done|]. split; [by rewrite Hm|]. split; [exact Hrun|].
  split; [done|]. split; [done|].
  intros Hall.
  assert (k = 0)%nat as ->.
  { destruct k as [|k]; [done|].
    rewrite decompress_lzma_zero_progress in Hok; [done|].
    apply Hall. lia. }
  split; [done|]. split.
  - rewrite take_0 in Hok. unfold decompress_lzma in Hok. simpl in Hok.
    rewrite He in Hok. by injection Hok as <-.
  - change (Z.of_nat (length byt) - 1 :: countdown _ m)%Z
      with (countdown (Z.of_nat (length byt) - 1) (S m)).
    rewrite last_lookup, countdown_length, Nat.pred_succ.
    rewrite countdown_lookup by lia. f_equal. lia.
Qed.

Lemma zero_progress_is_retried_witness :
  let byt := [Byte.x4c; Byte.x01; Byte.x07; Byte.xff] in
  decompress_lzma frame_decomp byt = Some (Raised LZMAError)
  /\ exists (k : nat) tried out,
      (k < 4)%nat
      /\ (4 :: (4 - 1) :: tried = countdown 4 (S (4 - k)))%Z
      /\ (forall fuel, (4 < fuel)%nat ->
           download_and_decompress frame_decomp fuel byt
           = Some (4 :: (4 - 1) :: tried, Returned out))%Z
      /\ decompress_lzma frame_decomp (take k byt) = Some (Returned out)
      /\ (forall j, (k < j <= 4)%nat ->
           decompress_lzma frame_decomp (take j byt)
           = Some (Raised LZMAError))
      /\ ((forall j, (0 < j <= 4)%nat ->
             frame_decomp (take j byt) = DecError) ->
          k = 0%nat /\ out = [] /\ last (4 - 1 :: tried)%Z = Some 0%Z).
Proof.
  apply (zero_progress_is_retried frame_decomp
           [Byte.x4c; Byte.x01; Byte.x07; Byte.xff] frame_decomp_consumes);
    [reflexivity | discriminate | reflexivity].
Defined.

(** C5 as stated fails: on a buffer whose first byte is no frame header
    the decoder makes no progress, yet the run retries at lengths 2, 1 and
    0 and returns an empty output instead of a decode error. *)
Lemma zero_progress_not_reported :
  frame_decomp [Byte.xff; Byte.x02; Byte.x07] = DecError
  /\ download_and_decompress frame_decomp 4 [Byte.xff; Byte.x02; Byte.x07]
     = Some ([3; 2; 1; 0]%Z, Returned [])
  /\ download_and_decompress frame_decomp 4 [Byte.xff; Byte.x02; Byte.x07]
     <> Some ([3]%Z, Raised LZMAError).
Proof. repeat split. discriminate. Qed.

(** C4, as the code has it: for two complete frames followed by at least
    one trailing byte, the first attempt already succeeds (no shrinking
    takes place) and returns the two plaintexts followed by whatever the
    decoder returns for the trailing bytes: nothing when it rejects them,
    its partial output when they are the beginning of a further frame. *)
Theorem two_frames_then_trailing_bytes decomp (f1 p1 f2 p2 junk : bytes) fuel :
  valid_frame decomp f1 p1 ->
  valid_frame decomp f2 p2 ->
  junk <> [] ->
  (decomp junk = DecError ->
   download_and_decompress decomp (S fuel) (f1 ++ f2 ++ junk)
   = Some ([Z.of_nat (length (f1 ++ f2 ++ junk))], Returned (p1 ++ p2)))
  /\ (forall out e, decomp junk = DecOk out [] e ->
      download_and_decompress decomp (S fuel) (f1 ++ f2 ++ junk)
      = Some ([Z.of_nat (length (f1 ++ f2 ++ junk))],
              Returned (p1 ++ p2 ++ out))).
Proof.
  intros Hv1 Hv2 Hj.
  destruct (decompress_lzma_two_frames decomp f1 p1 f2 p2 junk Hv1 Hv2 Hj)
    as [Herr Hpart].
  split.
  - intros Hd. apply retry_loop_first_try. by apply Herr.
  - intros out e Hd. apply retry_loop_first_try. by apply (Hpart out e).
Qed.

Lemma two_frames_then_trailing_bytes_witness :
  let f1 := frame_encode [Byte.x01] in
  let f2 := frame_encode [Byte.x02] in
  (frame_decomp [Byte.xff] = DecError ->
   download_and_decompress frame_decomp 1 (f1 ++ f2 ++ [Byte.xff])
   = Some ([Z.of_nat (length (f1 ++ f2 ++ [Byte.xff]))],
           Returned ([Byte.x01] ++ [Byte.x02])))
  /\ (forall out e, frame_decomp [Byte.xff] = DecOk out [] e ->
      download_and_decompress frame_decomp 1 (f1 ++ f2 ++ [Byte.xff])
      = Some ([Z.of_nat (length (f1 ++ f2 ++ [Byte.xff]))],
              Returned ([Byte.x01] ++ [Byte.x02] ++ out))).
Proof.
  apply (two_frames_then_trailing_bytes frame_decomp
           (frame_encode [Byte.x01]) [Byte.x01]
           (frame_encode [Byte.x02]) [Byte.x02] [Byte.xff] 0);
    [intros rest; reflexivity | intros rest; reflexivity | discriminate].
Defined.

(** C4 as stated fails: two complete frames followed by the first three
    bytes of a third one (fewer bytes than a frame has) decompress to the
    two plaintexts and one byte more. *)
Lemma trailing_partial_frame_adds_output :
  let f1 := frame_encode [Byte.x01] in
  let f2 := frame_encode [Byte.x02] in
  let junk := [Byte.x4c; Byte.x02; Byte.x07] in
  valid_frame frame_decomp f1 [Byte.x01]
  /\ valid_frame frame_decomp f2 [Byte.x02]
  /\ (1 <= length junk < length f1)%nat
  /\ download_and_decompress frame_decomp 12 (f1 ++ f2 ++ junk)
     = Some ([11]%Z, Returned [Byte.x01; Byte.x02; Byte.x07])
  /\ [Byte.x01; Byte.x02; Byte.x07] <> [Byte.x01] ++ [Byte.x02].
Proof.
  repeat split; try (intros rest; reflexivity); simpl; try lia.
  discriminate.
Qed.

End LzmaFacts.

(** ** The manifest index *)

Module IndexFacts.
Import Index.
Local Open Scope string_scope.

Lemma lstrip_blank_app lead s c :
  blank lead = true -> first_char s = Some c -> is_space c = false ->
  lstrip (lead ++ s) = s.
Proof.
  intros Hb Hc Hs. induction lead as [|d lead IH]; simpl in *.
  - destruct s as [|c' s]; [done|]. simpl in Hc. injection Hc as ->.
    simpl. by rewrite Hs.
  - apply andb_true_iff in Hb as [Hd Hb]. rewrite Hd. by apply IH.
Qed.

Lemma rstrip_blank trail : blank trail = true -> rstrip trail = "".
Proof.
  induction trail as [|c trail IH]; simpl; [done|].
  intros [Hc Hb]%andb_true_iff. by rewrite IH, Hc.
Qed.

Lemma rstrip_app_blank s trail :
  blank trail = true -> rstrip (s ++ trail) = rstrip s.
Proof.
  intros Hb. induction s as [|c s IH]; simpl.
  - by apply rstrip_blank.
  - by rewrite IH.
Qed.

Lemma rstrip_id s c :
  last_char s = Some c -> is_space c = false -> rstrip s = s.
Proof.
  intros Hc Hs. induction s as [|d s IH]; [done|].
  destruct s as [|d' s].
  - simpl in *. injection Hc as ->. by rewrite Hs.
  - change (rstrip (String d (String d' s)))
      with (match rstrip (String d' s) with
            | "" => if is_space d then "" else String d ""
            | r => String d r
            end).
    by rewrite IH.
Qed.

Lemma split_app_sep sep l r :
  has_char sep l = false ->
  split sep (l ++ String sep r) = l :: split sep r.
Proof.
  induction l as [|c l IH]; simpl.
  - intros _. by rewrite Ascii.eqb_refl.
  - intros [Hc Hl]%orb_false_iff. rewrite Hc, IH by done. done.
Qed.

Lemma split_no_sep sep l : has_char sep l = false -> split sep l = [l].
Proof.
  induction l as [|c l IH]; simpl; [done|].
  intros [Hc Hl]%orb_false_iff. by rewrite Hc, IH.
Qed.

Lemma split_join sep lines :
  lines <> [] ->
  Forall (fun l => has_char sep l = false) lines ->
  split sep (join sep lines) = lines.
Proof.
  intros Hne Hall. induction Hall as [|l rest Hl Hrest IH]; [done|].
  destruct rest as [|l' rest].
  - simpl. by apply split_no_sep.
  - change (join sep (l :: l' :: rest))
      with (l ++ String sep (join sep (l' :: rest))).
    rewrite split_app_sep by done. by rewrite IH.
Qed.

Lemma first_char_app a b c :
  first_char a = Some c -> first_char (a ++ b) = Some c.
Proof. by destruct a. Qed.

Lemma last_char_app a b c :
  last_char b = Some c -> last_char (a ++ b) = Some c.
Proof.
  intros Hb. induction a as [|d a IH]; [done|].
  simpl. destruct (a ++ b) eqn:Hab; [|done].
  destruct a; [|done]. change (b = "") in Hab. by subst b.
Qed.

Lemma first_char_join sep l rest c :
  first_char l = Some c -> first_char (join sep (l :: rest)) = Some c.
Proof.
  intros Hc. destruct rest; [done|].
  change (join sep (l :: s :: rest)) with (l ++ String sep (join sep (s :: rest))).
  by apply first_char_app.
Qed.

Lemma last_char_join sep lines l c :
  last lines = Some l -> last_char l = Some c ->
  last_char (join sep lines) = Some c.
Proof.
  intros Hl Hc. induction lines as [|l0 lines IH]; [done|].
  destruct lines as [|l1 lines].
  - simpl in *. by injection Hl as ->.
  - change (join sep (l0 :: l1 :: lines))
      with (l0 ++ String sep (join sep (l1 :: lines))).
    apply last_char_app.
    specialize (IH Hl). revert IH.
    generalize (join sep (l1 :: lines)). by intros [|d j].
Qed.

(** C7, as the code has it: the index text is stripped of the white space
    around it and cut at every newline.  For a text made of [lines] joined
    by newlines, with white space only before and after, where the first
    line begins and the last line ends with a character that is not white
    space, the result is exactly [lines], in order: blank lines at the two
    ends are dropped, blank lines between identifiers are returned. *)
Theorem decompress_index_lines lead lines trail first last_line c1 c2 :
  blank lead = true ->
  blank trail = true ->
  Forall (fun l => has_char newline l = false) lines ->
  head lines = Some first -> first_char first = Some c1 ->
  is_space c1 = false ->
  last lines = Some last_line -> last_char last_line = Some c2 ->
  is_space c2 = false ->
  decompress_index (lead ++ join newline lines ++ trail) = lines.
Proof.
  intros Hlead Htrail Hnl Hhd Hc1 Hs1 Hlast Hc2 Hs2.
  destruct lines as [|l rest]; [done|]. simpl in Hhd. injection Hhd as ->.
  unfold decompress_index, strip.
  rewrite (lstrip_blank_app lead _ c1); [|done| |done].
  - rewrite rstrip_app_blank by done.
    rewrite (rstrip_id _ c2); [|by eapply last_char_join|done].
    by apply split_join.
  - apply first_char_app. by apply first_char_join.
Qed.

Lemma decompress_index_lines_witness :
  decompress_index
    (String newline "" ++
     join newline ["ExportResources_en.json!abc"; "";
                   "ExportWeapons_en.json!def"] ++ String newline "")
  = ["ExportResources_en.json!abc"; ""; "ExportWeapons_en.json!def"].
Proof.
  apply (decompress_index_lines (String newline "")
           ["ExportResources_en.json!abc"; ""; "ExportWeapons_en.json!def"]
           (String newline "") "ExportResources_en.json!abc"
           "ExportWeapons_en.json!def" "E"%char "f"%char);
    try reflexivity.
  repeat constructor.
Defined.

(** C7 as stated fails: a blank line between two identifiers is returned
    as an identifier of its own, and an empty index gives one empty
    identifier. *)
Lemma decompress_index_keeps_inner_blank :
  let text := join newline ["ExportResources_en.json!abc"; "";
                            "ExportWeapons_en.json!def"; ""] in
  decompress_index text
  = ["ExportResources_en.json!abc"; ""; "ExportWeapons_en.json!def"]
  /\ nonblank_lines text
     = ["ExportResources_en.json!abc"; "ExportWeapons_en.json!def"]
  /\ decompress_index text <> nonblank_lines text
  /\ decompress_index "" = [""].
Proof. repeat split. discriminate. Qed.

End IndexFacts.

(** ** JSON values *)

Module JsonFacts.
Import Json.

Lemma json_ind' (P : json -> Prop) :
  P JNull -> (forall b, P (JBool b)) -> (forall n, P (JNum n)) ->
  (forall s, P (JStr s)) ->
  (forall l, Forall P l -> P (JList l)) ->
  (forall o, Forall (fun kv => P (snd kv)) o -> P (JObj o)) ->
  forall j, P j.
Proof.
  intros Hnull Hbool Hnum Hstr Hlist Hobj.
  fix IH 1.
  intros [|b|n|s|l|o];
    [exact Hnull | apply Hbool | apply Hnum | apply Hstr | | ].
  - apply Hlist. induction l as [|x l IHl]; constructor; [apply IH | exact IHl].
  - apply Hobj.
    induction o as [|[k v] o IHo]; constructor; [apply IH | exact IHo].
Qed.

Lemma json_eqb_eq a b : json_eqb a b = true <-> a = b.
Proof.
  revert b. induction a as [|x|x|x|l IHl|o IHo] using json_ind';
    intros [|y|y|y|m|m]; simpl; try (split; [discriminate|congruence]);
    try tauto.
  - rewrite Bool.eqb_true_iff. split; congruence.
  - rewrite Z.eqb_eq. split; congruence.
  - rewrite String.eqb_eq. split; congruence.
  - revert m. induction IHl as [|x l Hx _ IH]; intros [|y m];
      try (split; [discriminate|congruence]); [tauto|].
    rewrite andb_true_iff, Hx, IH. split.
    + intros [-> [=]]. by subst.
    + intros [=]. by subst.
  - revert m. induction IHo as [|[k x] o Hx _ IH]; intros [|[k' y] m];
      try (split; [discriminate|congruence]); [tauto|].
    simpl in Hx.
    rewrite !andb_true_iff, String.eqb_eq, Hx, IH. split.
    + intros [[-> ->] [=]]. by subst.
    + intros [=]. by subst.
Qed.

Lemma json_eqb_refl a : json_eqb a a = true.
Proof. by apply json_eqb_eq. Qed.

End JsonFacts.

(** ** The store and its statements *)

Module StoreFacts.
Import Json Graph JsonFacts.
Local Open Scope nat_scope.

Lemma quantity_eqb_eq a b : quantity_eqb a b = true <-> a = b.
Proof.
  destruct a, b; simpl; rewrite ?json_eqb_eq; split; congruence.
Qed.

Lemma edge_eqb_eq a b : edge_eqb a b = true <-> a = b.
Proof.
  destruct a as [s1 t1 q1 d1], b as [s2 t2 q2 d2]. unfold edge_eqb. simpl.
  rewrite !andb_true_iff, !Nat.eqb_eq, bool_decide_eq_true, quantity_eqb_eq.
  split; [intros [[[-> ->] ->] ->]; done | intros [=]; by subst].
Qed.

Lemma has_edge_elem e s : has_edge e s = true <-> e ∈ edges s.
Proof.
  unfold has_edge. rewrite existsb_exists. split.
  - intros (x & Hin & Heq). apply edge_eqb_eq in Heq as ->.
    by apply list_elem_of_In.
  - intros Hin. exists e. split; [by apply list_elem_of_In|].
    by apply edge_eqb_eq.
Qed.

Lemma merge_edge_row_nodes T q s row :
  nodes (merge_edge_row T q s row) = nodes s.
Proof. unfold merge_edge_row. by destruct (has_edge _ s). Qed.

Lemma merge_edge_row_elem T q s row e :
  e ∈ edges (merge_edge_row T q s row)
  <-> e ∈ edges s \/ e = Edge (fst row) T q (snd row).
Proof.
  unfold merge_edge_row.
  destruct (has_edge _ s) eqn:Hhas; simpl.
  - apply has_edge_elem in Hhas. split; [auto|intros [?| ->]; done].
  - rewrite elem_of_app, list_elem_of_singleton. done.
Qed.

Lemma foldl_merge_edge_row_nodes T q rows s :
  nodes (foldl (merge_edge_row T q) s rows) = nodes s.
Proof.
  revert s. induction rows as [|row rows IH]; intros s; simpl; [done|].
  by rewrite IH, merge_edge_row_nodes.
Qed.

Lemma foldl_merge_edge_row_elem T q rows s e :
  e ∈ edges (foldl (merge_edge_row T q) s rows)
  <-> e ∈ edges s \/ exists row, row ∈ rows /\ e = Edge (fst row) T q (snd row).
Proof.
  revert s. induction rows as [|row rows IH]; intros s; simpl.
  - split; [auto|]. intros [?|(row & Hin & _)]; [done|].
    by apply elem_of_nil in Hin.
  - rewrite IH, merge_edge_row_elem. split.
    + intros [[?| ->]|(r & Hin & ->)]; [by left| |].
      * right. exists row. split; [apply list_elem_of_here|done].
      * right. exists r. split; [by apply list_elem_of_further|done].
    + intros [?|(r & Hin & ->)]; [by left; left|].
      apply elem_of_cons in Hin as [->|Hin]; [by left; right|].
      right. by exists r.
Qed.

Lemma find_ids_elem p i ns j :
  j ∈ find_ids p i ns
  <-> i <= j /\ exists n, ns !! (j - i) = Some n /\ p n = true.
Proof.
  revert i. induction ns as [|n ns IH]; intros i; simpl.
  - split; [intros Hin; by apply elem_of_nil in Hin|].
    by intros (_ & n & Hn & _).
  - rewrite elem_of_app, IH. split.
    + intros [Hin|(Hle & m & Hm & Hp)].
      * destruct (p n) eqn:Hp; [|by apply elem_of_nil in Hin].
        apply list_elem_of_singleton in Hin as ->.
        split; [lia|]. exists n. by rewrite Nat.sub_diag.
      * split; [lia|]. exists m. split; [|done].
        by replace (j - i) with (S (j - S i)) by lia.
    + intros (Hle & m & Hm & Hp).
      destruct (decide (j = i)) as [->|Hne].
      * left. rewrite Nat.sub_diag in Hm. simpl in Hm. injection Hm as ->.
        rewrite Hp. apply list_elem_of_here.
      * right. split; [lia|]. exists m. split; [|done].
        by replace (j - i) with (S (j - S i)) in Hm by lia.
Qed.

Lemma match_ids_elem L key v s j :
  j ∈ match_ids L key v s
  <-> exists n, nodes s !! j = Some n /\ node_matches L key v n = true.
Proof.
  unfold match_ids. rewrite find_ids_elem, Nat.sub_0_r.
  split; [by intros [_ ?]|intros ?; split; [lia|done]].
Qed.

Lemma match_ids_lt L key v s j :
  j ∈ match_ids L key v s -> j < length (nodes s).
Proof.
  intros (n & Hn & _)%match_ids_elem. by apply lookup_lt_Some in Hn.
Qed.

Lemma elem_of_list_prod {A B} (a : A) (b : B) l k :
  (a, b) ∈ list_prod l k <-> a ∈ l /\ b ∈ k.
Proof. rewrite !list_elem_of_In. apply in_prod_iff. Qed.

Section Steps.

Variable storable : json -> bool.

Lemma merge_edge_nodes La ka va Lb kb vb T q s s' cnt :
  cypher_match_merge_edge storable La ka va Lb kb vb T q s
    = Returned (s', cnt) ->
  nodes s' = nodes s.
Proof.
  unfold cypher_match_merge_edge.
  destruct (list_prod _ _) as [|row rows]; [by intros [= <- _]|].
  destruct (match q with Some _ => _ | None => _ end); [done|].
  intros [= <- _]. apply (foldl_merge_edge_row_nodes T q (row :: rows) s).
Qed.

Lemma merge_edge_elem La ka va Lb kb vb T q s s' cnt e :
  cypher_match_merge_edge storable La ka va Lb kb vb T q s
    = Returned (s', cnt) ->
  e ∈ edges s'
  <-> e ∈ edges s
     \/ exists a b, a ∈ match_ids La ka va s /\ b ∈ match_ids Lb kb vb s
                  /\ e = Edge a T q b.
Proof.
  unfold cypher_match_merge_edge.
  destruct (list_prod _ _) as [|row rows] eqn:Hrows.
  - intros [= <- _]. split; [auto|]. intros [?|(a & b & Ha & Hb & _)]; [done|].
    assert ((a, b) ∈ list_prod (match_ids La ka va s) (match_ids Lb kb vb s))
      as Hin by (by apply elem_of_list_prod).
    rewrite Hrows in Hin. by apply elem_of_nil in Hin.
  - destruct (match q with Some _ => _ | None => _ end); [done|].
    intros [= <- _].
    etrans; [apply (foldl_merge_edge_row_elem T q (row :: rows) s e)|].
    rewrite <- Hrows.
    split; (intros [?|Hnew]; [by left|right]).
    + destruct Hnew as ([a b] & Hin & ->).
      apply elem_of_list_prod in Hin as [Ha Hb]. by exists a, b.
    + destruct Hnew as (a & b & Ha & Hb & ->). exists (a, b).
      split; [by apply elem_of_list_prod|done].
Qed.

Lemma merge_node_lookup L key v s s' :
  cypher_merge_node storable L key v s = Returned s' ->
  edges s' = edges s
  /\ (nodes s' = nodes s \/ nodes s' = nodes s ++ [Node L {[key := v]}]).
Proof.
  unfold cypher_merge_node.
  destruct (is_null v || negb (storable v)); [done|].
  destruct (existsb _ _); intros [= <-]; auto.
Qed.

Lemma merge_node_set_shape L key v props s s' :
  cypher_merge_node_set storable L key v props s = Returned s' ->
  edges s' = edges s /\ length (nodes s) <= length (nodes s').
Proof.
  unfold cypher_merge_node_set.
  destruct (_ || _); [done|].
  destruct (existsb _ _); intros [= <-]; simpl.
  - by rewrite length_map.
  - rewrite length_app. split; [done|lia].
Qed.

Lemma store_step_new_edges s s' e :
  store_step storable s s' ->
  e ∈ edges s' ->
  e ∈ edges s
  \/ (e_src e < length (nodes s) /\ e_dst e < length (nodes s)).
Proof.
  intros Hstep He. destruct Hstep as
    [s|L key v s s' H|L key v props s s' H|La ka va Lb kb vb T q s s' cnt H].
  - by apply elem_of_nil in He.
  - apply merge_node_lookup in H as [Heq _]. left. by rewrite <- Heq.
  - apply merge_node_set_shape in H as [Heq _]. left. by rewrite <- Heq.
  - apply (merge_edge_elem _ _ _ _ _ _ _ _ _ _ _ e H) in He
      as [?|(a & b & Ha & Hb & ->)]; [by left|right].
    split; simpl; by eapply match_ids_lt.
Qed.

Lemma store_step_length s s' :
  store_step storable s s' ->
  s' = empty_store \/ length (nodes s) <= length (nodes s').
Proof.
  intros [s0|L key v s0 s1 H|L key v props s0 s1 H
         |La ka va Lb kb vb T q s0 s1 cnt H].
  - by left.
  - right. apply merge_node_lookup in H as [_ [->| ->]]; [done|].
    rewrite length_app. lia.
  - right. by apply merge_node_set_shape in H as [_ ?].
  - right. apply merge_edge_nodes in H. by rewrite H.
Qed.

Lemma store_step_closed s s' :
  store_step storable s s' -> edges_closed s -> edges_closed s'.
Proof.
  intros Hstep Hc. unfold edges_closed in *. rewrite Forall_forall in *.
  intros e He.
  destruct (store_step_length _ _ Hstep) as [->|Hlen];
    [by apply elem_of_nil in He|].
  destruct (store_step_new_edges _ _ e Hstep He) as [Hold|[? ?]].
  - destruct (Hc e Hold). lia.
  - lia.
Qed.

End Steps.

(** C9: at every state the store reaches from the empty store through the
    statements of the pipeline (clearing, node upserts, category merges
    and the match-and-merge of relationships), each relationship joins two
    nodes of the store; and a statement adds a relationship only between
    nodes that are in the store before it runs. *)
Theorem relationships_join_existing_nodes storable s :
  rtc (store_step storable) empty_store s ->
  edges_closed s
  /\ forall s' e, store_step storable s s' -> e ∈ edges s' ->
       e ∈ edges s
       \/ (e_src e < length (nodes s) /\ e_dst e < length (nodes s)).
Proof.
  intros Hreach. split.
  - revert s Hreach. apply (rtc_ind_r (fun s => edges_closed s)).
    + by constructor.
    + intros y z _ Hstep IH. by apply (store_step_closed storable y z).
  - intros s' e Hstep. by apply (store_step_new_edges storable).
Qed.

End StoreFacts.

(** ** The passes as sequences of statements *)

Module PipelineSteps.
Import Json Graph JsonFacts StoreFacts.

Section Passes.

Variable storable : json -> bool.
Variable coerce : ftype -> json -> option json.
Variable py_str : json -> string.

Abbreviation steps := (rtc (store_step storable)).

Lemma for_each_steps {A} (body : A -> store -> store * option exn) items s :
  (forall x s0, steps s0 (fst (body x s0))) ->
  steps s (fst (for_each body items s)).
Proof.
  intros Hbody. revert s.
  induction items as [|x items IH]; intros s; simpl; [done|].
  specialize (Hbody x s). destruct (body x s) as [s' [e|]]; [done|].
  etrans; [exact Hbody|]. apply IH.
Qed.

Lemma merge_edge_steps La ka va Lb kb vb T q s :
  match cypher_match_merge_edge storable La ka va Lb kb vb T q s with
  | Returned (s', _) => steps s s'
  | Raised _ => True
  end.
Proof.
  destruct (cypher_match_merge_edge _ _ _ _ _ _ _ _ _ s) as [[s' cnt]|e] eqn:H;
    [|done].
  apply rtc_once. by eapply step_merge_edge.
Qed.

Lemma merge_node_set_steps L key v props s :
  match cypher_merge_node_set storable L key v props s with
  | Returned s' => steps s s'
  | Raised _ => True
  end.
Proof.
  destruct (cypher_merge_node_set _ _ _ _ _ s) as [s'|e] eqn:H; [|done].
  apply rtc_once. by eapply step_merge_node_set.
Qed.

Lemma ingest_resource_steps st raw :
  steps (fst st) (fst (ingest_resource storable coerce st raw)).
Proof.
  unfold ingest_resource. destruct raw as [| | | | |d]; try done.
  destruct (validate _ _ d) as [resource|]; [|done].
  pose proof (merge_node_set_steps Resource "uniqueName"
    (dict_get_default "uniqueName" JNull resource)
    (model_dump ["uniqueName"%string] resource) (fst st)) as H.
  by destruct (cypher_merge_node_set _ _ _ _ _ _).
Qed.

Lemma ingest_recipe_steps st raw :
  steps (fst st) (fst (ingest_recipe storable coerce st raw)).
Proof.
  unfold ingest_recipe. destruct raw as [| | | | |d]; try done.
  destruct (validate _ _ d) as [recipe|]; [|done].
  pose proof (merge_node_set_steps Recipe "uniqueName"
    (dict_get_default "uniqueName" JNull recipe)
    (recipe_props recipe) (fst st)) as H.
  by destruct (cypher_merge_node_set _ _ _ _ _ _).
Qed.

Lemma ingest_weapon_steps acc raw :
  steps (fst (fst acc))
    (fst (fst (ingest_weapon storable coerce py_str acc raw))).
Proof.
  unfold ingest_weapon. destruct acc as [st categories].
  destruct raw as [| | | | |d]; try done.
  destruct (validate _ _ d) as [weapon|]; [|done].
  pose proof (merge_node_set_steps Weapon "uniqueName"
    (dict_get_default "uniqueName" JNull weapon)
    (weapon_props py_str weapon) (fst st)) as H.
  by destruct (cypher_merge_node_set _ _ _ _ _ _).
Qed.

Lemma foldl_steps {A B} (f : B -> A -> B) (proj : B -> store) items acc :
  (forall b x, steps (proj b) (proj (f b x))) ->
  steps (proj acc) (proj (foldl f acc items)).
Proof.
  intros Hf. revert acc.
  induction items as [|x items IH]; intros acc; simpl; [done|].
  etrans; [apply Hf|apply IH].
Qed.

Lemma link_category_steps c s :
  steps s (fst (link_category storable c s)).
Proof.
  unfold link_category.
  destruct (cypher_merge_node _ _ _ _ s) as [s1|e] eqn:H1; [|done].
  pose proof (merge_edge_steps Weapon "productCategory" (JStr c)
                Category "name" (JStr c) BELONGS_TO None s1) as H2.
  destruct (cypher_match_merge_edge _ _ _ _ _ _ _ _ _ s1) as [[s2 cnt]|e];
    simpl; [|by apply rtc_once; eapply step_merge_node].
  etrans; [|exact H2]. apply rtc_once. by eapply step_merge_node.
Qed.

Lemma create_builds_steps d s :
  steps s (fst (create_builds storable d s)).
Proof.
  unfold create_builds. destruct (py_truthy _); [|done].
  pose proof (merge_edge_steps Recipe "uniqueName"
    (dict_get_default "uniqueName" JNull d) Weapon "uniqueName"
    (dict_get_default "resultType" JNull d) BUILDS
    (Some (dict_get_default "num" (JNum 1) d)) s) as H1.
  destruct (cypher_match_merge_edge _ _ _ _ _ _ _ _ _ s) as [[s1 cnt]|e];
    [|done].
  destruct (Nat.eqb cnt 0); [|done].
  pose proof (merge_edge_steps Recipe "uniqueName"
    (dict_get_default "uniqueName" JNull d) Resource "uniqueName"
    (dict_get_default "resultType" JNull d) BUILDS
    (Some (dict_get_default "num" (JNum 1) d)) s1) as H2.
  destruct (cypher_match_merge_edge _ _ _ _ _ _ _ _ _ s1) as [[s2 cnt2]|e];
    [|done].
  by etrans.
Qed.

Lemma create_requires_steps ru ingredient s :
  steps s (fst (create_requires storable ru ingredient s)).
Proof.
  unfold create_requires.
  destruct (py_get "ItemType" JNull ingredient) as [item_type|e]; [|done].
  destruct (py_get "ItemCount" (JNum 1) ingredient) as [item_count|e];
    [|done].
  destruct (py_truthy item_type); [|done].
  pose proof (merge_edge_steps Recipe "uniqueName" ru Resource "uniqueName"
    item_type REQUIRES (Some item_count) s) as H.
  by destruct (cypher_match_merge_edge _ _ _ _ _ _ _ _ _ s) as [[s1 cnt]|e].
Qed.

Lemma recipe_relationships_steps raw s :
  steps s (fst (recipe_relationships storable raw s)).
Proof.
  unfold recipe_relationships. destruct raw as [| | | | |d]; try done.
  pose proof (create_builds_steps d s) as H1.
  destruct (create_builds storable d s) as [s1 [e|]]; [done|].
  destruct (py_iter _) as [items|e]; [|done].
  etrans; [exact H1|]. apply for_each_steps. apply create_requires_steps.
Qed.

Lemma ingest_weapons_steps weapons st :
  steps (fst st) (fst (fst (ingest_weapons storable coerce py_str weapons st))).
Proof.
  unfold ingest_weapons, upsert_weapons.
  pose proof (foldl_steps (ingest_weapon storable coerce py_str)
                (fun acc => fst (fst acc)) weapons (st, [])
                ingest_weapon_steps) as H1.
  destruct (foldl _ _ weapons) as [st1 categories]. simpl in H1.
  pose proof (for_each_steps (link_category storable) categories (fst st1)
                (fun x s0 => link_category_steps x s0)) as H2.
  unfold _create_weapon_categories.
  destruct (for_each _ categories _) as [s2 err]. simpl in *. by etrans.
Qed.

Lemma ingest_recipes_steps recipes st :
  steps (fst st) (fst (fst (ingest_recipes storable coerce recipes st))).
Proof.
  unfold ingest_recipes, upsert_recipes.
  pose proof (foldl_steps (ingest_recipe storable coerce) fst recipes st
                ingest_recipe_steps) as H1.
  pose proof (for_each_steps (recipe_relationships storable) recipes
                (fst (foldl (ingest_recipe storable coerce) st recipes))
                (fun x s0 => recipe_relationships_steps x s0)) as H2.
  unfold _create_recipe_relationships.
  destruct (for_each _ recipes _) as [s2 err]. simpl in *. by etrans.
Qed.

(** A whole run, aborted by an exception or not, is a sequence of
    statements of the store. *)
Lemma ingest_all_steps clear resources weapons recipes st :
  steps (fst st)
    (fst (fst (ingest_all storable coerce py_str clear
                 resources weapons recipes st))).
Proof.
  unfold ingest_all.
  set (st0 := if clear then clear_database st else st).
  assert (steps (fst st) (fst st0)) as H0.
  { subst st0. destruct clear; [|done]. apply rtc_once. constructor. }
  pose proof (foldl_steps (ingest_resource storable coerce) fst resources st0
                ingest_resource_steps) as H1.
  fold (ingest_resources storable coerce resources st0) in H1.
  pose proof (ingest_weapons_steps weapons
                (ingest_resources storable coerce resources st0)) as H2.
  destruct (ingest_weapons _ _ _ weapons _) as [st2 [e|]].
  - simpl in *. etrans; [exact H0|]. by etrans.
  - pose proof (ingest_recipes_steps recipes st2) as H3.
    etrans; [exact H0|]. etrans; [exact H1|]. by etrans.
Qed.

End Passes.

End PipelineSteps.

(** ** Validation failures *)

Module ValidationFacts.
Import Json Graph JsonFacts StoreFacts PipelineSteps.

(** The end-to-end scenario run from the empty store is a sequence of
    statements, and C9 holds of what it builds. *)
Lemma relationships_join_existing_nodes_witness :
  let s := fst (fst (Scenario.run true [Scenario.Res1] [Scenario.W1]
                       [Scenario.R1] Scenario.fresh)) in
  edges_closed s
  /\ forall s' e, store_step neo4j_storable s s' -> e ∈ edges s' ->
       e ∈ edges s
       \/ (e_src e < length (nodes s) /\ e_dst e < length (nodes s))%nat.
Proof.
  apply (relationships_join_existing_nodes neo4j_storable).
  apply (ingest_all_steps neo4j_storable strict_coerce Scenario.show true
           [Scenario.Res1] [Scenario.W1] [Scenario.R1] Scenario.fresh).
Defined.

Section Skipping.

Variable storable : json -> bool.
Variable coerce : ftype -> json -> option json.
Variable py_str : json -> string.

(** The messages already printed have no influence on the store. *)
Lemma ingest_resources_store rs s log1 log2 :
  fst (ingest_resources storable coerce rs (s, log1))
  = fst (ingest_resources storable coerce rs (s, log2)).
Proof.
  unfold ingest_resources. revert s log1 log2.
  induction rs as [|r rs IH]; intros s log1 log2; simpl; [done|].
  unfold ingest_resource at 2 4. simpl.
  destruct r as [| | | | |d]; try apply IH.
  destruct (validate _ _ d) as [res|]; [|apply IH].
  destruct (cypher_merge_node_set _ _ _ _ _ s); apply IH.
Qed.

Lemma upsert_recipes_store rs s log1 log2 :
  fst (upsert_recipes storable coerce rs (s, log1))
  = fst (upsert_recipes storable coerce rs (s, log2)).
Proof.
  unfold upsert_recipes. revert s log1 log2.
  induction rs as [|r rs IH]; intros s log1 log2; simpl; [done|].
  unfold ingest_recipe at 2 4. simpl.
  destruct r as [| | | | |d]; try apply IH.
  destruct (validate _ _ d) as [res|]; [|apply IH].
  destruct (cypher_merge_node_set _ _ _ _ _ s); apply IH.
Qed.




Lemma weapon_loop_store ws s log1 log2 categories :
  let r1 := foldl (ingest_weapon storable coerce py_str)
              ((s, log1), categories) ws in
  let r2 := foldl (ingest_weapon storable coerce py_str)
              ((s, log2), categories) ws in
  fst (fst r1) = fst (fst r2) /\ snd r1 = snd r2.
Proof.
  revert s log1 log2 categories.
  induction ws as [|w ws IH]; intros s log1 log2 categories; simpl; [done|].
  unfold ingest_weapon at 2 4. simpl.
  destruct w as [| | | | |d]; try apply IH.
  destruct (validate _ _ d) as [weapon|]; [|apply IH].
  destruct (cypher_merge_node_set _ _ _ _ _ s); apply IH.
Qed.

End Skipping.


End ValidationFacts.

(** ** Validated records and the properties written for them *)

Module ModelFacts.
Import Json Graph JsonFacts StoreFacts.
Local Open Scope string_scope.

Lemma list_to_map_dict_get (l : dict) k :
  (list_to_map l : gmap string json) !! k = dict_get k l.
Proof.
  induction l as [|[k' v] l IH]; simpl; [done|].
  destruct (String.eqb_spec k' k) as [->|Hne].
  - by rewrite lookup_insert_eq.
  - by rewrite lookup_insert_ne.
Qed.

Lemma dict_get_None k (l : dict) : dict_get k l = None <-> k ∉ map fst l.
Proof.
  induction l as [|[k' v] l IH]; simpl.
  - split; [intros _ Hin; by apply elem_of_nil in Hin|done].
  - rewrite not_elem_of_cons.
    destruct (String.eqb_spec k' k) as [->|Hne];
      [split; [done|by intros [? _]]|].
    rewrite IH. split; [by intros ?; split|by intros [_ ?]].
Qed.

Lemma dict_get_app k (l1 l2 : dict) :
  dict_get k (l1 ++ l2)%list
  = match dict_get k l1 with Some v => Some v | None => dict_get k l2 end.
Proof.
  induction l1 as [|[k' v] l1 IH]; simpl; [done|].
  by destruct (String.eqb k' k).
Qed.

(** Filtering a dict whose keys are distinct. *)
Lemma dict_get_filter (P : string * json -> bool) k (l : dict) :
  NoDup (map fst l) ->
  dict_get k (List.filter P l)
  = match dict_get k l with
    | Some v => if P (k, v) then Some v else None
    | None => None
    end.
Proof.
  induction l as [|[k' v] l IH]; simpl; [done|].
  intros [Hk Hnd]%NoDup_cons. specialize (IH Hnd).
  destruct (String.eqb_spec k' k) as [->|Hne].
  - destruct (P (k, v)); simpl; [by rewrite String.eqb_refl|].
    rewrite IH. by apply dict_get_None in Hk as ->.
  - destruct (P (k', v)); simpl; [|done].
    by destruct (String.eqb_spec k' k).
Qed.

Lemma filter_keys_NoDup (P : string * json -> bool) (l : dict) :
  NoDup (map fst l) -> NoDup (map fst (List.filter P l)).
Proof.
  induction l as [|[k v] l IH]; simpl; [done|].
  intros [Hk Hnd]%NoDup_cons. destruct (P (k, v)); simpl; [|by apply IH].
  apply NoDup_cons. split; [|by apply IH].
  intros Hin. apply Hk.
  apply list_elem_of_fmap in Hin as ([k' v'] & -> & Hin).
  apply list_elem_of_In, filter_In in Hin as [Hin _].
  apply list_elem_of_fmap. exists (k', v'). split; [done|].
  by apply list_elem_of_In.
Qed.

Lemma mem_string_elem k keys : mem_string k keys = true <-> k ∈ keys.
Proof.
  unfold mem_string. rewrite existsb_exists. split.
  - intros (x & Hin & ->%String.eqb_eq). by apply list_elem_of_In.
  - intros Hin. exists k. split; [by apply list_elem_of_In|].
    apply String.eqb_refl.
Qed.

Lemma declared_elem fs k : declared fs k = true <-> k ∈ map f_name fs.
Proof.
  unfold declared. rewrite existsb_exists. split.
  - intros (f & Hin & <-%String.eqb_eq).
    apply list_elem_of_fmap. exists f. split; [done|by apply list_elem_of_In].
  - intros (f & -> & Hin)%list_elem_of_fmap. exists f.
    split; [by apply list_elem_of_In|apply String.eqb_refl].
Qed.

Lemma dict_get_extras fs k (d : dict) :
  NoDup (map fst d) ->
  dict_get k (extras fs d) = if declared fs k then None else dict_get k d.
Proof.
  intros Hnd. unfold extras. rewrite dict_get_filter by done. simpl.
  destruct (dict_get k d); destruct (declared fs k); done.
Qed.

Section Validated.

Variable coerce : ftype -> json -> option json.

Lemma validate_fields_keys fs d m :
  validate_fields coerce fs d = Some m -> map fst m = map f_name fs.
Proof.
  revert m. induction fs as [|f fs IH]; intros m; simpl; [by intros [= <-]|].
  destruct (validate_field coerce f d) as [v|]; [|done].
  destruct (validate_fields coerce fs d) as [m'|]; [|done].
  intros [= <-]. simpl. by rewrite (IH m').
Qed.

Lemma validate_fields_get fs d m f :
  validate_fields coerce fs d = Some m ->
  NoDup (map f_name fs) ->
  f ∈ fs ->
  dict_get (f_name f) m = validate_field coerce f d.
Proof.
  revert m. induction fs as [|f0 fs IH]; intros m Hv Hnd Hin.
  { by apply elem_of_nil in Hin. }
  simpl in Hv.
  destruct (validate_field coerce f0 d) as [v|] eqn:Hf0; [|done].
  destruct (validate_fields coerce fs d) as [m'|] eqn:Hfs; [|done].
  injection Hv as <-. simpl in Hnd. apply NoDup_cons in Hnd as [Hf0n Hnd].
  apply elem_of_cons in Hin as [->|Hin]; simpl.
  - by rewrite String.eqb_refl.
  - destruct (String.eqb_spec (f_name f0) (f_name f)) as [Heq|Hne].
    + exfalso. apply Hf0n. rewrite Heq. apply list_elem_of_fmap. by exists f.
    + by apply IH.
Qed.

(** The value a validated record holds under [k]: the validated value of
    the field when [k] is declared, the raw value otherwise. *)
Lemma validate_get fs d recipe k :
  validate coerce fs d = Some recipe ->
  NoDup (map f_name fs) ->
  NoDup (map fst d) ->
  (forall f, f ∈ fs -> f_name f = k ->
     dict_get k recipe = validate_field coerce f d)
  /\ (declared fs k = false -> dict_get k recipe = dict_get k d)
  /\ NoDup (map fst recipe).
Proof.
  unfold validate. intros Hv Hfs Hd.
  destruct (validate_fields coerce fs d) as [m|] eqn:Hm; [|done].
  injection Hv as <-.
  pose proof (validate_fields_keys _ _ _ Hm) as Hkeys.
  split; [|split].
  - intros f Hin <-. rewrite dict_get_app.
    rewrite (validate_fields_get fs d m f Hm Hfs Hin).
    destruct (validate_field coerce f d) eqn:Hf; [done|].
    rewrite dict_get_extras by done.
    assert (declared fs (f_name f) = true) as ->; [|done].
    apply declared_elem, list_elem_of_fmap. by exists f.
  - intros Hdecl. rewrite dict_get_app.
    assert (dict_get k m = None) as ->.
    { apply dict_get_None. rewrite Hkeys. intros Hin.
      apply declared_elem in Hin. congruence. }
    by rewrite dict_get_extras, Hdecl.
  - rewrite map_app. apply NoDup_app. split; [by rewrite Hkeys|].
    split; [|by apply filter_keys_NoDup].
    intros k' Hin1 Hin2. rewrite Hkeys in Hin1.
    apply declared_elem in Hin1.
    apply list_elem_of_fmap in Hin2 as ([k2 v2] & -> & Hin2).
    apply list_elem_of_In, filter_In in Hin2 as [_ Hf]. simpl in *.
    by rewrite Hin1 in Hf.
Qed.

End Validated.

Lemma model_dump_get exclude (m : dict) k :
  NoDup (map fst m) ->
  dict_get k (model_dump exclude m)
  = if mem_string k exclude then None
    else match dict_get k m with
         | Some v => if is_null v then None else Some v
         | None => None
         end.
Proof.
  intros Hnd. unfold model_dump. rewrite dict_get_filter by done. simpl.
  destruct (dict_get k m) as [v|]; [|by destruct (mem_string k exclude)].
  by destruct (mem_string k exclude), (is_null v).
Qed.

Lemma set_plus_lookup props old k :
  set_plus props old !! k
  = match props !! k with
    | Some JNull => None
    | Some v => Some v
    | None => old !! k
    end.
Proof.
  unfold set_plus. rewrite lookup_merge.
  destruct (props !! k) as [v|], (old !! k); simpl; try done.
Qed.

End ModelFacts.

(** ** Node upserts *)

Module UpsertFacts.
Import Json Graph JsonFacts StoreFacts ModelFacts.
Local Open Scope string_scope.

Lemma node_matches_set_props L key v props n :
  dict_get key props = None ->
  node_matches L key v (set_node_props props n) = node_matches L key v n.
Proof.
  intros Hk. unfold node_matches, set_node_props. simpl.
  by rewrite set_plus_lookup, list_to_map_dict_get, Hk.
Qed.

Lemma node_matches_new L key v :
  is_null v = false -> node_matches L key v (Node L {[key := v]}) = true.
Proof.
  intros Hv. unfold node_matches. simpl.
  by rewrite bool_decide_eq_true_2, lookup_singleton_eq, json_eqb_refl, Hv.
Qed.

Section Upsert.

Variable storable : json -> bool.

Lemma merge_node_set_accepted L key v props s s' :
  cypher_merge_node_set storable L key v props s = Returned s' ->
  is_null v = false /\ storable v = true /\ props_storable storable props = true.
Proof.
  unfold cypher_merge_node_set.
  destruct (is_null v), (storable v), (props_storable storable props);
    simpl; done.
Qed.

Lemma map_unmatched (p : node -> bool) (g : node -> node) ns :
  existsb p ns = false -> map (fun n => if p n then g n else n) ns = ns.
Proof.
  induction ns as [|n ns IH]; simpl; [done|].
  intros [Hn Hns]%orb_false_iff. by rewrite Hn, IH.
Qed.

(** The nodes after an upsert: the nodes that match get the properties,
    the others stay, and a node is added at the end when none matched. *)
Lemma merge_node_set_nodes L key v props s s' :
  cypher_merge_node_set storable L key v props s = Returned s' ->
  edges s' = edges s
  /\ nodes s'
     = (map (fun n => if node_matches L key v n then set_node_props props n
                      else n) (nodes s)
        ++ (if existsb (node_matches L key v) (nodes s) then []
            else [set_node_props props (Node L {[key := v]})]))%list.
Proof.
  unfold cypher_merge_node_set.
  destruct (_ || _) eqn:Hacc; [done|].
  destruct (existsb _ _) eqn:Hex; intros [= <-]; simpl.
  - by rewrite app_nil_r.
  - by rewrite map_unmatched.
Qed.

(** After an upsert whose properties leave the key alone, the nodes that
    match the key are those that matched before, with the properties
    set, or the node just created. *)
Lemma merge_node_set_lookup L key v props s s' i n' :
  cypher_merge_node_set storable L key v props s = Returned s' ->
  dict_get key props = None ->
  nodes s' !! i = Some n' ->
  node_matches L key v n' = true ->
  exists old,
    n' = set_node_props props old
    /\ node_matches L key v old = true
    /\ (nodes s !! i = Some old
        \/ (nodes s !! i = None /\ old = Node L {[key := v]})).
Proof.
  intros Hrun Hkey Hi Hm.
  pose proof (merge_node_set_accepted _ _ _ _ _ _ Hrun) as (Hv & _ & _).
  apply merge_node_set_nodes in Hrun as [_ Hnodes].
  rewrite Hnodes in Hi. apply lookup_app_Some in Hi as [Hi|[Hlen Hi]].
  - rewrite list_lookup_fmap in Hi.
    destruct (nodes s !! i) as [old|] eqn:Hold; [|done].
    simpl in Hi. injection Hi as <-.
    destruct (node_matches L key v old) eqn:Hmo.
    + exists old. auto.
    + congruence.
  - rewrite length_map in Hlen, Hi.
    destruct (existsb _ _); [by rewrite lookup_nil in Hi|].
    apply list_lookup_singleton_Some in Hi as [Hz <-].
    exists (Node L {[key := v]}).
    split; [done|]. split; [by apply node_matches_new|].
    right. split; [|done]. apply lookup_ge_None. lia.
Qed.

Lemma merge_node_set_exists L key v props s s' :
  cypher_merge_node_set storable L key v props s = Returned s' ->
  dict_get key props = None ->
  existsb (node_matches L key v) (nodes s') = true.
Proof.
  intros Hrun Hkey.
  pose proof (merge_node_set_accepted _ _ _ _ _ _ Hrun) as (Hv & _ & _).
  apply merge_node_set_nodes in Hrun as [_ ->].
  rewrite existsb_app.
  destruct (existsb (node_matches L key v) (nodes s)) eqn:Hex.
  - apply orb_true_iff. left.
    apply existsb_exists in Hex as (n & Hin & Hn).
    apply existsb_exists.
    exists (set_node_props props n). split.
    + apply in_map_iff. exists n. by rewrite Hn.
    + by rewrite node_matches_set_props.
  - apply orb_true_iff. right. simpl.
    by rewrite node_matches_set_props, node_matches_new.
Qed.

End Upsert.

Lemma RecipeNode_names : NoDup (map f_name RecipeNode).
Proof. apply (bool_decide_unpack _). by vm_compute. Qed.

(** C2, as the code has it: the upsert of a valid recipe writes every
    validated field and passthrough entry that is not null, except
    [uniqueName] (the key of the node), [ingredients] and
    [secretIngredients].  The result type is written as the property
    [resultType].  On the node, what is written overwrites, and the two
    ingredient lists are never touched: a node created by the upsert has
    none, a node that existed keeps what it had. *)
Theorem recipe_node_properties storable coerce d recipe s s' :
  validate coerce RecipeNode d = Some recipe ->
  NoDup (map fst d) ->
  cypher_merge_node_set storable Recipe "uniqueName"
    (dict_get_default "uniqueName" JNull recipe) (recipe_props recipe) s
  = Returned s' ->
  let props : gmap string json := list_to_map (recipe_props recipe) in
  let excluded := ["uniqueName"; "ingredients"; "secretIngredients"] in
  (forall log, ingest_recipe storable coerce (s, log) (JObj d) = (s', log))
  /\ (forall k, k ∈ excluded -> props !! k = None)
  /\ (props !! "resultType" = dict_get "resultType" d
      /\ is_Some (props !! "resultType"))
  /\ (forall f v, f ∈ RecipeNode -> f_name f ∉ excluded ->
        validate_field coerce f d = Some v ->
        props !! f_name f = if is_null v then None else Some v)
  /\ (forall k v, declared RecipeNode k = false -> dict_get k d = Some v ->
        props !! k = if is_null v then None else Some v)
  /\ (exists i n, nodes s' !! i = Some n
        /\ node_matches Recipe "uniqueName"
             (dict_get_default "uniqueName" JNull recipe) n = true)
  /\ (forall i n, nodes s' !! i = Some n ->
        node_matches Recipe "uniqueName"
          (dict_get_default "uniqueName" JNull recipe) n = true ->
        (forall k v, props !! k = Some v -> n_props n !! k = Some v)
        /\ (forall k, k ∈ ["ingredients"; "secretIngredients"] ->
              n_props n !! k = nodes s !! i ≫= (fun old => n_props old !! k))).
Proof.
  intros Hv Hd Hrun props excluded.
  destruct (validate_get coerce RecipeNode d recipe "resultType" Hv
              RecipeNode_names Hd) as (_ & _ & Hnd).
  assert (Hprops : forall k, props !! k
            = if mem_string k excluded then None
              else match dict_get k recipe with
                   | Some v => if is_null v then None else Some v
                   | None => None
                   end).
  { intros k. unfold props. rewrite list_to_map_dict_get.
    by apply model_dump_get. }
  assert (Hexcl : forall k, k ∈ excluded -> props !! k = None).
  { intros k Hk. rewrite Hprops. by apply mem_string_elem in Hk as ->. }
  assert (Hfield : forall f v, f ∈ RecipeNode -> f_name f ∉ excluded ->
            validate_field coerce f d = Some v ->
            props !! f_name f = if is_null v then None else Some v).
  { intros f v Hf Hne Hval. rewrite Hprops.
    destruct (mem_string (f_name f) excluded) eqn:Hm;
      [by apply mem_string_elem in Hm|].
    destruct (validate_get coerce RecipeNode d recipe (f_name f) Hv
                RecipeNode_names Hd) as (Hdecl & _ & _).
    by rewrite (Hdecl f Hf eq_refl), Hval. }
  split; [|split; [done|split; [|split; [done|split; [|split]]]]].
  - intros log. unfold ingest_recipe. simpl. by rewrite Hv, Hrun.
  - assert (exists r, validate_field coerce (Field "resultType" TStr true) d
                      = Some (JStr r) /\ dict_get "resultType" d = Some (JStr r))
      as (r & Hr & Hraw).
    { unfold validate in Hv. simpl in Hv.
      destruct (validate_field coerce (Field "uniqueName" TStr true) d);
        [|done].
      destruct (validate_field coerce (Field "resultType" TStr true) d)
        as [v|] eqn:Hf; [|done].
      unfold validate_field in Hf. simpl in Hf.
      destruct (dict_get "resultType" d) as [[| | |r| |]|]; try done.
      injection Hf as <-. by exists r. }
    assert (Hrt : props !! "resultType" = Some (JStr r)).
    { apply (Hfield (Field "resultType" TStr true) (JStr r)); [| |done].
      - apply list_elem_of_In. simpl. tauto.
      - intros Hin. apply mem_string_elem in Hin. done. }
    rewrite Hrt, Hraw. by split.
  - intros k v Hdecl Hraw. rewrite Hprops.
    destruct (mem_string k excluded) eqn:Hm.
    { apply mem_string_elem in Hm.
      assert (declared RecipeNode k = true); [|congruence].
      repeat (apply elem_of_cons in Hm as [->|Hm]; [done|]).
      by apply elem_of_nil in Hm. }
    destruct (validate_get coerce RecipeNode d recipe k Hv
                RecipeNode_names Hd) as (_ & Hextra & _).
    by rewrite (Hextra Hdecl), Hraw.
  - pose proof (merge_node_set_exists storable _ _ _ _ _ _ Hrun) as Hex.
    rewrite existsb_exists in Hex.
    destruct Hex as (n & Hin & Hn).
    { rewrite <- list_to_map_dict_get. apply Hexcl. apply list_elem_of_here. }
    apply list_elem_of_In, list_elem_of_lookup in Hin as [i Hi]. by exists i, n.
  - intros i n Hi Hn.
    destruct (merge_node_set_lookup storable _ _ _ _ _ _ i n Hrun)
      as (old & -> & _ & Hold); [|done|done|].
    { rewrite <- list_to_map_dict_get. apply Hexcl. apply list_elem_of_here. }
    split.
    + intros k v Hk. simpl. rewrite set_plus_lookup. fold props. rewrite Hk.
      rewrite Hprops in Hk. destruct (mem_string k excluded); [done|].
      destruct (dict_get k recipe) as [w|]; [|done].
      destruct (is_null w) eqn:Hw; [done|]. injection Hk as <-.
      by destruct w.
    + intros k Hk. simpl. rewrite set_plus_lookup. fold props.
      rewrite Hexcl by (by apply list_elem_of_further).
      destruct Hold as [->|[-> ->]]; simpl; [done|].
      rewrite lookup_singleton_ne; [done|].
      intros <-. repeat (apply elem_of_cons in Hk as [?|Hk]; [done|]).
      by apply elem_of_nil in Hk.
Qed.

Lemma recipe_node_properties_witness :
  let recipe :=
    default [] (validate strict_coerce RecipeNode Scenario.R2_fields) in
  let props : gmap string json := list_to_map (recipe_props recipe) in
  props !! "resultType" = dict_get "resultType" Scenario.R2_fields
  /\ is_Some (props !! "resultType").
Proof.
  intros recipe props.
  assert (NoDup (map fst Scenario.R2_fields)) as Hd.
  { apply (bool_decide_unpack _). by vm_compute. }
  destruct (recipe_node_properties neo4j_storable strict_coerce
              Scenario.R2_fields recipe empty_store
              (Store [set_node_props (recipe_props recipe)
                        (Node Recipe {["uniqueName" := JStr "R2"]})] [])
              eq_refl Hd eq_refl) as (_ & _ & H & _).
  exact H.
Defined.

(** C2 as stated fails: the Recipe node stores the result type as the
    property [resultType], and a declared field, [secretIngredients], is
    not written although the record has it. *)
Lemma recipe_node_keeps_result_type :
  let st := upsert_recipes neo4j_storable strict_coerce
              [JObj Scenario.R2_fields] Scenario.fresh in
  exists n,
    nodes (fst st) = [n]
    /\ n_props n !! "resultType" = Some (JStr "W1")
    /\ n_props n !! "buildPrice" = Some (JNum 15000)
    /\ n_props n !! "tradable" = Some (JBool true)
    /\ n_props n !! "ingredients" = None
    /\ n_props n !! "secretIngredients" = None
    /\ is_Some (dict_get "secretIngredients" Scenario.R2_fields)
    /\ declared RecipeNode "secretIngredients" = true.
Proof.
  eexists. split; [reflexivity|]. repeat split; try reflexivity. by eexists.
Qed.

End UpsertFacts.

(** ** Relationship derivation *)

Module LinkFacts.
Import Json Graph JsonFacts StoreFacts.
Local Open Scope string_scope.
Local Open Scope nat_scope.

Lemma merge_edge_row_edges T q s row :
  let e := Edge (fst row) T q (snd row) in
  let s' := merge_edge_row T q s row in
  nodes s' = nodes s
  /\ e ∈ edges s'
  /\ (edges s' = edges s
      \/ ((e ∉ edges s) /\ edges s' = (edges s ++ [e])%list))
  /\ (NoDup (edges s) -> NoDup (edges s')).
Proof.
  intros e s'. subst s'. unfold merge_edge_row. fold e.
  destruct (has_edge e s) eqn:Hhas.
  - apply has_edge_elem in Hhas. auto.
  - assert (e ∉ edges s) as Hnot.
    { intros Hin. apply has_edge_elem in Hin. congruence. }
    simpl. split; [done|]. split; [set_solver|]. split; [by right|].
    intros Hnd. apply NoDup_app. split; [done|].
    split; [|apply NoDup_singleton].
    intros x Hx Hx'. apply list_elem_of_singleton in Hx' as ->. done.
Qed.

Section Links.

Variable storable : json -> bool.

Lemma merge_edge_one La ka va Lb kb vb T q s a b :
  match_ids La ka va s = [a] ->
  match_ids Lb kb vb s = [b] ->
  is_null q = false -> storable q = true ->
  cypher_match_merge_edge storable La ka va Lb kb vb T (Some q) s
  = Returned (merge_edge_row T (Some q) s (a, b), 1).
Proof.
  intros Ha Hb Hq Hs. unfold cypher_match_merge_edge.
  rewrite Ha, Hb. simpl. by rewrite Hq, Hs.
Qed.

Lemma merge_edge_none La ka va Lb kb vb T q s a :
  match_ids La ka va s = [a] ->
  match_ids Lb kb vb s = [] ->
  cypher_match_merge_edge storable La ka va Lb kb vb T q s = Returned (s, 0).
Proof.
  intros Ha Hb. unfold cypher_match_merge_edge. by rewrite Ha, Hb.
Qed.

End Links.

End LinkFacts.

(** ** Upsert passes absorb their own repetition *)

Module AbsorbFacts.
Import Json Graph JsonFacts StoreFacts ModelFacts UpsertFacts.
Local Open Scope string_scope.
Local Open Scope nat_scope.

Section Absorb.

Variable storable : json -> bool.
Variable L : label.

Abbreviation key_free op := (dict_get "uniqueName" (snd op) = None).

Lemma upsert_node_label op n : n_label (upsert_node L op n) = n_label n.
Proof. unfold upsert_node. by destruct (node_matches _ _ _ n). Qed.

Lemma upsert_node_other op n : n_label n <> L -> upsert_node L op n = n.
Proof.
  intros Hl. unfold upsert_node, node_matches.
  by rewrite bool_decide_eq_false_2.
Qed.

Lemma upsert_node_key op n :
  key_free op ->
  n_props (upsert_node L op n) !! "uniqueName" = n_props n !! "uniqueName".
Proof.
  intros Hk. unfold upsert_node. destruct (node_matches _ _ _ n); [|done].
  simpl. by rewrite set_plus_lookup, list_to_map_dict_get, Hk.
Qed.

(** Whether a node matches a key depends on its label and its
    [uniqueName] only. *)
Lemma node_matches_agree L' v n m :
  n_label n = n_label m ->
  n_props n !! "uniqueName" = n_props m !! "uniqueName" ->
  node_matches L' "uniqueName" v n = node_matches L' "uniqueName" v m.
Proof. intros Hl Hk. unfold node_matches. by rewrite Hl, Hk. Qed.

Lemma node_matches_upsert_node L' v op n :
  key_free op ->
  node_matches L' "uniqueName" v (upsert_node L op n)
  = node_matches L' "uniqueName" v n.
Proof.
  intros Hk. apply node_matches_agree;
    [apply upsert_node_label | by apply upsert_node_key].
Qed.

(** An accepted upsert on a store that has a node for its key only
    rewrites nodes. *)
Lemma apply_upsert_present op s :
  accepted storable op = true ->
  existsb (node_matches L "uniqueName" (fst op)) (nodes s) = true ->
  apply_upsert storable L s op
  = Store (map (upsert_node L op) (nodes s)) (edges s).
Proof.
  intros Hacc Hex. unfold apply_upsert, cypher_merge_node_set.
  unfold accepted in Hacc.
  apply andb_true_iff in Hacc as [[Hn Hs]%andb_true_iff Hp].
  apply negb_true_iff in Hn. rewrite Hn, Hs, Hp, Hex. done.
Qed.

Lemma apply_upsert_absent op s :
  accepted storable op = true ->
  existsb (node_matches L "uniqueName" (fst op)) (nodes s) = false ->
  apply_upsert storable L s op
  = Store (nodes s ++ [upsert_node L op (Node L {["uniqueName" := fst op]})])%list
      (edges s).
Proof.
  intros Hacc Hex. unfold apply_upsert, cypher_merge_node_set.
  unfold accepted in Hacc.
  apply andb_true_iff in Hacc as [[Hn Hs]%andb_true_iff Hp].
  apply negb_true_iff in Hn. rewrite Hn, Hs, Hp, Hex. simpl.
  unfold upsert_node. by rewrite node_matches_new.
Qed.

Lemma apply_upsert_rejected op s :
  accepted storable op = false -> apply_upsert storable L s op = s.
Proof.
  intros Hacc. unfold apply_upsert, cypher_merge_node_set.
  unfold accepted in Hacc.
  destruct (is_null (fst op)), (storable (fst op)),
    (props_storable storable (snd op)); simpl in *; done.
Qed.

Lemma apply_upsert_edges op s : edges (apply_upsert storable L s op) = edges s.
Proof.
  unfold apply_upsert.
  destruct (cypher_merge_node_set _ _ _ _ _ s) as [s'|e] eqn:H; [|done].
  by apply merge_node_set_nodes in H as [-> _].
Qed.

Lemma agree_upsert_node op o n m :
  key_free op -> agree op n m ->
  agree op (upsert_node L o n) (upsert_node L o m).
Proof.
  intros Hk [Hl Hp]. unfold upsert_node.
  rewrite (node_matches_agree L (fst o) n m Hl (Hp _ Hk)).
  destruct (node_matches L "uniqueName" (fst o) m); [|done].
  split; [done|]. intros k Hkk. simpl.
  rewrite !set_plus_lookup. destruct (list_to_map (snd o) !! k); [done|].
  by apply Hp.
Qed.

Lemma agree_upsert_nodes op ops n m :
  key_free op -> agree op n m ->
  agree op (upsert_nodes L ops n) (upsert_nodes L ops m).
Proof.
  intros Hk. revert n m.
  induction ops as [|o ops IH]; intros n m Ha; [done|].
  simpl. apply IH. by apply agree_upsert_node.
Qed.

Lemma upsert_node_agree op n m :
  key_free op -> agree op n m ->
  node_matches L "uniqueName" (fst op) m = true ->
  upsert_node L op n = upsert_node L op m.
Proof.
  intros Hk [Hl Hp] Hm. unfold upsert_node.
  rewrite (node_matches_agree L (fst op) n m Hl (Hp _ Hk)), Hm.
  unfold set_node_props. rewrite Hl. f_equal.
  apply map_eq. intros k. rewrite !set_plus_lookup.
  destruct (list_to_map (snd op) !! k) eqn:Hlk; [done|].
  apply Hp. by rewrite <- list_to_map_dict_get.
Qed.

Lemma upsert_nodes_label ops n : n_label (upsert_nodes L ops n) = n_label n.
Proof.
  revert n. induction ops as [|o ops IH]; intros n; [done|].
  simpl. by rewrite IH, upsert_node_label.
Qed.

Lemma upsert_nodes_other ops n : n_label n <> L -> upsert_nodes L ops n = n.
Proof.
  intros Hl. induction ops as [|o ops IH]; [done|].
  simpl. by rewrite upsert_node_other.
Qed.

Lemma node_matches_upsert_nodes L' v ops n :
  Forall (fun op => key_free op) ops ->
  node_matches L' "uniqueName" v (upsert_nodes L ops n)
  = node_matches L' "uniqueName" v n.
Proof.
  intros Hall. revert n.
  induction Hall as [|o ops Ho Hops IH]; intros n; [done|].
  simpl. by rewrite IH, node_matches_upsert_node.
Qed.

Lemma upsert_nodes_app ops1 ops2 n :
  upsert_nodes L (ops1 ++ ops2) n = upsert_nodes L ops2 (upsert_nodes L ops1 n).
Proof. apply foldl_app. Qed.

(** The last upsert of a key makes an earlier identical one redundant. *)
Lemma upsert_node_absorb op ops n :
  key_free op ->
  Forall (fun o => key_free o) ops ->
  upsert_node L op (upsert_nodes L ops (upsert_node L op n))
  = upsert_node L op (upsert_nodes L ops n).
Proof.
  intros Hk Hops.
  destruct (node_matches L "uniqueName" (fst op) n) eqn:Hm.
  - apply upsert_node_agree; [done| |by rewrite node_matches_upsert_nodes].
    apply agree_upsert_nodes; [done|].
    unfold upsert_node. rewrite Hm. split; [done|].
    intros k Hkk. simpl.
    by rewrite set_plus_lookup, list_to_map_dict_get, Hkk.
  - assert (upsert_node L op n = n) as ->; [|done].
    unfold upsert_node. by rewrite Hm.
Qed.

Lemma existsb_map_upsert_node v op ns :
  key_free op ->
  existsb (node_matches L "uniqueName" v) (map (upsert_node L op) ns)
  = existsb (node_matches L "uniqueName" v) ns.
Proof.
  intros Hk. induction ns as [|n ns IH]; simpl; [done|].
  by rewrite IH, node_matches_upsert_node.
Qed.

Lemma foldl_apply_present ops s :
  Forall (good storable) ops ->
  (forall op, op ∈ ops ->
     existsb (node_matches L "uniqueName" (fst op)) (nodes s) = true) ->
  foldl (apply_upsert storable L) s ops
  = Store (map (upsert_nodes L ops) (nodes s)) (edges s).
Proof.
  intros Hgood. revert s.
  induction Hgood as [|op ops [Hacc Hk] Hops IH]; intros s Hkeys; simpl.
  - destruct s as [ns es]. simpl. by rewrite map_id.
  - rewrite apply_upsert_present; [|done|apply Hkeys, list_elem_of_here].
    rewrite IH; simpl.
    + by rewrite map_map.
    + intros o Ho. rewrite existsb_map_upsert_node by done.
      apply Hkeys. by apply list_elem_of_further.
Qed.

(** A store that has taken the upserts in is left as it is by the pass. *)
Lemma saturated_fixed ops s :
  Forall (good storable) ops -> saturated L ops s ->
  foldl (apply_upsert storable L) s ops = s.
Proof.
  intros Hgood [Hkeys Hfix]. rewrite foldl_apply_present by done.
  destruct s as [ns es]. simpl in *. f_equal.
  rewrite <- (map_id ns) at 2. apply map_ext_in.
  intros n Hn. apply Hfix. by apply list_elem_of_In.
Qed.

Lemma apply_upsert_nodes op s n' :
  good storable op ->
  n' ∈ nodes (apply_upsert storable L s op) ->
  (exists n, n ∈ nodes s /\ n' = upsert_node L op n)
  \/ (existsb (node_matches L "uniqueName" (fst op)) (nodes s) = false
      /\ n' = upsert_node L op (Node L {["uniqueName" := fst op]})).
Proof.
  intros [Hacc Hk] Hin.
  destruct (existsb (node_matches L "uniqueName" (fst op)) (nodes s)) eqn:Hex.
  - rewrite apply_upsert_present in Hin by done. simpl in Hin.
    apply list_elem_of_fmap in Hin as (n & -> & Hn). left. by exists n.
  - rewrite apply_upsert_absent in Hin by done. simpl in Hin.
    apply elem_of_app in Hin as [Hin|Hin].
    + left. exists n'. split; [done|].
      unfold upsert_node.
      assert (node_matches L "uniqueName" (fst op) n' = false) as ->; [|done].
      apply not_true_iff_false. intros Hm.
      apply not_true_iff_false in Hex. apply Hex, existsb_exists.
      exists n'. split; [by apply list_elem_of_In|done].
    + apply list_elem_of_singleton in Hin. by right.
Qed.

Lemma apply_upsert_keeps_key v op s :
  good storable op ->
  existsb (node_matches L "uniqueName" v) (nodes s) = true ->
  existsb (node_matches L "uniqueName" v)
    (nodes (apply_upsert storable L s op)) = true.
Proof.
  intros [Hacc Hk] Hv.
  destruct (existsb (node_matches L "uniqueName" (fst op)) (nodes s)) eqn:Hex.
  - rewrite apply_upsert_present by done. simpl.
    by rewrite existsb_map_upsert_node.
  - rewrite apply_upsert_absent by done. simpl.
    rewrite existsb_app, Hv. done.
Qed.

Lemma apply_upsert_has_key op s :
  good storable op ->
  existsb (node_matches L "uniqueName" (fst op))
    (nodes (apply_upsert storable L s op)) = true.
Proof.
  intros [Hacc Hk].
  destruct (existsb (node_matches L "uniqueName" (fst op)) (nodes s)) eqn:Hex.
  - rewrite apply_upsert_present by done. simpl.
    by rewrite existsb_map_upsert_node.
  - rewrite apply_upsert_absent by done. simpl.
    rewrite existsb_app. apply orb_true_iff. right. simpl.
    rewrite node_matches_upsert_node by done.
    rewrite node_matches_new; [done|].
    unfold accepted in Hacc.
    by destruct (is_null (fst op)).
Qed.

Lemma upsert_nodes_unmatched ops b :
  (forall o, o ∈ ops -> node_matches L "uniqueName" (fst o) b = false) ->
  upsert_nodes L ops b = b.
Proof.
  induction ops as [|o ops IH]; intros Hno; [done|].
  simpl. assert (upsert_node L o b = b) as ->.
  { unfold upsert_node. by rewrite Hno by apply list_elem_of_here. }
  apply IH. intros o' Ho'. apply Hno. by apply list_elem_of_further.
Qed.

Lemma node_matches_fresh v w :
  node_matches L "uniqueName" w (Node L {["uniqueName" := v]}) = true -> w = v.
Proof.
  unfold node_matches. simpl. rewrite lookup_singleton_eq.
  intros [[_ Heq]%andb_true_iff _]%andb_true_iff.
  by apply json_eqb_eq in Heq.
Qed.

(** After the pass, the store has taken its upserts in. *)
Lemma foldl_apply_saturated ops s :
  Forall (good storable) ops ->
  saturated L ops (foldl (apply_upsert storable L) s ops).
Proof.
  induction ops as [|op ops IH] using rev_ind; intros Hgood.
  - split; [intros op Hop; by apply elem_of_nil in Hop|done].
  - apply Forall_app in Hgood as [Hops Hop].
    apply Forall_inv in Hop.
    destruct (IH Hops) as [Hkeys Hfix].
    rewrite foldl_app. simpl.
    set (s0 := foldl (apply_upsert storable L) s ops) in *.
    assert (Forall (fun o => key_free o) ops) as Hfree.
    { eapply Forall_impl; [exact Hops|]. by intros o [_ ?]. }
    split.
    + intros o Ho. apply elem_of_app in Ho as [Ho|Ho].
      * apply apply_upsert_keeps_key; [exact Hop|by apply Hkeys].
      * apply list_elem_of_singleton in Ho as ->.
        by apply apply_upsert_has_key.
    + intros n' Hn'. rewrite upsert_nodes_app. simpl.
      destruct (apply_upsert_nodes op s0 n' Hop Hn') as [(n & Hn & ->)|[Hex ->]].
      * rewrite upsert_node_absorb by (done || apply Hop).
        by rewrite Hfix.
      * rewrite upsert_node_absorb by (done || apply Hop).
        rewrite upsert_nodes_unmatched; [done|].
        intros o Ho. apply not_true_iff_false. intros Hm.
        apply node_matches_fresh in Hm.
        specialize (Hkeys o Ho). rewrite Hm in Hkeys. congruence.
Qed.

End Absorb.

End AbsorbFacts.

(** ** The passes as lists of upserts *)

Module PassFacts.
Import Json Graph JsonFacts StoreFacts ModelFacts UpsertFacts AbsorbFacts.
Local Open Scope string_scope.
Local Open Scope nat_scope.

Lemma dict_get_filter_out (P : string * json -> bool) k (l : dict) :
  (forall v, P (k, v) = false) -> dict_get k (List.filter P l) = None.
Proof.
  intros HP. induction l as [|[k' v] l IH]; simpl; [done|].
  destruct (P (k', v)) eqn:Hp; [|done]. simpl.
  destruct (String.eqb_spec k' k) as [->|Hne]; [|done].
  by rewrite HP in Hp.
Qed.

Lemma model_dump_key_free excl m :
  mem_string "uniqueName" excl = true ->
  dict_get "uniqueName" (model_dump excl m) = None.
Proof.
  intros Hm. apply dict_get_filter_out. intros v. simpl. by rewrite Hm.
Qed.

Section Ops.

Variable storable : json -> bool.
Variable coerce : ftype -> json -> option json.
Variable py_str : json -> string.

Lemma resource_op_key_free raw op :
  resource_op coerce raw = Some op -> dict_get "uniqueName" (snd op) = None.
Proof.
  unfold resource_op. destruct raw as [| | | | |d]; try done.
  destruct (validate _ _ d); [|done]. intros [= <-]. simpl.
  by apply model_dump_key_free.
Qed.

Lemma recipe_op_key_free raw op :
  recipe_op coerce raw = Some op -> dict_get "uniqueName" (snd op) = None.
Proof.
  unfold recipe_op. destruct raw as [| | | | |d]; try done.
  destruct (validate _ _ d); [|done]. intros [= <-]. simpl.
  by apply model_dump_key_free.
Qed.

Lemma weapon_op_key_free raw op :
  weapon_op coerce py_str raw = Some op ->
  dict_get "uniqueName" (snd op) = None.
Proof.
  unfold weapon_op. destruct raw as [| | | | |d]; try done.
  destruct (validate _ _ d); [|done]. intros [= <-]. simpl.
  unfold weapon_props. apply dict_get_filter_out. by intros v.
Qed.

Lemma ingest_resource_store st raw :
  fst (ingest_resource storable coerce st raw)
  = match resource_op coerce raw with
    | Some op => apply_upsert storable Resource (fst st) op
    | None => fst st
    end.
Proof.
  unfold ingest_resource, resource_op, apply_upsert.
  destruct raw as [| | | | |d]; try done.
  destruct (validate _ _ d) as [m|]; [|done]. simpl.
  by destruct (cypher_merge_node_set _ _ _ _ _ _).
Qed.

Lemma ingest_recipe_store st raw :
  fst (ingest_recipe storable coerce st raw)
  = match recipe_op coerce raw with
    | Some op => apply_upsert storable Recipe (fst st) op
    | None => fst st
    end.
Proof.
  unfold ingest_recipe, recipe_op, apply_upsert.
  destruct raw as [| | | | |d]; try done.
  destruct (validate _ _ d) as [m|]; [|done]. simpl.
  by destruct (cypher_merge_node_set _ _ _ _ _ _).
Qed.

Lemma ingest_weapon_store acc raw :
  fst (fst (ingest_weapon storable coerce py_str acc raw))
  = match weapon_op coerce py_str raw with
    | Some op => apply_upsert storable Weapon (fst (fst acc)) op
    | None => fst (fst acc)
    end.
Proof.
  unfold ingest_weapon, weapon_op, apply_upsert. destruct acc as [st cats].
  destruct raw as [| | | | |d]; try done.
  destruct (validate _ _ d) as [m|]; [|done]. simpl.
  by destruct (cypher_merge_node_set _ _ _ _ _ _).
Qed.

Lemma run_upserts_cons L o ops s :
  run_upserts storable L (o :: ops) s
  = run_upserts storable L ops
      (match o with Some op => apply_upsert storable L s op | None => s end).
Proof. unfold run_upserts. by destruct o. Qed.

Lemma ingest_resources_run rs st :
  fst (ingest_resources storable coerce rs st)
  = run_upserts storable Resource (map (resource_op coerce) rs) (fst st).
Proof.
  unfold ingest_resources. revert st.
  induction rs as [|r rs IH]; intros st; [done|].
  simpl. rewrite IH, run_upserts_cons. by rewrite ingest_resource_store.
Qed.

Lemma upsert_recipes_run rs st :
  fst (upsert_recipes storable coerce rs st)
  = run_upserts storable Recipe (map (recipe_op coerce) rs) (fst st).
Proof.
  unfold upsert_recipes. revert st.
  induction rs as [|r rs IH]; intros st; [done|].
  simpl. rewrite IH, run_upserts_cons. by rewrite ingest_recipe_store.
Qed.

Lemma weapon_loop_run ws acc :
  fst (fst (foldl (ingest_weapon storable coerce py_str) acc ws))
  = run_upserts storable Weapon (map (weapon_op coerce py_str) ws)
      (fst (fst acc)).
Proof.
  revert acc. induction ws as [|w ws IH]; intros acc; [done|].
  simpl. rewrite IH, run_upserts_cons. by rewrite ingest_weapon_store.
Qed.

End Ops.

Section Frozen.

Variable storable : json -> bool.

Lemma foldl_apply_filter L ops s :
  foldl (apply_upsert storable L) s ops
  = foldl (apply_upsert storable L) s (List.filter (accepted storable) ops).
Proof.
  revert s. induction ops as [|op ops IH]; intros s; simpl; [done|].
  destruct (accepted storable op) eqn:Hacc; simpl; [done|].
  by rewrite apply_upsert_rejected.
Qed.

Lemma pass_ops_good ops :
  (forall op, Some op ∈ ops -> dict_get "uniqueName" (snd op) = None) ->
  Forall (good storable) (pass_ops storable ops).
Proof.
  intros Hfree. apply Forall_forall. intros op Hop.
  apply list_elem_of_In, filter_In in Hop as [Hin Hacc].
  split; [done|]. apply Hfree.
  apply list_elem_of_In, list_elem_of_omap in Hin as (o & Ho & Hid).
  simpl in Hid. by subst o.
Qed.

(** Repeating a pass of upserts changes nothing. *)
Lemma run_upserts_saturated L ops s :
  (forall op, Some op ∈ ops -> dict_get "uniqueName" (snd op) = None) ->
  saturated L (pass_ops storable ops) (run_upserts storable L ops s).
Proof.
  intros Hfree. unfold run_upserts. rewrite foldl_apply_filter.
  apply foldl_apply_saturated. by apply pass_ops_good.
Qed.

Lemma run_upserts_fixed L ops s :
  (forall op, Some op ∈ ops -> dict_get "uniqueName" (snd op) = None) ->
  saturated L (pass_ops storable ops) s ->
  run_upserts storable L ops s = s.
Proof.
  intros Hfree Hsat. unfold run_upserts. rewrite foldl_apply_filter.
  apply saturated_fixed; [by apply pass_ops_good|done].
Qed.

Lemma frozen_refl L s : frozen L s s.
Proof. by intros i n _. Qed.

Lemma frozen_trans L s1 s2 s3 :
  frozen L s1 s2 -> frozen L s2 s3 -> frozen L s1 s3.
Proof.
  intros H12 H23 i n Hl. by rewrite (H12 i n Hl), (H23 i n Hl).
Qed.

Lemma frozen_same_nodes L s s' : nodes s' = nodes s -> frozen L s s'.
Proof. intros Heq i n _. by rewrite Heq. Qed.

Lemma frozen_append L s s' n' :
  nodes s' = (nodes s ++ [n'])%list -> n_label n' <> L -> frozen L s s'.
Proof.
  intros Heq Hl i n Hn. rewrite Heq. split.
  - intros Hi. by apply lookup_app_l_Some.
  - intros Hi. apply lookup_app_Some in Hi as [Hi|[_ Hi]]; [done|].
    apply list_lookup_singleton_Some in Hi as [_ <-]. done.
Qed.

Lemma apply_upsert_frozen L L' op s :
  L <> L' -> frozen L s (apply_upsert storable L' s op).
Proof.
  intros Hne.
  destruct (accepted storable op) eqn:Hacc;
    [|rewrite apply_upsert_rejected by done; apply frozen_refl].
  destruct (existsb (node_matches L' "uniqueName" (fst op)) (nodes s)) eqn:Hex.
  - rewrite apply_upsert_present by done.
    intros i n Hn. simpl. rewrite list_lookup_fmap. split.
    + intros ->. simpl. rewrite upsert_node_other; [done|congruence].
    + destruct (nodes s !! i) as [m|]; [|done]. simpl. intros [= <-].
      rewrite upsert_node_other; [done|].
      rewrite upsert_node_label in Hn. congruence.
  - rewrite apply_upsert_absent by done.
    eapply frozen_append; [done|]. rewrite upsert_node_label. simpl. congruence.
Qed.

Lemma run_upserts_frozen L L' ops s :
  L <> L' -> frozen L s (run_upserts storable L' ops s).
Proof.
  intros Hne. unfold run_upserts. revert s.
  induction (omap id ops) as [|op l IH]; intros s; simpl;
    [apply frozen_refl|].
  eapply frozen_trans; [by apply apply_upsert_frozen|apply IH].
Qed.

Lemma merge_node_frozen L L' key v s s' :
  L <> L' ->
  cypher_merge_node storable L' key v s = Returned s' -> frozen L s s'.
Proof.
  intros Hne H. apply merge_node_lookup in H as [_ [Heq|Heq]].
  - by apply frozen_same_nodes.
  - eapply frozen_append; [done|]. simpl. congruence.
Qed.

Lemma saturated_frozen L ops s s' :
  frozen L s s' -> saturated L ops s -> saturated L ops s'.
Proof.
  intros Hfr [Hkeys Hfix]. split.
  - intros op Hop. specialize (Hkeys op Hop).
    apply existsb_exists in Hkeys as (n & Hin & Hm).
    apply existsb_exists. exists n. split; [|done].
    apply list_elem_of_In, list_elem_of_lookup in Hin as [i Hi].
    apply list_elem_of_In, list_elem_of_lookup. exists i.
    apply Hfr; [|done]. unfold node_matches in Hm.
    apply andb_true_iff in Hm as [[Hl _]%andb_true_iff _].
    by apply bool_decide_eq_true in Hl.
  - intros n Hn. destruct (decide (n_label n = L)) as [Hl|Hl].
    + apply Hfix. apply list_elem_of_lookup in Hn as [i Hi].
      apply list_elem_of_lookup. exists i. by apply Hfr.
    + by apply upsert_nodes_other.
Qed.

Lemma node_matches_label L key v n :
  node_matches L key v n = true -> n_label n = L.
Proof.
  unfold node_matches. intros [[Hl _]%andb_true_iff _]%andb_true_iff.
  by apply bool_decide_eq_true in Hl.
Qed.

Lemma match_ids_frozen L key v s s' j :
  frozen L s s' ->
  j ∈ match_ids L key v s <-> j ∈ match_ids L key v s'.
Proof.
  intros Hfr. rewrite !match_ids_elem.
  split; intros (n & Hn & Hm); exists n; (split; [|done]);
    apply (Hfr j n (node_matches_label _ _ _ _ Hm)); done.
Qed.

End Frozen.

End PassFacts.

(** ** Relationship merges absorb their own repetition *)

Module MergeFacts.
Import Json Graph JsonFacts StoreFacts.
Local Open Scope string_scope.
Local Open Scope nat_scope.

Lemma foldl_merge_edge_row_fixed T q rows Y :
  (forall row, row ∈ rows -> Edge (fst row) T q (snd row) ∈ edges Y) ->
  foldl (merge_edge_row T q) Y rows = Y.
Proof.
  induction rows as [|row rows IH]; intros Hall; simpl; [done|].
  assert (merge_edge_row T q Y row = Y) as ->.
  { unfold merge_edge_row.
    by rewrite (proj2 (has_edge_elem _ Y) (Hall row (list_elem_of_here _ _))). }
  apply IH. intros r Hr. apply Hall. by apply list_elem_of_further.
Qed.

Lemma match_ids_same_nodes L key v s Y :
  nodes Y = nodes s -> match_ids L key v Y = match_ids L key v s.
Proof. intros Heq. unfold match_ids. by rewrite Heq. Qed.

Section Merges.

Variable storable : json -> bool.

Lemma merge_edge_mono La ka va Lb kb vb T q s s1 cnt :
  cypher_match_merge_edge storable La ka va Lb kb vb T q s
    = Returned (s1, cnt) ->
  nodes s1 = nodes s /\ edges s ⊆ edges s1.
Proof.
  intros H. split; [by eapply merge_edge_nodes|].
  intros e He. apply (merge_edge_elem _ _ _ _ _ _ _ _ _ _ _ _ e H). by left.
Qed.

(** Rows whose relationships are all in the store: the statement changes
    nothing. *)
Lemma merge_edge_fixed La ka va Lb kb vb T q Y :
  (forall a b, a ∈ match_ids La ka va Y -> b ∈ match_ids Lb kb vb Y ->
     Edge a T q b ∈ edges Y) ->
  (list_prod (match_ids La ka va Y) (match_ids Lb kb vb Y) <> [] ->
   match q with
   | Some v => is_null v || negb (storable v)
   | None => false
   end = false) ->
  exists cnt,
    cypher_match_merge_edge storable La ka va Lb kb vb T q Y
    = Returned (Y, cnt)
    /\ cnt = length (list_prod (match_ids La ka va Y) (match_ids Lb kb vb Y)).
Proof.
  intros Hall Hacc. unfold cypher_match_merge_edge.
  destruct (list_prod _ _) as [|row rows] eqn:Hrows; [by exists 0|].
  rewrite Hacc by done. exists (length (row :: rows)). split; [|done].
  do 2 f_equal.
  apply (foldl_merge_edge_row_fixed T q (row :: rows) Y).
  intros [a b] Hin. rewrite <- Hrows in Hin.
  apply elem_of_list_prod in Hin as [Ha Hb]. by apply Hall.
Qed.

Lemma merge_edge_absorb La ka va Lb kb vb T q s s1 cnt Y :
  cypher_match_merge_edge storable La ka va Lb kb vb T q s
    = Returned (s1, cnt) ->
  nodes Y = nodes s -> edges s1 ⊆ edges Y ->
  cypher_match_merge_edge storable La ka va Lb kb vb T q Y
  = Returned (Y, cnt).
Proof.
  intros Hrun Hnodes Hsub.
  destruct (merge_edge_fixed La ka va Lb kb vb T q Y) as (cnt' & Hy & Hcnt).
  - intros a b Ha Hb. apply Hsub.
    apply (merge_edge_elem _ _ _ _ _ _ _ _ _ _ _ _ _ Hrun). right.
    exists a, b. by rewrite <- !(match_ids_same_nodes _ _ _ s Y).
  - rewrite !(match_ids_same_nodes _ _ _ s Y) by done.
    intros Hne. unfold cypher_match_merge_edge in Hrun.
    destruct (list_prod _ _); [done|].
    by destruct (match q with Some _ => _ | None => _ end).
  - rewrite Hy. do 2 f_equal. subst cnt'.
    rewrite !(match_ids_same_nodes _ _ _ s Y) by done.
    unfold cypher_match_merge_edge in Hrun.
    destruct (list_prod _ _) as [|row rows]; [by injection Hrun as _ <-|].
    destruct (match q with Some _ => _ | None => _ end); [done|].
    by injection Hrun as _ <-.
Qed.

Lemma for_each_absorbing {A} (body : A -> store -> store * option exn) items :
  (forall x, absorbing (body x)) -> absorbing (for_each body items).
Proof.
  intros Hbody.
  induction items as [|x items IH]; intros s s' Hrun; simpl in Hrun.
  - injection Hrun as <-. split; [done|]. split; [done|]. by intros Y _ _.
  - destruct (body x s) as [s1 [e|]] eqn:Hx; [done|].
    destruct (Hbody x s s1 Hx) as (Hn1 & He1 & Habs1).
    destruct (IH s1 s' Hrun) as (Hn2 & He2 & Habs2).
    split; [congruence|]. split; [set_solver|].
    intros Y Hy Hsub. simpl.
    rewrite (Habs1 Y Hy) by set_solver.
    apply Habs2; [congruence|done].
Qed.

Lemma create_builds_absorbing d : absorbing (create_builds storable d).
Proof.
  intros s s' Hrun. unfold create_builds in *.
  destruct (py_truthy _).
  2: { injection Hrun as <-. split; [done|]. split; [done|]. by intros Y _ _. }
  destruct (cypher_match_merge_edge _ _ _ _ _ _ _ _ _ s)
    as [[s1 cnt]|e] eqn:H1; [|done].
  destruct (merge_edge_mono _ _ _ _ _ _ _ _ _ _ _ H1) as [Hn1 He1].
  destruct (Nat.eqb cnt 0) eqn:Hcnt.
  - destruct (cypher_match_merge_edge _ _ _ _ _ _ _ _ _ s1)
      as [[s2 cnt2]|e] eqn:H2; [|done].
    injection Hrun as <-.
    destruct (merge_edge_mono _ _ _ _ _ _ _ _ _ _ _ H2) as [Hn2 He2].
    split; [congruence|]. split; [set_solver|].
    intros Y Hy Hsub.
    rewrite (merge_edge_absorb _ _ _ _ _ _ _ _ _ _ _ Y H1) by set_solver.
    rewrite Hcnt.
    rewrite (merge_edge_absorb _ _ _ _ _ _ _ _ _ _ _ Y H2);
      [done|congruence|done].
  - injection Hrun as <-. split; [done|]. split; [done|].
    intros Y Hy Hsub.
    rewrite (merge_edge_absorb _ _ _ _ _ _ _ _ _ _ _ Y H1) by done.
    by rewrite Hcnt.
Qed.

Lemma create_requires_absorbing ru ingredient :
  absorbing (create_requires storable ru ingredient).
Proof.
  intros s s' Hrun. unfold create_requires in *.
  destruct (py_get "ItemType" JNull ingredient) as [item_type|e]; [|done].
  destruct (py_get "ItemCount" (JNum 1) ingredient) as [item_count|e];
    [|done].
  destruct (py_truthy item_type).
  2: { injection Hrun as <-. split; [done|]. split; [done|]. by intros Y _ _. }
  destruct (cypher_match_merge_edge _ _ _ _ _ _ _ _ _ s)
    as [[s1 cnt]|e] eqn:H1; [|done].
  injection Hrun as <-.
  destruct (merge_edge_mono _ _ _ _ _ _ _ _ _ _ _ H1) as [Hn1 He1].
  split; [done|]. split; [done|].
  intros Y Hy Hsub.
  by rewrite (merge_edge_absorb _ _ _ _ _ _ _ _ _ _ _ Y H1).
Qed.

Lemma recipe_relationships_absorbing raw :
  absorbing (recipe_relationships storable raw).
Proof.
  intros s s' Hrun. unfold recipe_relationships in *.
  destruct raw as [| | | | |d]; try done.
  destruct (create_builds storable d s) as [s1 [e|]] eqn:H1; [done|].
  destruct (create_builds_absorbing d s s1 H1) as (Hn1 & He1 & Habs1).
  destruct (py_iter _) as [items|e]; [|done].
  destruct (for_each_absorbing
              (create_requires storable (dict_get_default "uniqueName" JNull d))
              items (create_requires_absorbing _) s1 s' Hrun)
    as (Hn2 & He2 & Habs2).
  split; [congruence|]. split; [set_solver|].
  intros Y Hy Hsub.
  rewrite (Habs1 Y Hy) by set_solver.
  apply Habs2; [congruence|done].
Qed.

(** Repeating the relationship pass on the store it produced changes
    nothing. *)
Lemma create_recipe_relationships_absorbing recipes :
  absorbing (_create_recipe_relationships storable recipes).
Proof.
  apply for_each_absorbing. apply recipe_relationships_absorbing.
Qed.

End Merges.

End MergeFacts.

(** ** Category links absorb their own repetition *)

Module CategoryFacts.
Import Json Graph JsonFacts StoreFacts UpsertFacts PassFacts MergeFacts.
Local Open Scope string_scope.
Local Open Scope nat_scope.

Lemma node_matches_singleton L L' key v w :
  node_matches L key w (Node L' {[key := v]}) = true -> w = v.
Proof.
  unfold node_matches. simpl. rewrite lookup_singleton_eq.
  intros [[_ Heq]%andb_true_iff _]%andb_true_iff.
  by apply json_eqb_eq in Heq.
Qed.

Section Categories.

Variable storable : json -> bool.

Lemma link_category_shape c s s' r :
  link_category storable c s = (s', r) ->
  (nodes s' = nodes s \/ nodes s' = (nodes s ++ [category_node c])%list)
  /\ edges s ⊆ edges s'.
Proof.
  unfold link_category.
  destruct (cypher_merge_node _ _ _ _ s) as [s1|e] eqn:H1.
  2: { intros [= <- _]. auto. }
  apply merge_node_lookup in H1 as [He1 Hn1].
  destruct (cypher_match_merge_edge _ _ _ _ _ _ _ _ _ s1)
    as [[s2 cnt]|e] eqn:H2.
  - intros [= <- _]. apply merge_edge_mono in H2 as [Hn2 He2].
    rewrite Hn2. split; [done|]. by rewrite <- He1.
  - intros [= <- _]. split; [done|]. by rewrite He1.
Qed.

Lemma link_loop_shape cats s s' r :
  for_each (link_category storable) cats s = (s', r) ->
  exists extra,
    nodes s' = (nodes s ++ extra)%list
    /\ Forall (fun n => exists c, c ∈ cats /\ n = category_node c) extra
    /\ edges s ⊆ edges s'.
Proof.
  revert s. induction cats as [|c cats IH]; intros s Hrun; simpl in Hrun.
  - injection Hrun as <- _. exists []. by rewrite app_nil_r.
  - destruct (link_category storable c s) as [s1 [e|]] eqn:Hc.
    + injection Hrun as <- _.
      apply link_category_shape in Hc as [[Hn|Hn] He].
      * exists []. by rewrite app_nil_r.
      * exists [category_node c]. split; [done|]. split; [|done].
        apply Forall_singleton. exists c. split; [apply list_elem_of_here|done].
    + apply IH in Hrun as (extra & Hn & Hall & He).
      apply link_category_shape in Hc as [[Hn1|Hn1] He1].
      * exists extra. rewrite Hn, Hn1. split; [done|]. split; [|set_solver].
        eapply Forall_impl; [exact Hall|].
        intros n (c' & Hc' & ->). exists c'.
        split; [by apply list_elem_of_further|done].
      * exists (category_node c :: extra). rewrite Hn, Hn1, <- app_assoc.
        split; [done|]. split; [|set_solver].
        apply Forall_cons. split.
        -- exists c. split; [apply list_elem_of_here|done].
        -- eapply Forall_impl; [exact Hall|].
           intros n (c' & Hc' & ->). exists c'.
           split; [by apply list_elem_of_further|done].
Qed.

(** A category whose node and links are in the store: linking it again
    changes nothing. *)
Lemma link_category_fixed c s s1 Y :
  link_category storable c s = (s1, None) ->
  (forall i n, nodes s1 !! i = Some n ->
     node_matches Category "name" (JStr c) n = true -> nodes Y !! i = Some n) ->
  (forall a, a ∈ match_ids Weapon "productCategory" (JStr c) Y ->
     a ∈ match_ids Weapon "productCategory" (JStr c) s1) ->
  (forall b, b ∈ match_ids Category "name" (JStr c) Y ->
     b ∈ match_ids Category "name" (JStr c) s1) ->
  edges s1 ⊆ edges Y ->
  link_category storable c Y = (Y, None).
Proof.
  unfold link_category. intros Hrun Hkeep Hw Hc He.
  destruct (cypher_merge_node _ _ _ _ s) as [sA|e] eqn:H1; [|done].
  destruct (cypher_match_merge_edge _ _ _ _ _ _ _ _ _ sA)
    as [[s2 cnt]|e] eqn:H2; [|done].
  injection Hrun as ->.
  pose proof (merge_edge_nodes _ _ _ _ _ _ _ _ _ _ _ _ H2) as Hn2.
  assert (existsb (node_matches Category "name" (JStr c)) (nodes Y) = true)
    as HexY.
  { assert (existsb (node_matches Category "name" (JStr c)) (nodes sA) = true)
      as HexA.
    { unfold cypher_merge_node in H1.
      destruct (is_null (JStr c) || negb (storable (JStr c))); [done|].
      destruct (existsb _ (nodes s)) eqn:Hex; injection H1 as <-; [done|].
      simpl. rewrite existsb_app. apply orb_true_iff. right. simpl.
      by rewrite node_matches_new. }
    apply existsb_exists in HexA as (n & Hin & Hm).
    apply list_elem_of_In, list_elem_of_lookup in Hin as [i Hi].
    apply existsb_exists. exists n. split; [|done].
    apply list_elem_of_In, list_elem_of_lookup. exists i.
    apply Hkeep; [by rewrite Hn2|done]. }
  assert (cypher_merge_node storable Category "name" (JStr c) Y = Returned Y)
    as ->.
  { unfold cypher_merge_node in *.
    destruct (is_null (JStr c) || negb (storable (JStr c))); [done|].
    by rewrite HexY. }
  destruct (merge_edge_fixed storable Weapon "productCategory" (JStr c)
              Category "name" (JStr c) BELONGS_TO None Y) as (cnt' & -> & _);
    [|done|done].
  intros a b Ha Hb. apply He.
  apply (merge_edge_elem _ _ _ _ _ _ _ _ _ _ _ _ _ H2). right.
  exists a, b.
  rewrite <- !(match_ids_same_nodes _ _ _ sA s1) by done. auto.
Qed.

Lemma link_loop_fixed cats s s' Y :
  NoDup cats ->
  for_each (link_category storable) cats s = (s', None) ->
  frozen Weapon s' Y -> frozen Category s' Y -> edges s' ⊆ edges Y ->
  for_each (link_category storable) cats Y = (Y, None).
Proof.
  intros Hnd. revert s.
  induction Hnd as [|c cats Hc Hnd IH]; intros s Hrun HfW HfC He; [done|].
  simpl in Hrun.
  destruct (link_category storable c s) as [s1 [e|]] eqn:Hlink; [done|].
  destruct (link_loop_shape cats s1 s' None Hrun) as (extra & Hn & Hextra & He1).
  assert (Hback : forall i n, nodes s' !! i = Some n ->
            n_label n = Weapon
            \/ node_matches Category "name" (JStr c) n = true ->
            nodes s1 !! i = Some n).
  { intros i n Hi Hcase. rewrite Hn in Hi.
    apply lookup_app_Some in Hi as [Hi|[_ Hi]]; [done|].
    apply list_elem_of_lookup_2 in Hi.
    rewrite Forall_forall in Hextra.
    destruct (Hextra n Hi) as (c' & Hc' & ->).
    destruct Hcase as [Hl|Hm]; [done|].
    apply node_matches_singleton in Hm. injection Hm as ->. done. }
  simpl.
  rewrite (link_category_fixed c s s1 Y Hlink).
  - by apply (IH s1).
  - intros i n Hi Hm. apply HfC; [by eapply node_matches_label|].
    rewrite Hn. by apply lookup_app_l_Some.
  - intros a Ha. apply match_ids_elem in Ha as (n & Hi & Hm).
    pose proof (node_matches_label _ _ _ _ Hm) as Hl.
    apply match_ids_elem. exists n. split; [|done].
    apply (Hback a n); [by apply HfW|by left].
  - intros b Hb. apply match_ids_elem in Hb as (n & Hi & Hm).
    pose proof (node_matches_label _ _ _ _ Hm) as Hl.
    apply match_ids_elem. exists n. split; [|done].
    apply (Hback b n); [by apply HfC|by right].
  - set_solver.
Qed.

End Categories.

End CategoryFacts.

(** ** Running the ingestion twice *)

Module RerunFacts.
Import Json Graph JsonFacts StoreFacts UpsertFacts AbsorbFacts PassFacts.
Import MergeFacts CategoryFacts LinkFacts.
Local Open Scope string_scope.
Local Open Scope nat_scope.

Lemma set_add_NoDup c cats : NoDup cats -> NoDup (set_add c cats).
Proof.
  intros Hnd. unfold set_add. destruct (mem_string c cats) eqn:Hm; [done|].
  apply NoDup_app. split; [done|]. split; [|apply NoDup_singleton].
  intros x Hx Hx'. apply list_elem_of_singleton in Hx' as ->.
  apply (proj2 (ModelFacts.mem_string_elem _ _)) in Hx. congruence.
Qed.

Lemma frozen_extend L s s' extra :
  nodes s' = (nodes s ++ extra)%list ->
  Forall (fun n => n_label n <> L) extra ->
  frozen L s s'.
Proof.
  intros Heq Hall i n Hl. rewrite Heq. split.
  - intros Hi. by apply lookup_app_l_Some.
  - intros Hi. apply lookup_app_Some in Hi as [Hi|[_ Hi]]; [done|].
    apply list_elem_of_lookup_2 in Hi. rewrite Forall_forall in Hall.
    by destruct (Hall n Hi).
Qed.

Section Rerun.

Variable storable : json -> bool.
Variable coerce : ftype -> json -> option json.
Variable py_str : json -> string.

Lemma merge_node_set_outcome L key v props s s' :
  match cypher_merge_node_set storable L key v props s,
        cypher_merge_node_set storable L key v props s' with
  | Returned _, Returned _ | Raised _, Raised _ => True
  | _, _ => False
  end.
Proof.
  unfold cypher_merge_node_set.
  destruct (_ || _); [done|].
  by destruct (existsb _ (nodes s)), (existsb _ (nodes s')).
Qed.

(** The categories a weapon batch collects do not depend on the store. *)
Lemma weapon_loop_categories ws st st' cats :
  snd (foldl (ingest_weapon storable coerce py_str) (st, cats) ws)
  = snd (foldl (ingest_weapon storable coerce py_str) (st', cats) ws).
Proof.
  revert st st' cats. induction ws as [|w ws IH]; intros st st' cats; [done|].
  cbn [foldl]. unfold ingest_weapon at 2 4.
  destruct w as [| | | | |d]; try apply IH.
  destruct (validate _ _ d) as [weapon|]; [|apply IH].
  pose proof (merge_node_set_outcome Weapon "uniqueName"
    (dict_get_default "uniqueName" JNull weapon)
    (weapon_props py_str weapon) (fst st) (fst st')) as Hout.
  destruct (cypher_merge_node_set _ _ _ _ _ (fst st)),
    (cypher_merge_node_set _ _ _ _ _ (fst st')); try done; apply IH.
Qed.

Lemma weapon_loop_NoDup ws acc :
  NoDup (snd acc) ->
  NoDup (snd (foldl (ingest_weapon storable coerce py_str) acc ws)).
Proof.
  revert acc. induction ws as [|w ws IH]; intros acc Hnd; [done|].
  simpl. apply IH. unfold ingest_weapon. destruct acc as [st cats].
  destruct w as [| | | | |d]; try done.
  destruct (validate _ _ d) as [weapon|]; [|done].
  destruct (cypher_merge_node_set _ _ _ _ _ _); [|done]. simpl.
  destruct (dict_get_default "productCategory" JNull weapon) as [| | |c| |];
    try done.
  simpl in Hnd. destruct (negb _); [|done]. by apply set_add_NoDup.
Qed.

Lemma run_upserts_edges L ops s :
  edges (run_upserts storable L ops s) = edges s.
Proof.
  unfold run_upserts. revert s.
  induction (omap id ops) as [|op l IH]; intros s; simpl; [done|].
  by rewrite IH, apply_upsert_edges.
Qed.

Lemma resource_ops_key_free rs op :
  Some op ∈ map (resource_op coerce) rs ->
  dict_get "uniqueName" (snd op) = None.
Proof.
  intros (r & Hr & _)%list_elem_of_fmap.
  by apply (resource_op_key_free coerce r).
Qed.

Lemma weapon_ops_key_free ws op :
  Some op ∈ map (weapon_op coerce py_str) ws ->
  dict_get "uniqueName" (snd op) = None.
Proof.
  intros (r & Hr & _)%list_elem_of_fmap.
  by apply (weapon_op_key_free coerce py_str r).
Qed.

Lemma recipe_ops_key_free rs op :
  Some op ∈ map (recipe_op coerce) rs ->
  dict_get "uniqueName" (snd op) = None.
Proof.
  intros (r & Hr & _)%list_elem_of_fmap.
  by apply (recipe_op_key_free coerce r).
Qed.

Lemma rerun_resources rs Y log :
  saturated Resource (pass_ops storable (map (resource_op coerce) rs)) Y ->
  fst (ingest_resources storable coerce rs (Y, log)) = Y.
Proof.
  intros Hsat. rewrite ingest_resources_run. simpl.
  apply run_upserts_fixed; [apply resource_ops_key_free|done].
Qed.

Lemma category_nodes_other L extra (cats : list string) :
  L <> Category ->
  Forall (fun n => exists c : string, c ∈ cats /\ n = category_node c) extra ->
  Forall (fun n => n_label n <> L) extra.
Proof.
  intros Hne Hall. eapply Forall_impl; [exact Hall|].
  intros n (c & _ & ->). simpl. congruence.
Qed.

(** The weapon pass leaves the nodes of the other kinds where they are,
    and running it again on a store that kept its weapons, its categories
    and its links changes nothing. *)
Lemma rerun_weapons ws stA s2 logB :
  ingest_weapons storable coerce py_str ws stA = ((s2, logB), None) ->
  (forall L, L <> Weapon -> L <> Category -> frozen L (fst stA) s2)
  /\ forall Y logY,
      frozen Weapon s2 Y -> frozen Category s2 Y -> edges s2 ⊆ edges Y ->
      exists logZ,
        ingest_weapons storable coerce py_str ws (Y, logY)
        = ((Y, logZ), None).
Proof.
  unfold ingest_weapons, upsert_weapons, _create_weapon_categories.
  destruct (foldl _ (stA, []) ws) as [stW cats] eqn:Hloop.
  destruct (for_each _ cats (fst stW)) as [s2' err] eqn:Hlink.
  intros [= -> <- ->].
  assert (fst stW = run_upserts storable Weapon
            (map (weapon_op coerce py_str) ws) (fst stA)) as HstW.
  { pose proof (weapon_loop_run storable coerce py_str ws (stA, [])) as H.
    by rewrite Hloop in H. }
  destruct (link_loop_shape storable cats (fst stW) s2 None Hlink)
    as (extra & Hn & Hextra & He).
  split.
  - intros L HW HC. apply (frozen_trans L (fst stA) (fst stW) s2).
    + rewrite HstW. by apply run_upserts_frozen.
    + eapply frozen_extend; [done|]. by eapply category_nodes_other.
  - intros Y logY HfW HfC HeY.
    pose proof (weapon_loop_run storable coerce py_str ws ((Y, logY), []))
      as HrunY.
    pose proof (weapon_loop_categories ws (Y, logY) stA []) as HcatY.
    rewrite Hloop in HcatY.
    destruct (foldl _ ((Y, logY), []) ws) as [stY catsY]. simpl in *.
    subst catsY.
    assert (fst stY = Y) as HY.
    { rewrite HrunY. apply run_upserts_fixed; [apply weapon_ops_key_free|].
      apply (saturated_frozen Weapon _ (fst stW)).
      - eapply frozen_trans; [|exact HfW].
        eapply frozen_extend; [done|]. by eapply category_nodes_other.
      - rewrite HstW. apply run_upserts_saturated. apply weapon_ops_key_free. }
    rewrite HY.
    rewrite (link_loop_fixed storable cats (fst stW) s2 Y); [by eexists| |done..].
    pose proof (weapon_loop_NoDup ws (stA, []) (NoDup_nil_2)) as Hnd.
    by rewrite Hloop in Hnd.
Qed.

(** The recipe pass leaves the nodes of the other kinds where they are and
    keeps the relationships, and running it again on the store it produced
    changes nothing. *)
Lemma rerun_recipes rcs stB s4 logC :
  ingest_recipes storable coerce rcs stB = ((s4, logC), None) ->
  (forall L, L <> Recipe -> frozen L (fst stB) s4)
  /\ edges (fst stB) ⊆ edges s4
  /\ forall logY, exists logZ,
      ingest_recipes storable coerce rcs (s4, logY) = ((s4, logZ), None).
Proof.
  unfold ingest_recipes.
  destruct (_create_recipe_relationships storable rcs
              (fst (upsert_recipes storable coerce rcs stB)))
    as [s4' err] eqn:Hrel.
  intros [= -> <- ->].
  destruct (create_recipe_relationships_absorbing storable rcs _ _ Hrel)
    as (Hn & He & Habs).
  rewrite upsert_recipes_run in Hn, He.
  split; [|split].
  - intros L HL. eapply frozen_trans.
    + by apply (run_upserts_frozen storable L Recipe).
    + by apply frozen_same_nodes.
  - by rewrite run_upserts_edges in He.
  - intros logY.
    assert (fst (upsert_recipes storable coerce rcs (s4, logY)) = s4) as HY.
    { rewrite upsert_recipes_run. simpl.
      apply run_upserts_fixed; [apply recipe_ops_key_free|].
      eapply saturated_frozen; [by apply frozen_same_nodes|].
      apply run_upserts_saturated. apply recipe_ops_key_free. }
    rewrite HY. rewrite Habs; [by eexists| |done].
    by rewrite upsert_recipes_run.
Qed.

(** A run that completed, run again on the same manifests without
    clearing, completes and leaves the store as it is. *)
Lemma ingest_all_rerun clear rs ws rcs st st1 :
  ingest_all storable coerce py_str clear rs ws rcs st = (st1, None) ->
  forall logY, exists logZ,
    ingest_all storable coerce py_str false rs ws rcs (fst st1, logY)
    = ((fst st1, logZ), None).
Proof.
  unfold ingest_all.
  set (st0 := if clear then clear_database st else st).
  destruct (ingest_weapons storable coerce py_str ws
              (ingest_resources storable coerce rs st0))
    as [[s2 log2] [e|]] eqn:Hw; [done|].
  destruct st1 as [s4 log4]. intros Hr logY. simpl.
  destruct (rerun_weapons _ _ _ _ Hw) as [HfW HreW].
  destruct (rerun_recipes _ _ _ _ Hr) as (HfR & HeR & HreR).
  simpl in HfR, HeR.
  destruct (ingest_resources storable coerce rs (s4, logY))
    as [sR logR] eqn:HresY.
  assert (sR = s4) as ->.
  { pose proof (rerun_resources rs s4 logY) as H. rewrite HresY in H.
    apply H.
    apply (saturated_frozen Resource _
             (fst (ingest_resources storable coerce rs st0))).
    - eapply frozen_trans; [by apply HfW|by apply HfR].
    - rewrite ingest_resources_run. apply run_upserts_saturated.
      apply resource_ops_key_free. }
  destruct (HreW s4 logR) as [logW ->]; [by apply HfR..|done|].
  apply HreR.
Qed.

Lemma foldl_merge_edge_row_NoDup T q rows s :
  NoDup (edges s) -> NoDup (edges (foldl (merge_edge_row T q) s rows)).
Proof.
  revert s. induction rows as [|row rows IH]; intros s Hnd; [done|].
  simpl. apply IH. by apply (merge_edge_row_edges T q s row).
Qed.

Lemma store_step_NoDup s s' :
  store_step storable s s' -> NoDup (edges s) -> NoDup (edges s').
Proof.
  intros [s0|L key v s0 s1 H|L key v props s0 s1 H
         |La ka va Lb kb vb T q s0 s1 cnt H] Hnd.
  - apply NoDup_nil_2.
  - apply merge_node_lookup in H as [-> _]. done.
  - apply merge_node_set_shape in H as [-> _]. done.
  - unfold cypher_match_merge_edge in H.
    destruct (list_prod _ _) as [|row rows]; [by injection H as <- _|].
    destruct (match q with Some _ => _ | None => _ end); [done|].
    injection H as <- _.
    by apply (foldl_merge_edge_row_NoDup T q (row :: rows)).
Qed.

Lemma steps_NoDup s s' :
  rtc (store_step storable) s s' -> NoDup (edges s) -> NoDup (edges s').
Proof.
  induction 1 as [|s1 s2 s3 Hstep _ IH]; [done|].
  intros Hnd. apply IH. by eapply store_step_NoDup.
Qed.

End Rerun.

(** C8, as the code has it: a relationship is identified by its source,
    its type, its target and its quantity.  Running a merge statement again
    on the store it produced adds nothing and returns the same count, and
    no statement puts the same relationship in the store twice; the
    quantity is never overwritten: merging the same source, type and target
    with another quantity leaves the first relationship as it is and puts a
    second one next to it.  A whole ingestion that completed, run again on
    the same manifests without clearing, completes and leaves the store
    identical, nodes and relationships; and a run never duplicates a
    relationship. *)
Theorem edge_creation_is_idempotent storable coerce py_str :
  (forall La ka va Lb kb vb T q s s1 cnt,
     cypher_match_merge_edge storable La ka va Lb kb vb T q s
       = Returned (s1, cnt) ->
     cypher_match_merge_edge storable La ka va Lb kb vb T q s1
       = Returned (s1, cnt)
     /\ (NoDup (edges s) -> NoDup (edges s1)))
  /\ (forall T q q' s a b, q <> q' ->
       let s2 := merge_edge_row T q' (merge_edge_row T q s (a, b)) (a, b) in
       Edge a T q b ∈ edges s2 /\ Edge a T q' b ∈ edges s2
       /\ Edge a T q b <> Edge a T q' b)
  /\ (forall clear rs ws rcs st st1,
       ingest_all storable coerce py_str clear rs ws rcs st = (st1, None) ->
       (NoDup (edges (fst st)) -> NoDup (edges (fst st1)))
       /\ forall logY, exists logZ,
           ingest_all storable coerce py_str false rs ws rcs (fst st1, logY)
           = ((fst st1, logZ), None)).
Proof.
  split; [|split].
  - intros La ka va Lb kb vb T q s s1 cnt Hrun. split.
    + apply (merge_edge_absorb storable _ _ _ _ _ _ _ _ s s1 cnt s1 Hrun);
        [by eapply merge_edge_nodes|done].
    + apply (store_step_NoDup storable). by eapply step_merge_edge.
  - intros T q q' s a b Hne s2. subst s2.
    split; [|split].
    + apply merge_edge_row_elem. left. apply merge_edge_row_elem. by right.
    + apply merge_edge_row_elem. by right.
    + congruence.
  - intros clear rs ws rcs st st1 Hrun. split.
    + intros Hnd.
      pose proof (PipelineSteps.ingest_all_steps storable coerce py_str clear
                    rs ws rcs st) as Hsteps.
      rewrite Hrun in Hsteps. by apply (steps_NoDup storable _ _ Hsteps).
    + exact (ingest_all_rerun storable coerce py_str clear rs ws rcs st st1
               Hrun).
Qed.

Lemma edge_creation_is_idempotent_witness :
  let st1 := fst (Scenario.run true [Scenario.Res1] [Scenario.W1]
                    [Scenario.R1] Scenario.fresh) in
  exists logZ,
    Scenario.run false [Scenario.Res1] [Scenario.W1] [Scenario.R1]
      (fst st1, [])
    = ((fst st1, logZ), None).
Proof.
  intros st1.
  destruct (edge_creation_is_idempotent neo4j_storable strict_coerce
              Scenario.show) as (_ & _ & Hrerun).
  destruct (Hrerun true [Scenario.Res1] [Scenario.W1] [Scenario.R1]
              Scenario.fresh st1 eq_refl) as [_ Hre].
  exact (Hre []).
Defined.

(** C8 as stated fails: the quantity is not overwritten.  A recipe that
    lists the same resource with the counts 5 and 7 gets two REQUIRES
    relationships to it from one run; and a run with [num] 2 followed,
    without clearing, by a run with [num] 3 leaves two BUILDS relationships
    from the recipe to the weapon. *)
Lemma quantity_is_not_overwritten :
  let s := fst (fst (Scenario.run true [Scenario.Res1] [Scenario.W1]
                       [Scenario.R5] Scenario.fresh)) in
  let st1 := fst (Scenario.run true [Scenario.Res1] [Scenario.W1]
                    [Scenario.R1] Scenario.fresh) in
  let R1' := JObj [("uniqueName", JStr "R1"); ("resultType", JStr "W1");
                   ("num", JNum 3)] in
  let s2 := fst (fst (Scenario.run false [Scenario.Res1] [Scenario.W1]
                        [R1'] st1)) in
  List.filter (fun e => bool_decide (e_type e = REQUIRES)) (edges s)
  = [Edge 3 REQUIRES (Some (JNum 5)) 0; Edge 3 REQUIRES (Some (JNum 7)) 0]
  /\ List.filter (fun e => bool_decide (e_type e = BUILDS)) (edges s2)
     = [Edge 3 BUILDS (Some (JNum 2)) 1; Edge 3 BUILDS (Some (JNum 3)) 1].
Proof. by split. Qed.

End RerunFacts.

(** ** Keys stay unique *)

Module KeyFacts.
Import Json Graph JsonFacts StoreFacts UpsertFacts AbsorbFacts PassFacts.
Import MergeFacts CategoryFacts RerunFacts.
Local Open Scope string_scope.
Local Open Scope nat_scope.

Lemma find_ids_ge p i ns j : j ∈ find_ids p i ns -> i <= j.
Proof. by intros [? _]%find_ids_elem. Qed.

Lemma find_ids_NoDup p i ns : NoDup (find_ids p i ns).
Proof.
  revert i. induction ns as [|n ns IH]; intros i; simpl; [apply NoDup_nil_2|].
  apply NoDup_app. split; [|split; [|apply IH]].
  - destruct (p n); [apply NoDup_singleton|apply NoDup_nil_2].
  - intros x Hx Hx'. apply find_ids_ge in Hx'.
    destruct (p n); [|by apply elem_of_nil in Hx].
    apply list_elem_of_singleton in Hx. lia.
Qed.

Lemma NoDup_all_equal (l : list nat) i :
  NoDup l -> (forall x, x ∈ l -> x = i) -> i ∈ l -> l = [i].
Proof.
  intros Hnd Hall Hi. destruct l as [|a [|b l]].
  - by apply elem_of_nil in Hi.
  - by rewrite (Hall a (list_elem_of_here _ _)).
  - exfalso. apply NoDup_cons in Hnd as [Ha _]. apply Ha.
    rewrite (Hall a), <- (Hall b); [apply list_elem_of_here| |].
    + apply list_elem_of_further, list_elem_of_here.
    + apply list_elem_of_here.
Qed.

(** In a store with unique keys, a node found under a key is the only one
    found. *)
Lemma match_ids_unique L v s i :
  unique_keys s ->
  i ∈ match_ids L "uniqueName" v s -> match_ids L "uniqueName" v s = [i].
Proof.
  intros Hu Hi. apply NoDup_all_equal; [apply find_ids_NoDup| |done].
  intros j Hj.
  apply match_ids_elem in Hi as (n & Hn & Hmn).
  apply match_ids_elem in Hj as (m & Hm & Hmm).
  by apply (Hu L v j i m n).
Qed.

Lemma unique_keys_empty : unique_keys empty_store.
Proof. intros L v i j n m Hi. simpl in Hi. by rewrite lookup_nil in Hi. Qed.

Lemma unique_keys_same_nodes s s' :
  nodes s' = nodes s -> unique_keys s -> unique_keys s'.
Proof. intros Heq Hu L v i j n m. rewrite Heq. apply Hu. Qed.

Lemma unique_keys_categories s s' extra (cats : list string) :
  nodes s' = (nodes s ++ extra)%list ->
  Forall (fun n => exists c, c ∈ cats /\ n = category_node c) extra ->
  unique_keys s -> unique_keys s'.
Proof.
  intros Heq Hall Hu L v i j n m Hi Hj Hn Hm. rewrite Heq in Hi, Hj.
  rewrite Forall_forall in Hall.
  assert (forall k x, (nodes s ++ extra)%list !! k = Some x ->
            node_matches L "uniqueName" v x = true -> nodes s !! k = Some x)
    as Hold.
  { intros k x Hk Hx. apply lookup_app_Some in Hk as [Hk|[_ Hk]]; [done|].
    apply list_elem_of_lookup_2 in Hk. destruct (Hall x Hk) as (c & _ & ->).
    unfold node_matches in Hx. simpl in Hx.
    rewrite lookup_singleton_ne in Hx by done.
    by rewrite andb_false_r in Hx. }
  apply (Hu L v i j n m); auto.
Qed.

Section Keys.

Variable storable : json -> bool.
Variable coerce : ftype -> json -> option json.
Variable py_str : json -> string.

Lemma unique_keys_apply_upsert L op s :
  dict_get "uniqueName" (snd op) = None ->
  unique_keys s -> unique_keys (apply_upsert storable L s op).
Proof.
  intros Hk Hu.
  destruct (accepted storable op) eqn:Hacc;
    [|by rewrite apply_upsert_rejected].
  destruct (existsb (node_matches L "uniqueName" (fst op)) (nodes s)) eqn:Hex.
  - rewrite apply_upsert_present by done.
    intros L' v i j n m Hi Hj Hn Hm. simpl in Hi, Hj.
    rewrite list_lookup_fmap in Hi, Hj.
    destruct (nodes s !! i) as [n0|] eqn:Hi0; [|done].
    destruct (nodes s !! j) as [m0|] eqn:Hj0; [|done].
    simpl in Hi, Hj. injection Hi as <-. injection Hj as <-.
    rewrite node_matches_upsert_node in Hn, Hm by done.
    by apply (Hu L' v i j n0 m0).
  - rewrite apply_upsert_absent by done.
    intros L' v i j n m Hi Hj Hn Hm. simpl in Hi, Hj.
    assert (forall x, node_matches L' "uniqueName" v
                        (upsert_node L op (Node L {["uniqueName" := fst op]}))
                      = true ->
                      nodes s !! x = None \/
                      forall y, nodes s !! x = Some y ->
                        node_matches L' "uniqueName" v y = false) as Hnew.
    { intros x Hx. right. intros y Hy.
      rewrite node_matches_upsert_node in Hx by done.
      pose proof (node_matches_label _ _ _ _ Hx) as Hl. simpl in Hl. subst L'.
      apply node_matches_singleton in Hx. subst v.
      apply not_true_iff_false. intros Hyes.
      apply not_true_iff_false in Hex. apply Hex, existsb_exists.
      exists y. split; [|done]. apply list_elem_of_In.
      by eapply list_elem_of_lookup_2. }
    apply lookup_app_Some in Hi as [Hi|[Hil Hi]];
      apply lookup_app_Some in Hj as [Hj|[Hjl Hj]].
    + by apply (Hu L' v i j n m).
    + apply list_lookup_singleton_Some in Hj as [_ <-].
      destruct (Hnew i Hm) as [Hnone|Hno]; [congruence|].
      rewrite (Hno n Hi) in Hn. done.
    + apply list_lookup_singleton_Some in Hi as [_ <-].
      destruct (Hnew j Hn) as [Hnone|Hno]; [congruence|].
      rewrite (Hno m Hj) in Hm. done.
    + apply list_lookup_singleton_Some in Hi as [Hi0 _].
      apply list_lookup_singleton_Some in Hj as [Hj0 _]. lia.
Qed.

Lemma unique_keys_run_upserts L ops s :
  (forall op, Some op ∈ ops -> dict_get "uniqueName" (snd op) = None) ->
  unique_keys s -> unique_keys (run_upserts storable L ops s).
Proof.
  unfold run_upserts. intros Hfree.
  assert (Forall (fun op => dict_get "uniqueName" (snd op) = None)
            (omap id ops)) as Hall.
  { apply Forall_forall. intros op (o & Ho & Hid)%list_elem_of_omap.
    simpl in Hid. subst o. by apply Hfree. }
  revert s. induction Hall as [|op l Hop Hl IH]; intros s Hu; [done|].
  simpl. apply IH. by apply unique_keys_apply_upsert.
Qed.

Lemma for_each_nodes {A} (body : A -> store -> store * option exn) items s :
  (forall x s0, nodes (fst (body x s0)) = nodes s0) ->
  nodes (fst (for_each body items s)) = nodes s.
Proof.
  intros Hbody. revert s.
  induction items as [|x items IH]; intros s; simpl; [done|].
  specialize (Hbody x s). destruct (body x s) as [s1 [e|]]; [done|].
  by rewrite IH.
Qed.

Lemma merge_edge_keeps_nodes La ka va Lb kb vb T q s :
  match cypher_match_merge_edge storable La ka va Lb kb vb T q s with
  | Returned (s', _) => nodes s' = nodes s
  | Raised _ => True
  end.
Proof.
  destruct (cypher_match_merge_edge _ _ _ _ _ _ _ _ _ s) as [[s' cnt]|e] eqn:H;
    [|done].
  by eapply merge_edge_nodes.
Qed.

Lemma create_builds_nodes d s :
  nodes (fst (create_builds storable d s)) = nodes s.
Proof.
  unfold create_builds. destruct (py_truthy _); [|done].
  pose proof (merge_edge_keeps_nodes Recipe "uniqueName"
    (dict_get_default "uniqueName" JNull d) Weapon "uniqueName"
    (dict_get_default "resultType" JNull d) BUILDS
    (Some (dict_get_default "num" (JNum 1) d)) s) as H1.
  destruct (cypher_match_merge_edge _ _ _ _ _ _ _ _ _ s) as [[s1 cnt]|e];
    [|done].
  destruct (Nat.eqb cnt 0); [|done].
  pose proof (merge_edge_keeps_nodes Recipe "uniqueName"
    (dict_get_default "uniqueName" JNull d) Resource "uniqueName"
    (dict_get_default "resultType" JNull d) BUILDS
    (Some (dict_get_default "num" (JNum 1) d)) s1) as H2.
  destruct (cypher_match_merge_edge _ _ _ _ _ _ _ _ _ s1) as [[s2 cnt2]|e];
    simpl; congruence.
Qed.

Lemma create_requires_nodes ru ingredient s :
  nodes (fst (create_requires storable ru ingredient s)) = nodes s.
Proof.
  unfold create_requires.
  destruct (py_get "ItemType" JNull ingredient) as [item_type|e]; [|done].
  destruct (py_get "ItemCount" (JNum 1) ingredient) as [item_count|e];
    [|done].
  destruct (py_truthy item_type); [|done].
  pose proof (merge_edge_keeps_nodes Recipe "uniqueName" ru
    Resource "uniqueName" item_type REQUIRES (Some item_count) s) as H.
  by destruct (cypher_match_merge_edge _ _ _ _ _ _ _ _ _ s) as [[s1 cnt]|e].
Qed.

Lemma recipe_relationships_nodes raw s :
  nodes (fst (recipe_relationships storable raw s)) = nodes s.
Proof.
  unfold recipe_relationships. destruct raw as [| | | | |d]; try done.
  pose proof (create_builds_nodes d s) as H1.
  destruct (create_builds storable d s) as [s1 [e|]]; [done|].
  destruct (py_iter _) as [items|e]; [|done].
  rewrite for_each_nodes; [done|]. apply create_requires_nodes.
Qed.

(** Every pass keeps the keys unique, whether it completes or not. *)
Lemma unique_keys_ingest_all clear rs ws rcs st :
  unique_keys (fst st) ->
  unique_keys (fst (fst (ingest_all storable coerce py_str clear
                           rs ws rcs st))).
Proof.
  intros Hu. unfold ingest_all.
  set (st0 := if clear then clear_database st else st).
  assert (unique_keys (fst st0)) as Hu0.
  { subst st0. destruct clear; [apply unique_keys_empty|done]. }
  assert (unique_keys (fst (ingest_resources storable coerce rs st0))) as Hu1.
  { rewrite ingest_resources_run. apply unique_keys_run_upserts; [|done].
    apply RerunFacts.resource_ops_key_free. }
  set (st1 := ingest_resources storable coerce rs st0) in *.
  assert (unique_keys
            (fst (fst (ingest_weapons storable coerce py_str ws st1)))) as Hu2.
  { unfold ingest_weapons, upsert_weapons, _create_weapon_categories.
    pose proof (weapon_loop_run storable coerce py_str ws (st1, [])) as Hrun.
    destruct (foldl _ (st1, []) ws) as [stW cats].
    destruct (for_each _ cats (fst stW)) as [s2 err] eqn:Hlink. simpl in *.
    destruct (link_loop_shape storable cats (fst stW) s2 err Hlink)
      as (extra & Hn & Hextra & _).
    eapply unique_keys_categories; [done..|].
    rewrite Hrun. apply unique_keys_run_upserts; [|done].
    apply RerunFacts.weapon_ops_key_free. }
  destruct (ingest_weapons storable coerce py_str ws st1) as [st2 [e|]];
    [done|].
  unfold ingest_recipes, _create_recipe_relationships.
  pose proof (for_each_nodes (recipe_relationships storable) rcs
                (fst (upsert_recipes storable coerce rcs st2))
                recipe_relationships_nodes) as Hnodes.
  destruct (for_each _ rcs _) as [s4 err]. simpl in *.
  apply (unique_keys_same_nodes
           (fst (upsert_recipes storable coerce rcs st2))); [done|].
  rewrite upsert_recipes_run. apply unique_keys_run_upserts; [|done].
  apply RerunFacts.recipe_ops_key_free.
Qed.

Lemma unique_keys_upsert_recipes rcs st :
  unique_keys (fst st) ->
  unique_keys (fst (upsert_recipes storable coerce rcs st)).
Proof.
  intros Hu. rewrite upsert_recipes_run.
  apply unique_keys_run_upserts; [|done].
  apply RerunFacts.recipe_ops_key_free.
Qed.

End Keys.

End KeyFacts.

(** ** Which node a recipe is linked to *)

Module ResolutionFacts.
Import Json Graph JsonFacts StoreFacts LinkFacts KeyFacts.
Local Open Scope string_scope.
Local Open Scope nat_scope.

(** C1, as the code has it: in a store whose keys are unique (as they are
    in every store the pipeline builds), for a recipe record with a
    non-empty [resultType] whose Recipe node is in the store, and a
    quantity ([num], 1 when the record has none) the store accepts: if a
    Weapon node has the result type as [uniqueName], the BUILDS
    relationship from the Recipe to that Weapon with that quantity is
    merged, and nothing is looked up among the Resources; if no Weapon has
    it and a Resource has, the relationship to that Resource is merged; if
    neither has it, the store is left as it was and nothing is raised.
    Merging leaves the nodes alone and puts exactly that relationship in
    the store: one relationship is added, or none when the store had it
    already. *)
Theorem builds_resolution storable d s r :
  let recipe_unique := dict_get_default "uniqueName" JNull d in
  let result_type := dict_get_default "resultType" JNull d in
  let quantity := dict_get_default "num" (JNum 1) d in
  unique_keys s ->
  py_truthy result_type = true ->
  r ∈ match_ids Recipe "uniqueName" recipe_unique s ->
  is_null quantity = false -> storable quantity = true ->
  (forall w, w ∈ match_ids Weapon "uniqueName" result_type s ->
     create_builds storable d s
     = (merge_edge_row BUILDS (Some quantity) s (r, w), None))
  /\ (forall x, match_ids Weapon "uniqueName" result_type s = [] ->
       x ∈ match_ids Resource "uniqueName" result_type s ->
       create_builds storable d s
       = (merge_edge_row BUILDS (Some quantity) s (r, x), None))
  /\ (match_ids Weapon "uniqueName" result_type s = [] ->
      match_ids Resource "uniqueName" result_type s = [] ->
      create_builds storable d s = (s, None))
  /\ (forall t,
       let e := Edge r BUILDS (Some quantity) t in
       let s' := merge_edge_row BUILDS (Some quantity) s (r, t) in
       nodes s' = nodes s
       /\ e ∈ edges s'
       /\ (edges s' = edges s
           \/ ((e ∉ edges s) /\ edges s' = (edges s ++ [e])%list))
       /\ (NoDup (edges s) -> NoDup (edges s'))).
Proof.
  intros ru rt q Hu Hrt Hr Hq Hs.
  apply (match_ids_unique _ _ _ _ Hu) in Hr.
  split; [|split; [|split]].
  - intros w Hw. apply (match_ids_unique _ _ _ _ Hu) in Hw.
    unfold create_builds. fold ru rt q. rewrite Hrt.
    by rewrite (merge_edge_one storable _ _ _ _ _ _ _ _ _ r w Hr Hw Hq Hs).
  - intros x Hw Hx. apply (match_ids_unique _ _ _ _ Hu) in Hx.
    unfold create_builds. fold ru rt q. rewrite Hrt.
    rewrite (merge_edge_none storable _ _ _ _ _ _ _ _ _ r Hr Hw). simpl.
    by rewrite (merge_edge_one storable _ _ _ _ _ _ _ _ _ r x Hr Hx Hq Hs).
  - intros Hw Hx. unfold create_builds. fold ru rt q. rewrite Hrt.
    rewrite (merge_edge_none storable _ _ _ _ _ _ _ _ _ r Hr Hw). simpl.
    by rewrite (merge_edge_none storable _ _ _ _ _ _ _ _ _ r Hr Hx).
  - intros t. apply (merge_edge_row_edges BUILDS (Some q) s (r, t)).
Qed.

Lemma nodes_in_unique_keys : unique_keys Scenario.nodes_in.
Proof.
  apply unique_keys_upsert_recipes.
  apply (unique_keys_ingest_all neo4j_storable strict_coerce Scenario.show).
  apply unique_keys_empty.
Qed.

Lemma builds_resolution_witness :
  create_builds neo4j_storable Scenario.R1_fields Scenario.nodes_in
  = (merge_edge_row BUILDS (Some (JNum 2)) Scenario.nodes_in (3, 1), None).
Proof.
  destruct (builds_resolution neo4j_storable Scenario.R1_fields
              Scenario.nodes_in 3 nodes_in_unique_keys) as (Hweapon & _);
    [reflexivity | by vm_compute; left | reflexivity | reflexivity |].
  apply (Hweapon 1). vm_compute. by left.
Defined.

(** C1 as stated fails: the pass goes over the raw records, and a record
    that did not pass validation has no Recipe node; for it no BUILDS
    relationship is made although a Weapon has its result type as
    [uniqueName]. *)
Lemma no_builds_without_recipe_node :
  let r := Scenario.run true [Scenario.Res1] [Scenario.W1] [Scenario.R3]
             Scenario.fresh in
  let s := fst (fst r) in
  snd r = None
  /\ py_get "resultType" JNull Scenario.R3 = Returned (JStr "W1")
  /\ match_ids Weapon "uniqueName" (JStr "W1") s = [1]
  /\ match_ids Recipe "uniqueName" (JStr "R3") s = []
  /\ List.filter (fun e => bool_decide (e_type e = BUILDS)) (edges s) = []
  /\ snd (fst r) = [ValidationWarning Recipe (JStr "R3")].
Proof. repeat split. Qed.

(** C3, as the code has it: in a store whose keys are unique, for an
    ingredient entry with a non-empty [ItemType] of a recipe whose Recipe
    node is in the store, and a quantity ([ItemCount], 1 when the entry has
    none) the store accepts: the REQUIRES relationship from the Recipe to
    the Resource that has the item type as [uniqueName] is merged when
    there is such a Resource; when there is none, the store is left as it
    was and nothing is raised, whether or not a Weapon has that
    [uniqueName].  Merging leaves the nodes alone and adds that one
    relationship, or none when the store had it already. *)
Theorem requires_resolution storable recipe_unique ing s r :
  let item_type := dict_get_default "ItemType" JNull ing in
  let item_count := dict_get_default "ItemCount" (JNum 1) ing in
  unique_keys s ->
  py_truthy item_type = true ->
  r ∈ match_ids Recipe "uniqueName" recipe_unique s ->
  is_null item_count = false -> storable item_count = true ->
  (forall x, x ∈ match_ids Resource "uniqueName" item_type s ->
     create_requires storable recipe_unique (JObj ing) s
     = (merge_edge_row REQUIRES (Some item_count) s (r, x), None))
  /\ (match_ids Resource "uniqueName" item_type s = [] ->
      create_requires storable recipe_unique (JObj ing) s = (s, None))
  /\ (forall x,
       let e := Edge r REQUIRES (Some item_count) x in
       let s' := merge_edge_row REQUIRES (Some item_count) s (r, x) in
       nodes s' = nodes s
       /\ e ∈ edges s'
       /\ (edges s' = edges s
           \/ ((e ∉ edges s) /\ edges s' = (edges s ++ [e])%list))
       /\ (NoDup (edges s) -> NoDup (edges s'))).
Proof.
  intros it ic Hu Hit Hr Hq Hs.
  apply (match_ids_unique _ _ _ _ Hu) in Hr.
  split; [|split].
  - intros x Hx. apply (match_ids_unique _ _ _ _ Hu) in Hx.
    unfold create_requires. simpl. fold it ic. rewrite Hit.
    by rewrite (merge_edge_one storable _ _ _ _ _ _ _ _ _ r x Hr Hx Hq Hs).
  - intros Hx. unfold create_requires. simpl. fold it ic. rewrite Hit.
    by rewrite (merge_edge_none storable _ _ _ _ _ _ _ _ _ r Hr Hx).
  - intros x. apply (merge_edge_row_edges REQUIRES (Some ic) s (r, x)).
Qed.

Lemma requires_resolution_witness :
  create_requires neo4j_storable (JStr "R1")
    (JObj [("ItemType", JStr "Res1"); ("ItemCount", JNum 5)])
    Scenario.nodes_in
  = (merge_edge_row REQUIRES (Some (JNum 5)) Scenario.nodes_in (3, 0), None).
Proof.
  destruct (requires_resolution neo4j_storable (JStr "R1")
              [("ItemType", JStr "Res1"); ("ItemCount", JNum 5)]
              Scenario.nodes_in 3 nodes_in_unique_keys) as (Hres & _);
    [reflexivity | by vm_compute; left | reflexivity | reflexivity |].
  apply (Hres 0). vm_compute. by left.
Defined.

(** C3 as stated fails: for a record that did not pass validation (it
    lacks the result type) there is no Recipe node, and no REQUIRES
    relationship is made for its ingredient although the Resource is in
    the store. *)
Lemma no_requires_without_recipe_node :
  let r := Scenario.run true [Scenario.Res1] [Scenario.W1] [Scenario.R4]
             Scenario.fresh in
  let s := fst (fst r) in
  snd r = None
  /\ py_get "ingredients" JNull Scenario.R4
     = Returned (JList [JObj [("ItemType", JStr "Res1");
                              ("ItemCount", JNum 5)]])
  /\ match_ids Resource "uniqueName" (JStr "Res1") s = [0]
  /\ match_ids Recipe "uniqueName" (JStr "R4") s = []
  /\ List.filter (fun e => bool_decide (e_type e = REQUIRES)) (edges s) = []
  /\ snd (fst r) = [ValidationWarning Recipe (JStr "R4")].
Proof. repeat split. Qed.

(** The end-to-end scenario of the specification: one BUILDS relationship
    from R1 to W1 with quantity 2 and one REQUIRES relationship from R1 to
    Res1 with quantity 5. *)
Lemma scenario_relationships :
  let r := Scenario.run true [Scenario.Res1] [Scenario.W1] [Scenario.R1]
             Scenario.fresh in
  snd r = None
  /\ edges (fst (fst r))
     = [Edge 1 BELONGS_TO None 2; Edge 3 BUILDS (Some (JNum 2)) 1;
        Edge 3 REQUIRES (Some (JNum 5)) 0].
Proof. by split. Qed.

(** Null fields, which the model admits, are not covered by the defaults
    of the pass: with a null [num] the store rejects the BUILDS merge, and a
    null [ingredients] cannot be iterated; either exception leaves the
    pass. *)
Lemma null_fields_leave_the_pass :
  let with_null k :=
    JObj [("uniqueName", JStr "R1"); ("resultType", JStr "W1"); (k, JNull)] in
  recipe_relationships neo4j_storable (with_null "num") Scenario.nodes_in
  = (Scenario.nodes_in, Some StoreError)
  /\ snd (recipe_relationships neo4j_storable (with_null "ingredients")
            Scenario.nodes_in)
     = Some TypeError.
Proof. by split. Qed.

End ResolutionFacts.

(** ** More on decompression *)

Module LzmaMore.
Import Lzma Decoder LzmaFacts.

Section Streams.

Variable decomp : bytes -> dec_result.

Lemma loop_frames fuel (fps : list (bytes * bytes)) results :
  Forall (fun fp => valid_frame decomp (fst fp) (snd fp) /\ fst fp <> []) fps ->
  fps <> [] ->
  (length fps <= fuel)%nat ->
  decompress_lzma_loop decomp fuel (concat (map fst fps)) results
  = Some (Returned (concat (results ++ map snd fps))).
Proof.
  intros Hall. revert fuel results.
  induction Hall as [|[f p] fps [Hv Hne] Hall IH]; intros fuel results Hnil Hlen;
    [done|].
  destruct fuel as [|fuel]; [simpl in Hlen; lia|].
  cbn [map concat fst snd decompress_lzma_loop] in *.
  rewrite (Hv (concat (map fst fps))).
  destruct fps as [|fp fps].
  - simpl. done.
  - destruct (concat (map fst (fp :: fps))) as [|b u] eqn:Hc.
    + exfalso. apply Forall_inv in Hall as [_ Hfp].
      simpl in Hc. apply app_eq_nil in Hc as [? _]. done.
    + cbn [negb]. rewrite IH; [|done|simpl in *; lia].
      by rewrite <- app_assoc.
Qed.

Lemma frames_length (fps : list (bytes * bytes)) :
  Forall (fun fp => valid_frame decomp (fst fp) (snd fp) /\ fst fp <> []) fps ->
  (length fps <= length (concat (map fst fps)))%nat.
Proof.
  induction 1 as [|[f p] fps [_ Hne] _ IH]; simpl; [done|].
  rewrite length_app. destruct f; [done|]. simpl. lia.
Qed.

Lemma loop_after_progress fuel data results :
  consumes_input decomp -> unused_after_eof decomp ->
  results <> [] -> (length data < fuel)%nat ->
  exists rest,
    decompress_lzma_loop decomp fuel data results
    = Some (Returned (concat results ++ rest)).
Proof.
  intros Hc Hu. revert data results.
  induction fuel as [|fuel IH]; intros data results Hres Hlt; [lia|].
  simpl. destruct (decomp data) as [|res unused eof] eqn:Hd.
  - destruct results; [done|]. exists []. by rewrite app_nil_r.
  - destruct unused as [|b u].
    + exists res. by rewrite concat_app; simpl; rewrite app_nil_r.
    + rewrite (Hu _ _ _ _ Hd) by done. cbn [negb].
      pose proof (Hc _ _ _ _ Hd ltac:(discriminate)) as Hlen.
      destruct (IH (b :: u) (results ++ [res])) as [rest Hrest];
        [by destruct results|lia|].
      rewrite Hrest. exists (res ++ rest).
      by rewrite concat_app; simpl; rewrite app_nil_r, <- app_assoc.
Qed.

End Streams.

(** X1: a buffer made of one or more complete, non-empty frames
    decompresses, at the first attempt, to the plaintexts of the frames in
    order. *)
Theorem frames_decompress_in_order decomp (fps : list (bytes * bytes)) fuel :
  Forall (fun fp => valid_frame decomp (fst fp) (snd fp) /\ fst fp <> []) fps ->
  fps <> [] ->
  download_and_decompress decomp (S fuel) (concat (map fst fps))
  = Some ([Z.of_nat (length (concat (map fst fps)))],
          Returned (concat (map snd fps))).
Proof.
  intros Hall Hne. apply retry_loop_first_try. unfold decompress_lzma.
  rewrite (loop_frames decomp _ fps []); [done..|].
  pose proof (frames_length decomp fps Hall). lia.
Qed.

Lemma frames_decompress_in_order_witness :
  download_and_decompress frame_decomp 1
    (concat (map fst [(frame_encode [Byte.x01; Byte.x02], [Byte.x01; Byte.x02]);
                      (frame_encode [], []);
                      (frame_encode [Byte.x03], [Byte.x03])]))
  = Some ([12%Z], Returned [Byte.x01; Byte.x02; Byte.x03]).
Proof.
  apply (frames_decompress_in_order frame_decomp
           [(frame_encode [Byte.x01; Byte.x02], [Byte.x01; Byte.x02]);
            (frame_encode [], []);
            (frame_encode [Byte.x03], [Byte.x03])] 0); [|done].
  repeat constructor; try done; intros rest; reflexivity.
Defined.

(** X2: a buffer the decoder reads to its end, whether the stream in it is
    complete or cut short, is returned at the first attempt with what was
    decoded, without an error and without a retry; an empty buffer gives an
    empty output. *)
Theorem stream_read_to_the_end decomp (byt res : bytes) eof fuel :
  decomp byt = DecOk res [] eof ->
  decompress_lzma decomp byt = Some (Returned res)
  /\ download_and_decompress decomp (S fuel) byt
     = Some ([Z.of_nat (length byt)], Returned res).
Proof.
  intros Hd.
  assert (decompress_lzma decomp byt = Some (Returned res)) as Hr.
  { unfold decompress_lzma. simpl. rewrite Hd. simpl. by rewrite app_nil_r. }
  split; [done|]. by apply retry_loop_first_try.
Qed.

Lemma stream_read_to_the_end_witness :
  (decompress_lzma frame_decomp [] = Some (Returned [])
   /\ download_and_decompress frame_decomp 1 [] = Some ([0%Z], Returned []))
  /\ (decompress_lzma frame_decomp [Byte.x4c; Byte.x03; Byte.x07]
      = Some (Returned [Byte.x07])
      /\ download_and_decompress frame_decomp 1 [Byte.x4c; Byte.x03; Byte.x07]
         = Some ([3%Z], Returned [Byte.x07])).
Proof.
  split.
  - apply (stream_read_to_the_end frame_decomp [] [] false 0). reflexivity.
  - apply (stream_read_to_the_end frame_decomp
             [Byte.x4c; Byte.x03; Byte.x07] [Byte.x07] false 0). reflexivity.
Defined.

(** X3: with a decoder that consumes input, leaves bytes unused only behind
    an end-of-stream marker and does not fail on an empty buffer,
    [decompress_lzma] raises exactly when the first frame fails to decode;
    once the first frame has given its output, the call returns, and what it
    returns begins with that output. *)
Theorem decompress_lzma_raises_only_at_start decomp (data : bytes) :
  consumes_input decomp -> unused_after_eof decomp ->
  (decomp data = DecError ->
   decompress_lzma decomp data = Some (Raised LZMAError))
  /\ (forall res unused eof, decomp data = DecOk res unused eof ->
      exists rest, decompress_lzma decomp data = Some (Returned (res ++ rest))).
Proof.
  intros Hc Hu. split; [apply decompress_lzma_zero_progress|].
  intros res unused eof Hd. unfold decompress_lzma. simpl. rewrite Hd.
  destruct unused as [|b u].
  - exists []. simpl. by rewrite !app_nil_r.
  - rewrite (Hu _ _ _ _ Hd) by done. cbn [negb].
    pose proof (Hc _ _ _ _ Hd ltac:(discriminate)) as Hlen.
    destruct (loop_after_progress decomp (length data) (b :: u) [res] Hc Hu)
      as [rest Hrest]; [done|done|].
    rewrite Hrest. exists rest. simpl. by rewrite app_nil_r.
Qed.

Lemma frame_decomp_unused_after_eof : unused_after_eof frame_decomp.
Proof.
  intros data res unused eof Hd Hne.
  destruct data as [|m [|n body]]; simpl in Hd.
  - by injection Hd as _ <- _.
  - destruct (negb (Byte.eqb m frame_magic)); [done|].
    by injection Hd as _ <- _.
  - destruct (negb (Byte.eqb m frame_magic)); [done|].
    destruct (drop (Byte.to_nat n) body) as [|e rest].
    + by injection Hd as _ <- _.
    + destruct (Byte.eqb e frame_end); [|done]. by injection Hd as _ _ <-.
Qed.

Lemma decompress_lzma_raises_only_at_start_witness :
  (frame_decomp (frame_encode [Byte.x01] ++ [Byte.xff]) = DecError ->
   decompress_lzma frame_decomp (frame_encode [Byte.x01] ++ [Byte.xff])
   = Some (Raised LZMAError))
  /\ (forall res unused eof,
      frame_decomp (frame_encode [Byte.x01] ++ [Byte.xff])
      = DecOk res unused eof ->
      exists rest,
        decompress_lzma frame_decomp (frame_encode [Byte.x01] ++ [Byte.xff])
        = Some (Returned (res ++ rest))).
Proof.
  apply (decompress_lzma_raises_only_at_start frame_decomp
           (frame_encode [Byte.x01] ++ [Byte.xff])
           frame_decomp_consumes frame_decomp_unused_after_eof).
Defined.

(** X4: with a decoder that consumes input and does not fail on an empty
    buffer, [download_and_decompress] returns what [decompress_lzma] makes of
    the longest prefix of the response it accepts: every attempt on a longer
    prefix raised, and the attempts were made at the lengths from the full
    one down to that of this prefix. *)
Theorem download_longest_accepted_prefix decomp (byt : bytes) :
  consumes_input decomp -> decomp [] <> DecError ->
  exists (k : nat) out,
    (k <= length byt)%nat
    /\ (forall fuel, (length byt < fuel)%nat ->
         download_and_decompress decomp fuel byt
         = Some (countdown (Z.of_nat (length byt)) (S (length byt - k)),
                 Returned out))
    /\ decompress_lzma decomp (take k byt) = Some (Returned out)
    /\ forall j, (k < j <= length byt)%nat ->
         decompress_lzma decomp (take j byt) = Some (Raised LZMAError).
Proof. intros Hc He. by apply retry_loop_run. Qed.

Lemma download_longest_accepted_prefix_witness :
  exists (k : nat) out,
    (k <= 6)%nat
    /\ (forall fuel, (6 < fuel)%nat ->
         download_and_decompress frame_decomp fuel
           [Byte.x4c; Byte.x01; Byte.x07; Byte.xff; Byte.x00; Byte.x00]
         = Some (countdown 6 (S (6 - k)), Returned out))
    /\ decompress_lzma frame_decomp
         (take k [Byte.x4c; Byte.x01; Byte.x07; Byte.xff; Byte.x00; Byte.x00])
       = Some (Returned out)
    /\ forall j, (k < j <= 6)%nat ->
         decompress_lzma frame_decomp
           (take j [Byte.x4c; Byte.x01; Byte.x07; Byte.xff; Byte.x00; Byte.x00])
         = Some (Raised LZMAError).
Proof.
  apply (download_longest_accepted_prefix frame_decomp
           [Byte.x4c; Byte.x01; Byte.x07; Byte.xff; Byte.x00; Byte.x00]
           frame_decomp_consumes).
  rewrite frame_decomp_empty. discriminate.
Defined.

End LzmaMore.

(** ** More on the index *)

Module IndexMore.
Import Index IndexFacts.
Local Open Scope string_scope.

Lemma split_nonempty sep s : split sep s <> [].
Proof.
  destruct s as [|c s]; simpl; [done|].
  destruct (Ascii.eqb c sep); [done|]. by destruct (split sep s).
Qed.

Lemma join_cons_char sep c p rest :
  join sep (String c p :: rest) = String c (join sep (p :: rest)).
Proof. by destruct rest. Qed.

Lemma join_split sep s : join sep (split sep s) = s.
Proof.
  induction s as [|c s IH]; [done|]. simpl.
  destruct (Ascii.eqb c sep) eqn:Hc.
  - apply Ascii.eqb_eq in Hc as ->.
    pose proof (split_nonempty sep s) as Hne.
    destruct (split sep s) as [|p rest]; [done|].
    change (join sep ("" :: p :: rest))
      with (String sep (join sep (p :: rest))).
    by rewrite IH.
  - pose proof (split_nonempty sep s) as Hne.
    destruct (split sep s) as [|p rest]; [done|].
    by rewrite join_cons_char, IH.
Qed.

Lemma split_pieces sep s :
  Forall (fun l => has_char sep l = false) (split sep s).
Proof.
  induction s as [|c s IH]; simpl; [by repeat constructor|].
  destruct (Ascii.eqb c sep) eqn:Hc; [by constructor|].
  destruct (split sep s) as [|p rest]; simpl.
  - repeat constructor. simpl. by rewrite Hc.
  - apply Forall_cons in IH as [Hp Hrest]. constructor; [|done].
    simpl. by rewrite Hc.
Qed.

Lemma lstrip_blank s : blank s = true -> lstrip s = "".
Proof.
  induction s as [|c s IH]; simpl; [done|].
  intros [Hc Hs]%andb_true_iff. rewrite Hc. by apply IH.
Qed.

Lemma lstrip_app_blank lead s : blank lead = true -> lstrip (lead ++ s) = lstrip s.
Proof.
  induction lead as [|c lead IH]; simpl; [done|].
  intros [Hc Hs]%andb_true_iff. rewrite Hc. by apply IH.
Qed.

Lemma strip_app_blank s trail :
  blank trail = true -> strip (s ++ trail) = strip s.
Proof.
  intros Hb. unfold strip. induction s as [|c s IH]; simpl.
  - by rewrite lstrip_blank.
  - destruct (is_space c); [done|].
    by apply (rstrip_app_blank (String c s)).
Qed.

Lemma blank_rstrip s : rstrip s = "" -> blank s = true.
Proof.
  induction s as [|c s IH]; simpl; [done|].
  destruct (rstrip s) as [|d r]; [|done].
  destruct (is_space c); [|done]. intros _. by rewrite IH.
Qed.

Lemma blank_lstrip s : blank (lstrip s) = true -> blank s = true.
Proof.
  induction s as [|c s IH]; simpl; [done|].
  destruct (is_space c) eqn:Hc; simpl; [done|]. by rewrite Hc.
Qed.

Lemma first_char_lstrip s c :
  first_char (lstrip s) = Some c -> is_space c = false.
Proof.
  induction s as [|d s IH]; simpl; [done|].
  destruct (is_space d) eqn:Hd; [done|]. simpl. by intros [= <-].
Qed.

Lemma first_char_rstrip s c :
  first_char (rstrip s) = Some c -> first_char s = Some c.
Proof.
  destruct s as [|d s]; simpl; [done|].
  destruct (rstrip s); [|done]. by destruct (is_space d).
Qed.

Lemma last_char_cons c s :
  s <> "" -> last_char (String c s) = last_char s.
Proof. by destruct s. Qed.

Lemma last_char_rstrip s c :
  last_char (rstrip s) = Some c -> is_space c = false.
Proof.
  induction s as [|d s IH]; simpl; [done|].
  destruct (rstrip s) as [|e r] eqn:Hr.
  - destruct (is_space d) eqn:Hd; [done|]. simpl. by intros [= <-].
  - done.
Qed.

Lemma first_char_first_piece sep s c :
  first_char (hd "" (split sep s)) = Some c -> first_char s = Some c.
Proof.
  destruct s as [|d s]; simpl; [done|].
  destruct (Ascii.eqb d sep); [done|]. by destruct (split sep s).
Qed.

Lemma last_char_last_piece sep s c :
  last_char (List.last (split sep s) "") = Some c -> last_char s = Some c.
Proof.
  induction s as [|d s IH]; [done|]. simpl.
  pose proof (split_nonempty sep s) as Hne.
  destruct (Ascii.eqb d sep).
  - destruct (split sep s) as [|p rest] eqn:Hs; [done|].
    intros Hc. specialize (IH Hc). by destruct s.
  - destruct (split sep s) as [|p rest] eqn:Hs; [done|].
    destruct rest as [|p' rest].
    + simpl in *. destruct p as [|e p].
      * assert (s = "") as -> by (by rewrite <- (join_split sep s), Hs).
        done.
      * intros Hc. specialize (IH Hc). by destruct s.
    + intros Hc. specialize (IH Hc). by destruct s.
Qed.

(** X5: the lines [decompress_index] returns, joined by newlines, are the
    stripped text: nothing inside the text is dropped or changed.  There is
    always at least one line, and no line holds a newline. *)
Theorem index_lines_rejoin text :
  join newline (decompress_index text) = strip text
  /\ decompress_index text <> []
  /\ Forall (fun l => has_char newline l = false) (decompress_index text).
Proof.
  unfold decompress_index.
  split; [apply join_split|]. split; [apply split_nonempty|apply split_pieces].
Qed.

(** X6: an index file that holds nothing but white space, or nothing at
    all, gives one empty identifier, not an empty list; no other text
    does. *)
Theorem blank_index_gives_one_empty_line text :
  decompress_index text = [""] <-> blank text = true.
Proof.
  unfold decompress_index, strip. split.
  - intros Hs. apply blank_lstrip, blank_rstrip.
    by rewrite <- (join_split newline (rstrip (lstrip text))), Hs.
  - intros Hb. by rewrite lstrip_blank.
Qed.

(** X7: white space around the text of the index, blank lines included,
    has no influence on the lines returned. *)
Theorem index_ignores_surrounding_space lead text trail :
  blank lead = true -> blank trail = true ->
  decompress_index (lead ++ text ++ trail) = decompress_index text.
Proof.
  intros Hl Ht. unfold decompress_index. f_equal.
  unfold strip at 1. rewrite lstrip_app_blank by done.
  by apply strip_app_blank.
Qed.

Lemma index_ignores_surrounding_space_witness :
  decompress_index
    (String newline " " ++ "ExportWeapons_en.json!abc" ++ String newline "")
  = decompress_index "ExportWeapons_en.json!abc".
Proof.
  apply (index_ignores_surrounding_space (String newline " ")
           "ExportWeapons_en.json!abc" (String newline "")); reflexivity.
Defined.

(** X8: the first line returned does not begin with white space and the
    last one does not end with it. *)
Theorem index_outer_lines_trimmed text c :
  (first_char (hd "" (decompress_index text)) = Some c -> is_space c = false)
  /\ (last_char (List.last (decompress_index text) "") = Some c ->
      is_space c = false).
Proof.
  unfold decompress_index, strip. split.
  - intros Hc%first_char_first_piece%first_char_rstrip.
    by eapply first_char_lstrip.
  - intros Hc%last_char_last_piece. by eapply last_char_rstrip.
Qed.

End IndexMore.

(** ** The download of the manifests *)

Module DownloadFacts.
Import Index Json Downloader IndexFacts IndexMore.
Local Open Scope string_scope.

Lemma first_piece_prefix sep s :
  has_char sep (hd "" (split sep s)) = false
  /\ exists rest, s = hd "" (split sep s) ++ rest
       /\ (rest = "" \/ first_char rest = Some sep).
Proof.
  induction s as [|c s [IHc (rest & IHs & IHr)]]; simpl.
  - split; [done|]. exists "". by split; [|left].
  - destruct (Ascii.eqb c sep) eqn:Hc.
    + split; [done|]. exists (String c s). split; [done|]. right.
      simpl. by apply Ascii.eqb_eq in Hc as ->.
    + pose proof (split_nonempty sep s) as Hne.
      destruct (split sep s) as [|p rest']; [done|]. simpl in *.
      rewrite Hc. split; [done|]. exists rest. split; [|done].
      by rewrite IHs at 1.
Qed.

(** X9: the file name the main block derives from a line of the index is
    the part of the line before its first [!]: it holds no [!], and the
    line is the file name followed by nothing or by a rest that begins
    with [!]. *)
Theorem filename_is_the_part_before_the_hash manifest :
  has_char "!"%char (filename manifest) = false
  /\ exists rest, manifest = filename manifest ++ rest
       /\ (rest = "" \/ first_char rest = Some "!"%char).
Proof. apply first_piece_prefix. Qed.

Section Loop.

Variable fetch : string -> option json.
Variable writable : string -> bool.
Variable path_join : string -> string -> string.

Lemma save_manifest_files st manifest path :
  fst (save_manifest fetch writable path_join st manifest) !! path
  = match written_at fetch writable path_join path manifest with
    | Some data => Some data
    | None => fst st !! path
    end.
Proof.
  unfold save_manifest, written_at, download_manifest_json.
  destruct (fetch _) as [data|]; [|done].
  destruct (negb (String.eqb _ "")); [|done].
  destruct (writable _); [|done]. simpl.
  destruct (String.eqb _ path) eqn:Hp.
  - apply String.eqb_eq in Hp as ->. by rewrite lookup_insert_eq.
  - apply String.eqb_neq in Hp. by rewrite lookup_insert_ne.
Qed.

End Loop.

(** X10: after the loop of the main block, a file holds the body fetched
    for the last line of the index that was written at its path, and a
    file no line was written at is as it was before. *)
Theorem files_hold_the_last_download fetch writable path_join manifests st path :
  fst (save_manifests fetch writable path_join manifests st) !! path
  = match last (omap (written_at fetch writable path_join path) manifests) with
    | Some data => Some data
    | None => fst st !! path
    end.
Proof.
  unfold save_manifests.
  induction manifests as [|m ms IH] using rev_ind; [done|].
  rewrite foldl_app, omap_app. simpl. rewrite save_manifest_files.
  destruct (written_at _ _ _ path m) as [data|].
  - by rewrite last_snoc.
  - by rewrite app_nil_r.
Qed.

(** X11: a line of the index whose download fails, at the request, at the
    parsing of the body or at the opening of the file, is reported and
    changes no file; the loop goes on with the lines after it, and the
    files end as if the line had not been in the index. *)
Theorem failed_download_is_skipped fetch writable path_join pre manifest post st :
  snd (download_manifest_json fetch writable manifest
         (Some (path_join "data_raw" (filename manifest)))
         (fst (save_manifests fetch writable path_join pre st))) = None ->
  let st1 := save_manifests fetch writable path_join pre st in
  save_manifests fetch writable path_join (pre ++ manifest :: post) st
  = save_manifests fetch writable path_join post
      (fst st1, (snd st1 ++ [Failed manifest])%list)
  /\ fst (save_manifests fetch writable path_join (pre ++ manifest :: post) st)
     = fst (save_manifests fetch writable path_join (pre ++ post) st).
Proof.
  intros Hfail st1.
  assert (save_manifest fetch writable path_join st1 manifest
          = (fst st1, (snd st1 ++ [Failed manifest])%list)) as Hstep.
  { unfold save_manifest. fold st1 in Hfail.
    unfold download_manifest_json in *.
    destruct (fetch _); [|done].
    destruct (negb _); [|done]. by destruct (writable _). }
  unfold save_manifests. rewrite !foldl_app. simpl.
  fold (save_manifests fetch writable path_join pre st). fold st1.
  rewrite Hstep. split; [done|].
  assert (forall ms fs log1 log2,
    fst (foldl (save_manifest fetch writable path_join) (fs, log1) ms)
    = fst (foldl (save_manifest fetch writable path_join) (fs, log2) ms))
    as Hlog.
  { induction ms as [|m ms IH]; intros fs log1 log2; [done|]. simpl.
    unfold save_manifest at 2 4. simpl.
    destruct (download_manifest_json fetch writable m _ fs) as [fs' [d|]];
      apply IH. }
  destruct st1 as [fs1 log1]. apply Hlog.
Qed.

Lemma failed_download_is_skipped_witness :
  let run := save_manifests Example.fetch Example.writable Example.path_join in
  let st1 := run ["ExportWeapons_en.json!a1"] (∅, []) in
  run ["ExportWeapons_en.json!a1"; "ExportGear_en.json!c3";
       "ExportWeapons_en.json!b2"] (∅, [])
  = run ["ExportWeapons_en.json!b2"]
      (fst st1, (snd st1 ++ [Failed "ExportGear_en.json!c3"])%list)
  /\ fst (run ["ExportWeapons_en.json!a1"; "ExportGear_en.json!c3";
                "ExportWeapons_en.json!b2"] (∅, []))
     = fst (run ["ExportWeapons_en.json!a1"; "ExportWeapons_en.json!b2"]
              (∅, [])).
Proof.
  apply (failed_download_is_skipped Example.fetch Example.writable
           Example.path_join ["ExportWeapons_en.json!a1"]
           "ExportGear_en.json!c3" ["ExportWeapons_en.json!b2"] (∅, [])).
  reflexivity.
Defined.

End DownloadFacts.

(** ** What a run keeps *)

Module KeepFacts.
Import Json Graph Invariants JsonFacts StoreFacts ModelFacts UpsertFacts.
Import AbsorbFacts PassFacts MergeFacts CategoryFacts RerunFacts KeyFacts.
Local Open Scope string_scope.
Local Open Scope nat_scope.

Lemma keeps_refl s : keeps s s.
Proof. split; [|done]. intros i n Hn. exists n. by repeat split. Qed.

Lemma keeps_trans s1 s2 s3 : keeps s1 s2 -> keeps s2 s3 -> keeps s1 s3.
Proof.
  intros [Hn12 He12] [Hn23 He23]. split; [|set_solver].
  intros i n Hn.
  destruct (Hn12 i n Hn) as (n2 & Hn2 & Hl2 & Hu2 & Hk2 & Hc2).
  destruct (Hn23 i n2 Hn2) as (n3 & Hn3 & Hl3 & Hu3 & Hk3 & Hc3).
  exists n3. repeat split; [done|congruence|congruence|auto|].
  intros Hc. rewrite <- (Hc2 Hc). apply Hc3. congruence.
Qed.

Lemma keeps_same_nodes s s' :
  nodes s' = nodes s -> edges s ⊆ edges s' -> keeps s s'.
Proof.
  intros Hn He. split; [|done]. intros i n Hi. exists n.
  rewrite Hn. by repeat split.
Qed.

Lemma keeps_extend s s' extra :
  nodes s' = (nodes s ++ extra)%list -> edges s ⊆ edges s' -> keeps s s'.
Proof.
  intros Hn He. split; [|done]. intros i n Hi. exists n.
  rewrite Hn. repeat split; try done. by apply lookup_app_l_Some.
Qed.

Lemma null_free_lookup (props : dict) k :
  null_free props = true ->
  (list_to_map props : gmap string json) !! k <> Some JNull.
Proof.
  intros Hnf. rewrite list_to_map_dict_get.
  induction props as [|[k' v] props IH]; simpl in *; [done|].
  apply andb_true_iff in Hnf as [Hv Hnf].
  destruct (String.eqb k' k); [|by apply IH].
  intros [= ->]. done.
Qed.

Lemma upsert_node_keeps L op n :
  dict_get "uniqueName" (snd op) = None ->
  null_free (snd op) = true ->
  n_label (upsert_node L op n) = n_label n
  /\ n_props (upsert_node L op n) !! "uniqueName" = n_props n !! "uniqueName"
  /\ (forall k, is_Some (n_props n !! k) ->
        is_Some (n_props (upsert_node L op n) !! k))
  /\ (L <> Category -> n_label n = Category -> upsert_node L op n = n).
Proof.
  intros Hkey Hnf. split; [apply upsert_node_label|].
  split; [by apply upsert_node_key|]. split.
  - intros k Hk. unfold upsert_node.
    destruct (node_matches _ _ _ n); [|done]. simpl.
    rewrite set_plus_lookup.
    pose proof (null_free_lookup (snd op) k Hnf) as Hnull.
    destruct (list_to_map (snd op) !! k) as [[]|]; done.
  - intros HL Hc. apply upsert_node_other. congruence.
Qed.

Section Keep.

Variable storable : json -> bool.
Variable coerce : ftype -> json -> option json.
Variable py_str : json -> string.

Lemma apply_upsert_keeps L op s :
  L <> Category ->
  dict_get "uniqueName" (snd op) = None ->
  null_free (snd op) = true ->
  keeps s (apply_upsert storable L s op).
Proof.
  intros HL Hkey Hnf.
  destruct (accepted storable op) eqn:Hacc;
    [|rewrite apply_upsert_rejected by done; apply keeps_refl].
  destruct (existsb (node_matches L "uniqueName" (fst op)) (nodes s)) eqn:Hex.
  - rewrite apply_upsert_present by done. split; [|done].
    intros i n Hn. exists (upsert_node L op n). simpl.
    rewrite list_lookup_fmap, Hn. split; [done|].
    destruct (upsert_node_keeps L op n Hkey Hnf) as (? & ? & ? & ?). auto.
  - rewrite apply_upsert_absent by done. by eapply keeps_extend.
Qed.

Lemma run_upserts_keeps L ops s :
  L <> Category ->
  (forall op, Some op ∈ ops ->
     dict_get "uniqueName" (snd op) = None /\ null_free (snd op) = true) ->
  keeps s (run_upserts storable L ops s).
Proof.
  intros HL. revert s. induction ops as [|o ops IH]; intros s Hops.
  - apply keeps_refl.
  - rewrite run_upserts_cons.
    eapply keeps_trans;
      [|apply IH; intros op Hop; apply Hops; by apply list_elem_of_further].
    destruct o as [op|]; [|apply keeps_refl].
    destruct (Hops op) as [Hk Hn]; [apply list_elem_of_here|].
    by apply apply_upsert_keeps.
Qed.

Lemma model_dump_null_free excl m : null_free (model_dump excl m) = true.
Proof.
  unfold null_free, model_dump. apply forallb_forall.
  intros kv [_ Hkv]%filter_In. by apply andb_true_iff in Hkv as [_ ?].
Qed.

Lemma dict_set_null_free k v d :
  is_null v = false -> null_free d = true -> null_free (dict_set k v d) = true.
Proof.
  intros Hv. induction d as [|[k' w] d IH]; simpl.
  - by rewrite Hv.
  - intros [Hw Hd]%andb_true_iff. destruct (String.eqb k' k); simpl.
    + by rewrite Hv.
    + by rewrite Hw, IH.
Qed.

Lemma filter_null_free (P : string * json -> bool) d :
  null_free d = true -> null_free (List.filter P d) = true.
Proof.
  unfold null_free. rewrite !forallb_forall.
  intros Hd kv [Hkv _]%filter_In. by apply Hd.
Qed.

Lemma weapon_props_null_free weapon :
  null_free (weapon_props py_str weapon) = true.
Proof.
  unfold weapon_props. apply filter_null_free.
  destruct (dict_get "damagePerShot" _) as [v|];
    [|apply model_dump_null_free].
  destruct (py_truthy v); [|apply model_dump_null_free].
  apply dict_set_null_free; [done|apply model_dump_null_free].
Qed.

Lemma resource_ops_keep rs op :
  Some op ∈ map (resource_op coerce) rs ->
  dict_get "uniqueName" (snd op) = None /\ null_free (snd op) = true.
Proof.
  intros Hop. split; [by eapply resource_ops_key_free|].
  apply list_elem_of_fmap in Hop as (raw & Hraw & _).
  unfold resource_op in Hraw. destruct raw; try done.
  destruct (validate _ _ _); [|done]. injection Hraw as ->.
  apply model_dump_null_free.
Qed.

Lemma recipe_ops_keep rs op :
  Some op ∈ map (recipe_op coerce) rs ->
  dict_get "uniqueName" (snd op) = None /\ null_free (snd op) = true.
Proof.
  intros Hop. split; [by eapply recipe_ops_key_free|].
  apply list_elem_of_fmap in Hop as (raw & Hraw & _).
  unfold recipe_op in Hraw. destruct raw; try done.
  destruct (validate _ _ _); [|done]. injection Hraw as ->.
  apply model_dump_null_free.
Qed.

Lemma weapon_ops_keep ws op :
  Some op ∈ map (weapon_op coerce py_str) ws ->
  dict_get "uniqueName" (snd op) = None /\ null_free (snd op) = true.
Proof.
  intros Hop. split; [by eapply weapon_ops_key_free|].
  apply list_elem_of_fmap in Hop as (raw & Hraw & _).
  unfold weapon_op in Hraw. destruct raw; try done.
  destruct (validate _ _ _); [|done]. injection Hraw as ->.
  apply weapon_props_null_free.
Qed.

Lemma for_each_edges {A} (body : A -> store -> store * option exn) items s :
  (forall x s0, edges s0 ⊆ edges (fst (body x s0))) ->
  edges s ⊆ edges (fst (for_each body items s)).
Proof.
  intros Hbody. revert s. induction items as [|x items IH]; intros s; [done|].
  simpl. pose proof (Hbody x s) as Hx.
  destruct (body x s) as [s' [e|]]; [done|].
  etrans; [apply Hx|apply IH].
Qed.

Lemma merge_edge_keeps_edges La ka va Lb kb vb T q s :
  match cypher_match_merge_edge storable La ka va Lb kb vb T q s with
  | Returned (s', _) => edges s ⊆ edges s'
  | Raised _ => True
  end.
Proof.
  destruct (cypher_match_merge_edge _ _ _ _ _ _ _ _ _ _) as [[s' cnt]|] eqn:H;
    [|done].
  by apply merge_edge_mono in H as [_ ?].
Qed.

Lemma create_builds_edges d s :
  edges s ⊆ edges (fst (create_builds storable d s)).
Proof.
  unfold create_builds. destruct (py_truthy _); [|done].
  pose proof (merge_edge_keeps_edges Recipe "uniqueName"
    (dict_get_default "uniqueName" JNull d) Weapon "uniqueName"
    (dict_get_default "resultType" JNull d) BUILDS
    (Some (dict_get_default "num" (JNum 1) d)) s) as H1.
  destruct (cypher_match_merge_edge _ _ _ _ _ _ _ _ _ s) as [[s1 cnt]|];
    [|done].
  destruct (Nat.eqb cnt 0); [|done].
  pose proof (merge_edge_keeps_edges Recipe "uniqueName"
    (dict_get_default "uniqueName" JNull d) Resource "uniqueName"
    (dict_get_default "resultType" JNull d) BUILDS
    (Some (dict_get_default "num" (JNum 1) d)) s1) as H2.
  destruct (cypher_match_merge_edge _ _ _ _ _ _ _ _ _ s1) as [[s2 cnt2]|];
    [|done].
  simpl. set_solver.
Qed.

Lemma create_requires_edges ru ingredient s :
  edges s ⊆ edges (fst (create_requires storable ru ingredient s)).
Proof.
  unfold create_requires.
  destruct (py_get "ItemType" _ _) as [item_type|]; [|done].
  destruct (py_get "ItemCount" _ _) as [item_count|]; [|done].
  destruct (py_truthy _); [|done].
  pose proof (merge_edge_keeps_edges Recipe "uniqueName" ru
    Resource "uniqueName" item_type REQUIRES (Some item_count) s) as H1.
  by destruct (cypher_match_merge_edge _ _ _ _ _ _ _ _ _ s) as [[s1 cnt]|].
Qed.

Lemma recipe_relationships_edges raw s :
  edges s ⊆ edges (fst (recipe_relationships storable raw s)).
Proof.
  unfold recipe_relationships. destruct raw as [| | | | |d]; try done.
  pose proof (create_builds_edges d s) as Hb.
  destruct (create_builds storable d s) as [s1 [e|]]; [done|].
  destruct (py_iter _) as [items|]; [|done].
  etrans; [apply Hb|]. apply for_each_edges. apply create_requires_edges.
Qed.

Lemma relationships_keep rcs s :
  keeps s (fst (_create_recipe_relationships storable rcs s)).
Proof.
  apply keeps_same_nodes.
  - apply for_each_nodes. apply recipe_relationships_nodes.
  - apply for_each_edges. apply recipe_relationships_edges.
Qed.

Lemma ingest_resources_keeps rs st :
  keeps (fst st) (fst (ingest_resources storable coerce rs st)).
Proof.
  rewrite ingest_resources_run. apply run_upserts_keeps; [done|].
  apply resource_ops_keep.
Qed.

Lemma upsert_recipes_keeps rcs st :
  keeps (fst st) (fst (upsert_recipes storable coerce rcs st)).
Proof.
  rewrite upsert_recipes_run. apply run_upserts_keeps; [done|].
  apply recipe_ops_keep.
Qed.

Lemma ingest_recipes_keeps rcs st :
  keeps (fst st) (fst (fst (ingest_recipes storable coerce rcs st))).
Proof.
  unfold ingest_recipes.
  pose proof (relationships_keep rcs
                (fst (upsert_recipes storable coerce rcs st))) as Hr.
  destruct (_create_recipe_relationships _ _ _) as [s2 err]. simpl in *.
  eapply keeps_trans; [apply upsert_recipes_keeps|done].
Qed.

Lemma ingest_weapons_keeps ws st :
  keeps (fst st) (fst (fst (ingest_weapons storable coerce py_str ws st))).
Proof.
  unfold ingest_weapons, upsert_weapons.
  pose proof (weapon_loop_run storable coerce py_str ws (st, [])) as Hrun.
  destruct (foldl _ _ ws) as [st1 cats]. simpl in Hrun.
  unfold _create_weapon_categories.
  destruct (for_each _ cats (fst st1)) as [s2 err] eqn:Hlink. simpl.
  apply link_loop_shape in Hlink as (extra & Hn & _ & He).
  eapply keeps_trans; [|by eapply keeps_extend].
  rewrite Hrun. apply run_upserts_keeps; [done|]. apply weapon_ops_keep.
Qed.

End Keep.

(** X12: a run of [ingest_all] that does not clear the database deletes
    nothing, whether it completes or stops at an exception: every node of
    the store is at its place afterwards, with its label, its [uniqueName]
    and every property it had (a value may have been overwritten, but no
    property is removed, since null fields are left out of what is
    written), a Category node is unchanged, and every relationship is still
    there. *)
Theorem ingest_never_deletes storable coerce py_str rs ws rcs st :
  keeps (fst st)
    (fst (fst (ingest_all storable coerce py_str false rs ws rcs st))).
Proof.
  unfold ingest_all.
  pose proof (ingest_resources_keeps storable coerce rs st) as H1.
  pose proof (ingest_weapons_keeps storable coerce py_str ws
                (ingest_resources storable coerce rs st)) as H2.
  destruct (ingest_weapons _ _ _ ws _) as [st2 [e|]]; simpl in *.
  - by eapply keeps_trans.
  - pose proof (ingest_recipes_keeps storable coerce rcs st2) as H3.
    eapply keeps_trans; [|apply H3]. by eapply keeps_trans.
Qed.

End KeepFacts.

(** ** The shape of the relationships *)

Module TypingFacts.
Import Json Graph Invariants JsonFacts StoreFacts ModelFacts UpsertFacts.
Import AbsorbFacts PassFacts MergeFacts CategoryFacts RerunFacts KeyFacts.
Import KeepFacts.
Local Open Scope string_scope.
Local Open Scope nat_scope.

Lemma label_at_keeps s s' i L :
  keeps s s' -> label_at s i = Some L -> label_at s' i = Some L.
Proof.
  intros [Hn _]. unfold label_at.
  destruct (nodes s !! i) as [n|] eqn:Hi; [|done]. simpl. intros [= <-].
  destruct (Hn i n Hi) as (n' & -> & Hl & _). simpl. by rewrite Hl.
Qed.

Lemma edge_typed_keeps s s' e :
  keeps s s' -> edge_typed s e = true -> edge_typed s' e = true.
Proof.
  intros Hk. unfold edge_typed.
  destruct (label_at s (e_src e)) as [La|] eqn:Ha;
    [|by destruct (e_type e)].
  destruct (label_at s (e_dst e)) as [Lb|] eqn:Hb;
    [|by destruct (e_type e), La].
  by rewrite (label_at_keeps s s' _ La Hk Ha), (label_at_keeps s s' _ Lb Hk Hb).
Qed.

Lemma typed_elem s : typed s = true <-> forall e, e ∈ edges s -> edge_typed s e = true.
Proof.
  unfold typed. rewrite forallb_forall.
  split; intros H e He; apply H; by apply list_elem_of_In.
Qed.

Lemma typed_keeps s s' :
  keeps s s' ->
  (forall e, e ∈ edges s' -> e ∈ edges s \/ edge_typed s' e = true) ->
  typed s = true -> typed s' = true.
Proof.
  intros Hk Hnew Ht. apply typed_elem. intros e He.
  destruct (Hnew e He) as [Hold|]; [|done].
  eapply edge_typed_keeps; [done|]. by apply typed_elem.
Qed.

Lemma match_ids_label L key v s i :
  i ∈ match_ids L key v s -> label_at s i = Some L.
Proof.
  intros (n & Hn & Hm)%match_ids_elem. unfold label_at. rewrite Hn. simpl.
  f_equal. by eapply node_matches_label.
Qed.

Section Typing.

Variable storable : json -> bool.
Variable coerce : ftype -> json -> option json.
Variable py_str : json -> string.

Lemma merge_edge_typed La ka va Lb kb vb T q s :
  (forall a b, label_at s a = Some La -> label_at s b = Some Lb ->
     match q with Some v => is_null v = false | None => True end ->
     edge_typed s (Edge a T q b) = true) ->
  typed s = true ->
  match cypher_match_merge_edge storable La ka va Lb kb vb T q s with
  | Returned (s', _) => typed s' = true
  | Raised _ => True
  end.
Proof.
  intros Hshape Ht.
  destruct (cypher_match_merge_edge _ _ _ _ _ _ _ _ _ _) as [[s' cnt]|] eqn:H;
    [|done].
  pose proof (merge_edge_mono _ _ _ _ _ _ _ _ _ _ _ _ H) as [Hn He].
  apply (typed_keeps s); [by apply keeps_same_nodes| |done].
  intros e Hin.
  apply (merge_edge_elem _ _ _ _ _ _ _ _ _ _ _ _ _ H) in Hin
    as [?|(a & b & Ha & Hb & ->)]; [by left|]. right.
  assert (edge_typed s (Edge a T q b) = true) as Hty.
  { apply Hshape; [by eapply match_ids_label..|].
    unfold cypher_match_merge_edge in H.
    assert ((a, b) ∈ list_prod (match_ids La ka va s) (match_ids Lb kb vb s))
      as Hrow by by apply elem_of_list_prod.
    destruct (list_prod _ _) as [|row rows]; [by apply elem_of_nil in Hrow|].
    destruct q as [v|]; [|done].
    destruct (is_null v); [done|done]. }
  revert Hty. unfold edge_typed, label_at. by rewrite Hn.
Qed.

Lemma for_each_inv {A} (P : store -> Prop)
    (body : A -> store -> store * option exn) items s :
  (forall x s0, P s0 -> P (fst (body x s0))) ->
  P s -> P (fst (for_each body items s)).
Proof.
  intros Hbody. revert s. induction items as [|x items IH]; intros s Hs;
    [done|].
  simpl. pose proof (Hbody x s Hs) as Hx.
  destruct (body x s) as [s' [e|]]; [done|]. by apply IH.
Qed.

Lemma typed_same_edges s s' :
  keeps s s' -> edges s' = edges s -> typed s = true -> typed s' = true.
Proof.
  intros Hk He. apply typed_keeps; [done|]. intros e. rewrite He. by left.
Qed.

Lemma merge_node_keeps L key v s :
  L = Category ->
  match cypher_merge_node storable L key v s with
  | Returned s' => keeps s s' /\ edges s' = edges s
  | Raised _ => True
  end.
Proof.
  intros ->.
  destruct (cypher_merge_node _ _ _ _ _) as [s'|] eqn:H; [|done].
  apply merge_node_lookup in H as [He [Hn|Hn]]; rewrite He.
  - split; [|done]. apply keeps_same_nodes; [done|]. by rewrite He.
  - split; [|done]. eapply keeps_extend; [done|]. by rewrite He.
Qed.

Lemma link_category_typed c s :
  typed s = true -> typed (fst (link_category storable c s)) = true.
Proof.
  intros Ht. unfold link_category.
  pose proof (merge_node_keeps Category "name" (JStr c) s eq_refl) as H1.
  destruct (cypher_merge_node _ _ _ _ _) as [s1|]; [|done].
  destruct H1 as [Hk He].
  assert (typed s1 = true) as Ht1 by by apply (typed_same_edges s).
  pose proof (merge_edge_typed Weapon "productCategory" (JStr c)
    Category "name" (JStr c) BELONGS_TO None s1) as H2.
  destruct (cypher_match_merge_edge _ _ _ _ _ _ _ _ _ _) as [[s2 cnt]|];
    [|done].
  apply H2; [|done]. intros a b Ha Hb _. unfold edge_typed. simpl.
  by rewrite Ha, Hb.
Qed.

Lemma create_builds_typed d s :
  typed s = true -> typed (fst (create_builds storable d s)) = true.
Proof.
  intros Ht. unfold create_builds. destruct (py_truthy _); [|done].
  pose proof (merge_edge_typed Recipe "uniqueName"
    (dict_get_default "uniqueName" JNull d) Weapon "uniqueName"
    (dict_get_default "resultType" JNull d) BUILDS
    (Some (dict_get_default "num" (JNum 1) d)) s) as H1.
  destruct (cypher_match_merge_edge _ _ _ _ _ _ _ _ _ s) as [[s1 cnt]|];
    [|done].
  assert (typed s1 = true) as Ht1.
  { apply H1; [|done]. intros a b Ha Hb Hq. unfold edge_typed. simpl.
    by rewrite Ha, Hb, Hq. }
  destruct (Nat.eqb cnt 0); [|done].
  pose proof (merge_edge_typed Recipe "uniqueName"
    (dict_get_default "uniqueName" JNull d) Resource "uniqueName"
    (dict_get_default "resultType" JNull d) BUILDS
    (Some (dict_get_default "num" (JNum 1) d)) s1) as H2.
  destruct (cypher_match_merge_edge _ _ _ _ _ _ _ _ _ s1) as [[s2 cnt2]|];
    [|done].
  apply H2; [|done]. intros a b Ha Hb Hq. unfold edge_typed. simpl.
  by rewrite Ha, Hb, Hq.
Qed.

Lemma create_requires_typed ru ingredient s :
  typed s = true ->
  typed (fst (create_requires storable ru ingredient s)) = true.
Proof.
  intros Ht. unfold create_requires.
  destruct (py_get "ItemType" _ _) as [item_type|]; [|done].
  destruct (py_get "ItemCount" _ _) as [item_count|]; [|done].
  destruct (py_truthy _); [|done].
  pose proof (merge_edge_typed Recipe "uniqueName" ru
    Resource "uniqueName" item_type REQUIRES (Some item_count) s) as H1.
  destruct (cypher_match_merge_edge _ _ _ _ _ _ _ _ _ s) as [[s1 cnt]|];
    [|done].
  apply H1; [|done]. intros a b Ha Hb Hq. unfold edge_typed. simpl.
  by rewrite Ha, Hb, Hq.
Qed.

Lemma recipe_relationships_typed raw s :
  typed s = true ->
  typed (fst (recipe_relationships storable raw s)) = true.
Proof.
  intros Ht. unfold recipe_relationships.
  destruct raw as [| | | | |d]; try done.
  pose proof (create_builds_typed d s Ht) as Hb.
  destruct (create_builds storable d s) as [s1 [e|]]; [done|].
  destruct (py_iter _) as [items|]; [|done].
  apply (for_each_inv (fun s => typed s = true)); [|done].
  intros x s0. apply create_requires_typed.
Qed.

Lemma run_upserts_typed L ops s :
  L <> Category ->
  (forall op, Some op ∈ ops ->
     dict_get "uniqueName" (snd op) = None /\ null_free (snd op) = true) ->
  typed s = true -> typed (run_upserts storable L ops s) = true.
Proof.
  intros HL Hops. apply typed_same_edges.
  - by apply run_upserts_keeps.
  - apply run_upserts_edges.
Qed.

Lemma ingest_weapons_typed ws st :
  typed (fst st) = true ->
  typed (fst (fst (ingest_weapons storable coerce py_str ws st))) = true.
Proof.
  intros Ht. unfold ingest_weapons, upsert_weapons.
  pose proof (weapon_loop_run storable coerce py_str ws (st, [])) as Hrun.
  destruct (foldl _ _ ws) as [st1 cats]. simpl in Hrun.
  unfold _create_weapon_categories.
  pose proof (for_each_inv (fun s => typed s = true)
                (link_category storable) cats (fst st1)) as Hlink.
  destruct (for_each _ cats (fst st1)) as [s2 err]. simpl in *.
  apply Hlink; [intros x s0; apply link_category_typed|].
  rewrite Hrun. apply run_upserts_typed; [done| |done].
  apply weapon_ops_keep.
Qed.

Lemma ingest_recipes_typed rcs st :
  typed (fst st) = true ->
  typed (fst (fst (ingest_recipes storable coerce rcs st))) = true.
Proof.
  intros Ht. unfold ingest_recipes.
  pose proof (for_each_inv (fun s => typed s = true)
                (recipe_relationships storable) rcs
                (fst (upsert_recipes storable coerce rcs st))) as Hrel.
  unfold _create_recipe_relationships.
  destruct (for_each _ rcs _) as [s2 err]. simpl in *.
  apply Hrel; [intros x s0; apply recipe_relationships_typed|].
  rewrite upsert_recipes_run. apply run_upserts_typed; [done| |done].
  apply recipe_ops_keep.
Qed.

End Typing.

(** X13: a run of [ingest_all], completed or not, leaves a store in which
    every BUILDS relationship goes from a Recipe node to a Weapon or
    Resource node and every REQUIRES relationship from a Recipe node to a
    Resource node, each with a quantity that is not null, and every
    BELONGS_TO relationship goes from a Weapon node to a Category node and
    has no quantity; this supposes the same of the store the run starts
    from, unless the run clears it. *)
Theorem relationships_are_typed storable coerce py_str clear rs ws rcs st :
  (clear = false -> typed (fst st) = true) ->
  typed (fst (fst (ingest_all storable coerce py_str clear rs ws rcs st)))
  = true.
Proof.
  intros Hst. unfold ingest_all.
  assert (typed (fst (if clear then clear_database st else st)) = true) as H0.
  { destruct clear; [done|by apply Hst]. }
  assert (typed (fst (ingest_resources storable coerce rs
                        (if clear then clear_database st else st))) = true)
    as H1.
  { rewrite ingest_resources_run. apply run_upserts_typed; [done| |done].
    apply resource_ops_keep. }
  pose proof (ingest_weapons_typed storable coerce py_str ws _ H1) as H2.
  destruct (ingest_weapons _ _ _ ws _) as [st2 [e|]]; [done|].
  by apply ingest_recipes_typed.
Qed.

Lemma relationships_are_typed_witness :
  typed (fst (fst (Scenario.run false [Scenario.Res1] [Scenario.W1]
                     [Scenario.R1] Scenario.fresh))) = true.
Proof.
  apply (relationships_are_typed neo4j_storable strict_coerce Scenario.show
           false [Scenario.Res1] [Scenario.W1] [Scenario.R1] Scenario.fresh).
  reflexivity.
Defined.

End TypingFacts.

(** ** The fields every node carries *)

Module KeyedFacts.
Import Json Graph Invariants JsonFacts StoreFacts ModelFacts UpsertFacts.
Import AbsorbFacts PassFacts MergeFacts CategoryFacts RerunFacts KeyFacts.
Import KeepFacts TypingFacts.
Local Open Scope string_scope.
Local Open Scope nat_scope.

Lemma keyed_elem s : keyed s = true <-> forall n, n ∈ nodes s -> node_keyed n = true.
Proof.
  unfold keyed. rewrite forallb_forall.
  split; intros H e He; apply H; by apply list_elem_of_In.
Qed.

Lemma node_keyed_fields L n :
  L <> Category -> n_label n = L ->
  node_keyed n
  = is_str (n_props n !! "uniqueName")
    && is_str (n_props n !! second_field L).
Proof. intros HL <-. unfold node_keyed. by destruct (n_label n). Qed.

Section Required.

Variable coerce : ftype -> json -> option json.

Lemma validate_required k1 k2 fs d m :
  validate coerce (Field k1 TStr true :: Field k2 TStr true :: fs) d = Some m ->
  exists u v rest, m = (k1, JStr u) :: (k2, JStr v) :: rest.
Proof.
  unfold validate. cbn [validate_fields].
  unfold validate_field at 1 2. cbn [f_name f_type f_required validate_value].
  destruct (dict_get k1 d) as [[| | |u| |]|]; try done.
  destruct (dict_get k2 d) as [[| | |v| |]|]; try done.
  destruct (validate_fields coerce fs d) as [m'|]; [|done].
  intros [= <-]. by eexists _, _, _.
Qed.

End Required.

Section Keyed.

Variable storable : json -> bool.
Variable coerce : ftype -> json -> option json.
Variable py_str : json -> string.

Lemma upsert_node_keyed L op n :
  L <> Category -> sound_op L op ->
  node_keyed n = true -> node_keyed (upsert_node L op n) = true.
Proof.
  intros HL (_ & Hsecond & Hkey & _) Hn. unfold upsert_node.
  destruct (node_matches L "uniqueName" (fst op) n) eqn:Hm; [|done].
  apply node_matches_label in Hm.
  rewrite (node_keyed_fields L) in Hn by done.
  rewrite (node_keyed_fields L) by done.
  apply andb_true_iff in Hn as [Hu _]. simpl.
  rewrite !set_plus_lookup, !list_to_map_dict_get, Hkey, Hu. simpl.
  destruct (dict_get (second_field L) (snd op)) as [[]|]; done.
Qed.

Lemma apply_upsert_keyed L op s :
  L <> Category -> sound_op L op ->
  keyed s = true -> keyed (apply_upsert storable L s op) = true.
Proof.
  intros HL Hop Hs.
  destruct (accepted storable op) eqn:Hacc;
    [|by rewrite apply_upsert_rejected].
  rewrite keyed_elem in Hs. apply keyed_elem.
  destruct (existsb (node_matches L "uniqueName" (fst op)) (nodes s)) eqn:Hex.
  - rewrite apply_upsert_present by done. simpl.
    intros n' (n & -> & Hn)%list_elem_of_fmap.
    apply upsert_node_keyed; auto.
  - rewrite apply_upsert_absent by done. simpl.
    intros n' [Hn|Hn%list_elem_of_singleton]%elem_of_app; [auto|].
    subst n'. destruct Hop as ((u & Hu) & Hsecond & Hkey & Hnf).
    unfold upsert_node.
    rewrite node_matches_new
      by (by rewrite Hu).
    rewrite (node_keyed_fields L) by done. simpl.
    rewrite !set_plus_lookup, !list_to_map_dict_get, Hkey.
    rewrite lookup_singleton_eq, Hu. simpl.
    destruct (dict_get (second_field L) (snd op)) as [[]|]; done.
Qed.

Lemma run_upserts_keyed L ops s :
  L <> Category ->
  (forall op, Some op ∈ ops -> sound_op L op) ->
  keyed s = true -> keyed (run_upserts storable L ops s) = true.
Proof.
  intros HL. revert s. induction ops as [|o ops IH]; intros s Hops Hs; [done|].
  rewrite run_upserts_cons. apply IH.
  - intros op Hop. apply Hops. by apply list_elem_of_further.
  - destruct o as [op|]; [|done]. apply apply_upsert_keyed; [done| |done].
    apply Hops, list_elem_of_here.
Qed.

Lemma resource_ops_sound rs op :
  Some op ∈ map (resource_op coerce) rs -> sound_op Resource op.
Proof.
  intros Hop. destruct (resource_ops_keep coerce rs op Hop) as [Hk Hn].
  apply list_elem_of_fmap in Hop as (raw & Hraw & _).
  unfold resource_op in Hraw. destruct raw as [| | | | |d]; try done.
  destruct (validate _ _ _) as [m|] eqn:Hv; [|done]. injection Hraw as ->.
  apply validate_required in Hv as (u & v & rest & ->).
  split; [by exists u|]. by repeat split.
Qed.

Lemma recipe_ops_sound rs op :
  Some op ∈ map (recipe_op coerce) rs -> sound_op Recipe op.
Proof.
  intros Hop. destruct (recipe_ops_keep coerce rs op Hop) as [Hk Hn].
  apply list_elem_of_fmap in Hop as (raw & Hraw & _).
  unfold recipe_op in Hraw. destruct raw as [| | | | |d]; try done.
  destruct (validate _ _ _) as [m|] eqn:Hv; [|done]. injection Hraw as ->.
  apply validate_required in Hv as (u & v & rest & ->).
  split; [by exists u|]. by repeat split.
Qed.

Lemma dict_set_skip k v k' w d :
  String.eqb k' k = false ->
  dict_set k v ((k', w) :: d) = (k', w) :: dict_set k v d.
Proof. intros H. simpl. by rewrite H. Qed.

Lemma weapon_ops_sound ws op :
  Some op ∈ map (weapon_op coerce py_str) ws -> sound_op Weapon op.
Proof.
  intros Hop. destruct (weapon_ops_keep coerce py_str ws op Hop) as [Hk Hn].
  apply list_elem_of_fmap in Hop as (raw & Hraw & _).
  unfold weapon_op in Hraw. destruct raw as [| | | | |d]; try done.
  destruct (validate _ _ _) as [m|] eqn:Hv; [|done]. injection Hraw as ->.
  apply validate_required in Hv as (u & v & rest & ->).
  split; [by exists u|]. split; [|done]. simpl.
  unfold weapon_props.
  change (model_dump [] (("uniqueName", JStr u) :: ("name", JStr v) :: rest))
    with (("uniqueName", JStr u) :: ("name", JStr v) :: model_dump [] rest).
  change (dict_get "damagePerShot"
            (("uniqueName", JStr u) :: ("name", JStr v) :: model_dump [] rest))
    with (dict_get "damagePerShot" (model_dump [] rest)).
  destruct (dict_get "damagePerShot" (model_dump [] rest)) as [x|]; [|done].
  destruct (py_truthy x); [|done].
  by rewrite !dict_set_skip by done.
Qed.

Lemma weapon_loop_named ws acc :
  Forall (fun c => c <> "") (snd acc) ->
  Forall (fun c => c <> "")
    (snd (foldl (ingest_weapon storable coerce py_str) acc ws)).
Proof.
  revert acc. induction ws as [|w ws IH]; intros acc Hacc; [done|].
  simpl. apply IH. destruct acc as [st cats]. unfold ingest_weapon.
  destruct w as [| | | | |d]; try done.
  destruct (validate _ _ _) as [m|]; [|done].
  destruct (cypher_merge_node_set _ _ _ _ _ _); [|done]. cbn [snd fst].
  destruct (dict_get_default "productCategory" JNull m) as [| | |c| |];
    try done.
  destruct (py_truthy (JStr c)) eqn:Hc; [|done].
  unfold set_add. destruct (mem_string c cats); [done|].
  apply Forall_app. split; [done|]. constructor; [|done].
  intros ->. done.
Qed.

Lemma ingest_weapons_keyed ws st :
  keyed (fst st) = true ->
  keyed (fst (fst (ingest_weapons storable coerce py_str ws st))) = true.
Proof.
  intros Hs. unfold ingest_weapons, upsert_weapons.
  pose proof (weapon_loop_run storable coerce py_str ws (st, [])) as Hrun.
  pose proof (weapon_loop_named ws (st, []) (List.Forall_nil _)) as Hcats.
  destruct (foldl _ _ ws) as [st1 cats]. simpl in Hrun, Hcats.
  unfold _create_weapon_categories.
  destruct (for_each _ cats (fst st1)) as [s2 err] eqn:Hlink. simpl.
  apply link_loop_shape in Hlink as (extra & Hn & Hextra & _).
  assert (keyed (fst st1) = true) as H1.
  { rewrite Hrun. apply run_upserts_keyed; [done| |done].
    apply weapon_ops_sound. }
  rewrite keyed_elem in H1. apply keyed_elem. rewrite Hn.
  intros n [?|Hin]%elem_of_app; [auto|].
  rewrite Forall_forall in Hextra.
  destruct (Hextra n Hin) as (c & Hc & ->).
  rewrite Forall_forall in Hcats. specialize (Hcats c Hc).
  unfold node_keyed, category_node. simpl. rewrite lookup_singleton_eq.
  apply negb_true_iff, String.eqb_neq. done.
Qed.

Lemma ingest_recipes_keyed rcs st :
  keyed (fst st) = true ->
  keyed (fst (fst (ingest_recipes storable coerce rcs st))) = true.
Proof.
  intros Hs. unfold ingest_recipes.
  pose proof (for_each_nodes (recipe_relationships storable) rcs
                (fst (upsert_recipes storable coerce rcs st))
                (recipe_relationships_nodes storable)) as Hn.
  unfold _create_recipe_relationships.
  destruct (for_each _ rcs _) as [s2 err]. simpl in *.
  unfold keyed. rewrite Hn. fold (keyed (fst (upsert_recipes storable coerce rcs st))).
  rewrite upsert_recipes_run. apply run_upserts_keyed; [done| |done].
  apply recipe_ops_sound.
Qed.

End Keyed.

(** X14: a run of [ingest_all], completed or not, leaves a store in which
    every Weapon and Resource node carries a [uniqueName] and a [name] that
    are strings, every Recipe node a [uniqueName] and a [resultType] that
    are strings, and every Category node a non-empty [name]; this supposes
    the same of the store the run starts from, unless the run clears
    it. *)
Theorem nodes_carry_required_fields storable coerce py_str clear rs ws rcs st :
  (clear = false -> keyed (fst st) = true) ->
  keyed (fst (fst (ingest_all storable coerce py_str clear rs ws rcs st)))
  = true.
Proof.
  intros Hst. unfold ingest_all.
  assert (keyed (fst (if clear then clear_database st else st)) = true) as H0.
  { destruct clear; [done|by apply Hst]. }
  assert (keyed (fst (ingest_resources storable coerce rs
                        (if clear then clear_database st else st))) = true)
    as H1.
  { rewrite ingest_resources_run. apply run_upserts_keyed; [done| |done].
    apply resource_ops_sound. }
  pose proof (ingest_weapons_keyed storable coerce py_str ws _ H1) as H2.
  destruct (ingest_weapons _ _ _ ws _) as [st2 [e|]]; [done|].
  by apply ingest_recipes_keyed.
Qed.

Lemma nodes_carry_required_fields_witness :
  keyed (fst (fst (Scenario.run false [Scenario.Res1] [Scenario.W1]
                     [Scenario.R1] Scenario.fresh))) = true.
Proof.
  apply (nodes_carry_required_fields neo4j_storable strict_coerce
           Scenario.show false [Scenario.Res1] [Scenario.W1] [Scenario.R1]
           Scenario.fresh).
  reflexivity.
Defined.

End KeyedFacts.

(** ** One node for each key *)

Module UniqueFacts.
Import Json Graph Invariants JsonFacts StoreFacts ModelFacts UpsertFacts.
Import AbsorbFacts PassFacts MergeFacts CategoryFacts RerunFacts KeyFacts.
Import KeepFacts TypingFacts.
Local Open Scope string_scope.
Local Open Scope nat_scope.

Lemma unique_categories_frozen s s' :
  frozen Category s s' -> unique_categories s -> unique_categories s'.
Proof.
  intros Hf Hu v i j n m Hi Hj Hn Hm.
  apply (Hu v i j n m); [|  |done|done].
  - apply Hf; [by eapply node_matches_label|done].
  - apply Hf; [by eapply node_matches_label|done].
Qed.

Lemma unique_categories_same_nodes s s' :
  nodes s' = nodes s -> unique_categories s -> unique_categories s'.
Proof. intros Hn Hu v i j n m. rewrite Hn. apply Hu. Qed.

Section Unique.

Variable storable : json -> bool.
Variable coerce : ftype -> json -> option json.
Variable py_str : json -> string.

Lemma merge_node_unique v s :
  unique_categories s ->
  match cypher_merge_node storable Category "name" v s with
  | Returned s' => unique_categories s'
  | Raised _ => True
  end.
Proof.
  intros Hu. unfold cypher_merge_node.
  destruct (is_null v || negb (storable v)) eqn:Hv; [done|].
  destruct (existsb _ (nodes s)) eqn:Hex; [done|].
  intros w i j n m Hi Hj Hn Hm. simpl in Hi, Hj.
  assert (forall k x, nodes s !! k = Some x ->
            node_matches Category "name" w x = true -> w <> v) as Hold.
  { intros k x Hk Hx ->.
    assert (existsb (node_matches Category "name" v) (nodes s) = true)
      as Hyes; [|congruence].
    apply existsb_exists. exists x. split; [|done].
    apply list_elem_of_In. by eapply list_elem_of_lookup_2. }
  apply lookup_app_Some in Hi as [Hi|[Hli Hi]];
    apply lookup_app_Some in Hj as [Hj|[Hlj Hj]].
  - by apply (Hu w i j n m).
  - apply list_lookup_singleton_Some in Hj as [_ <-].
    apply node_matches_singleton in Hm. by destruct (Hold i n Hi Hn).
  - apply list_lookup_singleton_Some in Hi as [_ <-].
    apply node_matches_singleton in Hn. by destruct (Hold j m Hj Hm).
  - apply list_lookup_singleton_Some in Hi as [Hi _].
    apply list_lookup_singleton_Some in Hj as [Hj _]. lia.
Qed.

Lemma link_category_unique c s :
  unique_categories s ->
  unique_categories (fst (link_category storable c s)).
Proof.
  intros Hu. unfold link_category.
  pose proof (merge_node_unique (JStr c) s Hu) as H1.
  destruct (cypher_merge_node _ _ _ _ _) as [s1|]; [|done].
  pose proof (merge_edge_keeps_nodes storable Weapon "productCategory"
    (JStr c) Category "name" (JStr c) BELONGS_TO None s1) as H2.
  destruct (cypher_match_merge_edge _ _ _ _ _ _ _ _ _ _) as [[s2 cnt]|];
    [|done].
  by apply (unique_categories_same_nodes s1).
Qed.

Lemma ingest_weapons_unique ws st :
  unique_categories (fst st) ->
  unique_categories (fst (fst (ingest_weapons storable coerce py_str ws st))).
Proof.
  intros Hs. unfold ingest_weapons, upsert_weapons.
  pose proof (weapon_loop_run storable coerce py_str ws (st, [])) as Hrun.
  destruct (foldl _ _ ws) as [st1 cats]. simpl in Hrun.
  unfold _create_weapon_categories.
  pose proof (for_each_inv unique_categories
                (link_category storable) cats (fst st1)) as Hlink.
  destruct (for_each _ cats (fst st1)) as [s2 err]. simpl in *.
  apply Hlink; [intros x s0; apply link_category_unique|].
  rewrite Hrun. eapply unique_categories_frozen; [|done].
  by apply run_upserts_frozen.
Qed.

Lemma ingest_recipes_unique rcs st :
  unique_categories (fst st) ->
  unique_categories (fst (fst (ingest_recipes storable coerce rcs st))).
Proof.
  intros Hs. unfold ingest_recipes.
  pose proof (for_each_nodes (recipe_relationships storable) rcs
                (fst (upsert_recipes storable coerce rcs st))
                (recipe_relationships_nodes storable)) as Hn.
  unfold _create_recipe_relationships.
  destruct (for_each _ rcs _) as [s2 err]. simpl in *.
  apply (unique_categories_same_nodes _ _ Hn).
  rewrite upsert_recipes_run. eapply unique_categories_frozen; [|done].
  by apply run_upserts_frozen.
Qed.

Lemma ingest_all_unique_categories rs ws rcs st :
  unique_categories (fst st) ->
  unique_categories
    (fst (fst (ingest_all storable coerce py_str false rs ws rcs st))).
Proof.
  intros Hs. unfold ingest_all.
  assert (unique_categories (fst (ingest_resources storable coerce rs st)))
    as H1.
  { rewrite ingest_resources_run. eapply unique_categories_frozen; [|done].
    by apply run_upserts_frozen. }
  pose proof (ingest_weapons_unique ws _ H1) as H2.
  destruct (ingest_weapons _ _ _ ws _) as [st2 [e|]]; [done|].
  by apply ingest_recipes_unique.
Qed.

End Unique.

Lemma unique_categories_empty : unique_categories empty_store.
Proof. intros v i j n m Hi. done. Qed.

(** X15: a run of [ingest_all], completed or not, leaves a store in which
    no two nodes have the same label and [uniqueName] and no two Category
    nodes have the same [name]; this supposes the same of the store the run
    starts from, unless the run clears it. *)
Theorem one_node_per_key storable coerce py_str clear rs ws rcs st :
  (clear = false -> unique_keys (fst st) /\ unique_categories (fst st)) ->
  let s' := fst (fst (ingest_all storable coerce py_str clear rs ws rcs st)) in
  unique_keys s' /\ unique_categories s'.
Proof.
  intros Hst. destruct clear.
  - change (ingest_all storable coerce py_str true rs ws rcs st)
      with (ingest_all storable coerce py_str false rs ws rcs
              (empty_store, snd st)).
    split.
    + apply unique_keys_ingest_all, unique_keys_empty.
    + apply ingest_all_unique_categories, unique_categories_empty.
  - destruct Hst as [Hk Hc]; [done|]. split.
    + by apply unique_keys_ingest_all.
    + by apply ingest_all_unique_categories.
Qed.

Lemma one_node_per_key_witness :
  let s' := fst (fst (Scenario.run false [Scenario.Res1] [Scenario.W1]
                        [Scenario.R1] Scenario.fresh)) in
  unique_keys s' /\ unique_categories s'.
Proof.
  apply (one_node_per_key neo4j_storable strict_coerce Scenario.show
           false [Scenario.Res1] [Scenario.W1] [Scenario.R1] Scenario.fresh).
  intros _. split; [apply unique_keys_empty|apply unique_categories_empty].
Defined.

End UniqueFacts.

(** ** The node upserts again *)

Module UpsertMore.
Import Json Graph Invariants JsonFacts StoreFacts ModelFacts UpsertFacts.
Import AbsorbFacts PassFacts MergeFacts CategoryFacts RerunFacts KeyFacts.
Local Open Scope string_scope.
Local Open Scope nat_scope.

Lemma run_upserts_twice storable L ops s :
  (forall op, Some op ∈ ops -> dict_get "uniqueName" (snd op) = None) ->
  run_upserts storable L ops (run_upserts storable L ops s)
  = run_upserts storable L ops s.
Proof.
  intros Hops. apply run_upserts_fixed; [done|].
  by apply run_upserts_saturated.
Qed.

(** X16: the node loops are idempotent on the store, whatever the records
    are and whether or not some of them are rejected: running the loop of
    [ingest_resources], the record loop of [ingest_weapons] or the record
    loop of [ingest_recipes] a second time over the same records, on the
    store the first run left, changes nothing; the weapon loop also
    collects the same categories again. *)
Theorem node_loops_are_idempotent storable coerce py_str rs ws rcs st log :
  fst (ingest_resources storable coerce rs
         (fst (ingest_resources storable coerce rs st), log))
  = fst (ingest_resources storable coerce rs st)
  /\ (let once := upsert_weapons storable coerce py_str ws st in
      let twice := upsert_weapons storable coerce py_str ws
                     (fst (fst once), log) in
      fst (fst twice) = fst (fst once) /\ snd twice = snd once)
  /\ fst (upsert_recipes storable coerce rcs
            (fst (upsert_recipes storable coerce rcs st), log))
     = fst (upsert_recipes storable coerce rcs st).
Proof.
  split; [|split].
  - rewrite !ingest_resources_run. simpl. apply run_upserts_twice.
    apply resource_ops_key_free.
  - unfold upsert_weapons. split.
    + rewrite !weapon_loop_run. simpl. apply run_upserts_twice.
      apply weapon_ops_key_free.
    + apply weapon_loop_categories.
  - rewrite !upsert_recipes_run. simpl. apply run_upserts_twice.
    apply recipe_ops_key_free.
Qed.

Lemma dict_get_dict_set k k' v (d : dict) :
  dict_get k (dict_set k' v d)
  = if String.eqb k' k then Some v else dict_get k d.
Proof.
  induction d as [|[k0 w] d IH]; simpl.
  - by destruct (String.eqb k' k).
  - destruct (String.eqb_spec k0 k') as [->|Hne]; simpl.
    + by destruct (String.eqb k' k).
    + rewrite IH. destruct (String.eqb_spec k0 k) as [->|Hne']; [|done].
      by destruct (String.eqb_spec k' k) as [->|].
Qed.

Lemma dict_set_keys k v w (d : dict) :
  dict_get k d = Some w -> map fst (dict_set k v d) = map fst d.
Proof.
  induction d as [|[k0 x] d IH]; simpl; [done|].
  destruct (String.eqb k0 k); [done|]. intros H. simpl. by rewrite IH.
Qed.

(** X17: the properties written on a Weapon node, for a validated record
    whose keys are distinct: [uniqueName] is not among them and no null
    field is; a [damagePerShot] that is not empty is written as the string
    [str] makes of it, an empty one as it is, and every other field that
    is not null is written with its value. *)
Theorem weapon_properties_written py_str (weapon : dict) k :
  NoDup (map fst weapon) ->
  dict_get k (weapon_props py_str weapon)
  = if String.eqb k "uniqueName" then None
    else match dict_get k weapon with
         | None | Some JNull => None
         | Some v =>
             if String.eqb k "damagePerShot" && py_truthy v
             then Some (JStr (py_str v)) else Some v
         end.
Proof.
  intros Hnd. unfold weapon_props.
  assert (NoDup (map fst (model_dump [] weapon))) as Hnd'
    by by apply filter_keys_NoDup.
  set (converted :=
    match dict_get "damagePerShot" (model_dump [] weapon) with
    | Some v =>
        if py_truthy v
        then dict_set "damagePerShot" (JStr (py_str v)) (model_dump [] weapon)
        else model_dump [] weapon
    | None => model_dump [] weapon
    end).
  assert (NoDup (map fst converted)
          /\ dict_get k converted
             = match dict_get k (model_dump [] weapon) with
               | Some v =>
                   if String.eqb k "damagePerShot" && py_truthy v
                   then Some (JStr (py_str v)) else Some v
               | None => None
               end) as [Hnd'' Hget].
  { unfold converted.
    destruct (dict_get "damagePerShot" (model_dump [] weapon)) as [x|] eqn:Hx.
    - destruct (py_truthy x) eqn:Htx.
      + split; [by rewrite (dict_set_keys _ _ x)|].
        rewrite dict_get_dict_set.
        destruct (String.eqb_spec "damagePerShot" k) as [<-|Hne].
        * by rewrite Hx, Htx.
        * destruct (String.eqb_spec k "damagePerShot") as [->|_]; [done|].
          by destruct (dict_get k (model_dump [] weapon)).
      + split; [done|].
        destruct (String.eqb_spec k "damagePerShot") as [->|_].
        * by rewrite Hx, Htx.
        * by destruct (dict_get k (model_dump [] weapon)).
    - split; [done|].
      destruct (String.eqb_spec k "damagePerShot") as [->|_].
      + by rewrite Hx.
      + by destruct (dict_get k (model_dump [] weapon)). }
  rewrite dict_get_filter by done. simpl. rewrite Hget.
  rewrite (model_dump_get [] weapon k Hnd). simpl.
  destruct (String.eqb_spec k "uniqueName") as [->|Hu].
  - destruct (dict_get "uniqueName" weapon) as [v|]; [|done].
    by destruct (is_null v).
  - destruct (dict_get k weapon) as [v|]; [|done].
    destruct v; simpl; try done;
      by destruct (String.eqb k "damagePerShot" && _).
Qed.

Lemma weapon_properties_written_witness :
  dict_get "damagePerShot"
    (weapon_props (fun _ => "[10, 0, 5]")
       [("uniqueName", JStr "W1"); ("name", JStr "Lex");
        ("damagePerShot", JList [JNum 10; JNum 0; JNum 5]);
        ("noise", JNull)])
  = Some (JStr "[10, 0, 5]").
Proof.
  apply (weapon_properties_written (fun _ => "[10, 0, 5]")
           [("uniqueName", JStr "W1"); ("name", JStr "Lex");
            ("damagePerShot", JList [JNum 10; JNum 0; JNum 5]);
            ("noise", JNull)] "damagePerShot").
  apply (bool_decide_unpack _). by vm_compute.
Defined.

End UpsertMore.

(** ** The category links *)

Module CategoryMore.
Import Json Graph Invariants JsonFacts StoreFacts ModelFacts UpsertFacts.
Import AbsorbFacts PassFacts MergeFacts CategoryFacts RerunFacts KeyFacts.
Import KeepFacts TypingFacts.
Local Open Scope string_scope.
Local Open Scope nat_scope.

Lemma set_add_elem c c' cats : c ∈ set_add c' cats <-> c = c' \/ c ∈ cats.
Proof.
  unfold set_add. destruct (mem_string c' cats) eqn:Hm.
  - apply mem_string_elem in Hm. split; [by right|]. by intros [->|].
  - rewrite elem_of_app, list_elem_of_singleton. tauto.
Qed.

Section Links.

Variable storable : json -> bool.
Variable coerce : ftype -> json -> option json.
Variable py_str : json -> string.

Lemma accepted_returns L op s :
  accepted storable op = true ->
  exists s', cypher_merge_node_set storable L "uniqueName" (fst op) (snd op) s
             = Returned s'.
Proof.
  unfold accepted, cypher_merge_node_set.
  intros [[Hn Hs]%andb_true_iff Hp]%andb_true_iff.
  apply negb_true_iff in Hn. rewrite Hn, Hs, Hp. simpl.
  destruct (existsb _ _); by eexists.
Qed.

Lemma weapon_loop_grows ws acc c :
  c ∈ snd acc ->
  c ∈ snd (foldl (ingest_weapon storable coerce py_str) acc ws).
Proof.
  revert acc. induction ws as [|w ws IH]; intros acc Hc; [done|].
  simpl. apply IH. destruct acc as [st cats]. unfold ingest_weapon.
  destruct w as [| | | | |d]; try done.
  destruct (validate _ _ _) as [m|]; [|done].
  destruct (cypher_merge_node_set _ _ _ _ _ _); [|done]. cbn [snd fst] in *.
  destruct (dict_get_default "productCategory" JNull m) as [| | |c'| |];
    try done.
  destruct (py_truthy (JStr c')); [|done]. apply set_add_elem. by right.
Qed.

Lemma weapon_loop_collects ws acc d m c :
  JObj d ∈ ws ->
  validate coerce WeaponNode d = Some m ->
  accepted storable
    (dict_get_default "uniqueName" JNull m, weapon_props py_str m) = true ->
  dict_get "productCategory" m = Some (JStr c) -> c <> "" ->
  c ∈ snd (foldl (ingest_weapon storable coerce py_str) acc ws).
Proof.
  intros Hin Hv Hacc Hc Hne. revert acc.
  induction ws as [|w ws IH]; intros acc; [by apply elem_of_nil in Hin|].
  apply elem_of_cons in Hin as [<-|Hin]; [|by apply IH].
  simpl. apply weapon_loop_grows. destruct acc as [st cats].
  unfold ingest_weapon. rewrite Hv.
  destruct (accepted_returns Weapon _ (fst st) Hacc) as [s' Hs'].
  simpl in Hs'. rewrite Hs'. cbn [snd].
  unfold dict_get_default. rewrite Hc. simpl.
  apply String.eqb_neq in Hne. rewrite Hne. simpl.
  apply set_add_elem. by left.
Qed.

Lemma link_category_links c s s' :
  link_category storable c s = (s', None) -> linked c s'.
Proof.
  unfold link_category.
  destruct (cypher_merge_node _ _ _ _ _) as [s1|] eqn:H1; [|done].
  destruct (cypher_match_merge_edge _ _ _ _ _ _ _ _ _ _) as [[s2 cnt]|] eqn:H2;
    [|done].
  intros [= <-].
  pose proof (merge_edge_nodes _ _ _ _ _ _ _ _ _ _ _ _ H2) as Hn.
  assert (exists b, b ∈ match_ids Category "name" (JStr c) s1) as [b Hb].
  { unfold cypher_merge_node in H1.
    destruct (is_null (JStr c) || negb (storable (JStr c))); [done|].
    destruct (existsb _ (nodes s)) eqn:Hex; injection H1 as <-.
    - apply existsb_exists in Hex as (n & Hin & Hm).
      apply list_elem_of_In, list_elem_of_lookup in Hin as [i Hi].
      exists i. apply match_ids_elem. by exists n.
    - exists (length (nodes s)). apply match_ids_elem.
      exists (Node Category {["name" := JStr c]}). simpl. split.
      + by rewrite lookup_app_r, Nat.sub_diag by lia.
      + by apply node_matches_new. }
  split.
  - exists b. by rewrite (match_ids_same_nodes _ _ _ s1 s2).
  - intros w b' Hw Hb'.
    rewrite (match_ids_same_nodes Weapon _ _ s1 s2) in Hw by done.
    rewrite (match_ids_same_nodes Category _ _ s1 s2) in Hb' by done.
    apply (merge_edge_elem _ _ _ _ _ _ _ _ _ _ _ _ _ H2). right.
    by exists w, b'.
Qed.

Lemma linked_extend c s s' extra (cats : list string) :
  nodes s' = (nodes s ++ extra)%list ->
  Forall (fun n => exists c', c' ∈ cats /\ n = category_node c') extra ->
  c ∉ cats ->
  edges s ⊆ edges s' ->
  linked c s -> linked c s'.
Proof.
  intros Hn Hextra Hc He [[b Hb] Hl].
  assert (frozen Weapon s s') as Hfw.
  { eapply frozen_extend; [done|]. by eapply category_nodes_other. }
  assert (forall b', b' ∈ match_ids Category "name" (JStr c) s'
                     <-> b' ∈ match_ids Category "name" (JStr c) s) as Hcat.
  { intros b'. rewrite !match_ids_elem, Hn. split.
    - intros (n & Hi & Hm).
      apply lookup_app_Some in Hi as [Hi|[_ Hi]]; [by exists n|].
      apply list_elem_of_lookup_2 in Hi.
      rewrite Forall_forall in Hextra.
      destruct (Hextra n Hi) as (c' & Hc' & ->).
      apply node_matches_singleton in Hm. injection Hm as ->. done.
    - intros (n & Hi & Hm). exists n. split; [|done].
      by apply lookup_app_l_Some. }
  split.
  - exists b. by apply Hcat.
  - intros w b' Hw Hb'. apply He. apply Hl.
    + by apply (match_ids_frozen Weapon _ _ s s').
    + by apply Hcat.
Qed.

Lemma link_loop_links cats s s' :
  NoDup cats ->
  for_each (link_category storable) cats s = (s', None) ->
  forall c, c ∈ cats -> linked c s'.
Proof.
  intros Hnd. revert s. induction cats as [|c0 cats IH]; intros s Hrun c Hc;
    [by apply elem_of_nil in Hc|].
  apply NoDup_cons in Hnd as [Hc0 Hnd]. simpl in Hrun.
  destruct (link_category storable c0 s) as [s1 [e|]] eqn:H1; [done|].
  apply elem_of_cons in Hc as [->|Hc]; [|by eapply IH].
  apply link_category_links in H1.
  destruct (link_loop_shape storable cats s1 s' None Hrun)
    as (extra & Hn & Hextra & He).
  by eapply linked_extend.
Qed.

End Links.

(** X18: when [ingest_weapons] completes, the category of every record of
    the batch that was validated and stored, if it has a non-empty one, is
    among the categories collected; and for every category collected, the
    store holds a Category node of that name, and every Weapon node whose
    [productCategory] is that name has a BELONGS_TO relationship to it. *)
Theorem weapons_are_linked_to_categories storable coerce py_str ws st s2 log :
  ingest_weapons storable coerce py_str ws st = ((s2, log), None) ->
  let categories := snd (upsert_weapons storable coerce py_str ws st) in
  (forall d m c,
     JObj d ∈ ws ->
     validate coerce WeaponNode d = Some m ->
     accepted storable
       (dict_get_default "uniqueName" JNull m, weapon_props py_str m) = true ->
     dict_get "productCategory" m = Some (JStr c) -> c <> "" ->
     c ∈ categories)
  /\ forall c, c ∈ categories ->
       (exists b, b ∈ match_ids Category "name" (JStr c) s2)
       /\ forall w b,
            w ∈ match_ids Weapon "productCategory" (JStr c) s2 ->
            b ∈ match_ids Category "name" (JStr c) s2 ->
            Edge w BELONGS_TO None b ∈ edges s2.
Proof.
  intros Hrun categories. split.
  - intros d m c. apply weapon_loop_collects.
  - intros c Hc. unfold ingest_weapons in Hrun. subst categories.
    pose proof (weapon_loop_NoDup storable coerce py_str ws (st, [])
                  (NoDup_nil_2)) as Hnd.
    unfold upsert_weapons in *.
    destruct (foldl _ _ ws) as [st1 cats]. simpl in Hnd, Hc.
    unfold _create_weapon_categories in Hrun.
    destruct (for_each _ cats (fst st1)) as [s2' err] eqn:Hlink.
    injection Hrun as <- _ ->.
    by apply (link_loop_links storable cats (fst st1) s2' Hnd Hlink).
Qed.

Lemma weapons_are_linked_to_categories_witness :
  let r := Scenario.run true [] [Scenario.W1] [] Scenario.fresh in
  (exists b, b ∈ match_ids Category "name" (JStr "Pistols") (fst (fst r)))
  /\ forall w b,
       w ∈ match_ids Weapon "productCategory" (JStr "Pistols") (fst (fst r)) ->
       b ∈ match_ids Category "name" (JStr "Pistols") (fst (fst r)) ->
       Edge w BELONGS_TO None b ∈ edges (fst (fst r)).
Proof.
  apply (weapons_are_linked_to_categories neo4j_storable strict_coerce
           Scenario.show [Scenario.W1] (empty_store, [])
           (fst (fst (Scenario.run true [] [Scenario.W1] [] Scenario.fresh)))
           []); [reflexivity|].
  vm_compute. apply list_elem_of_here.
Defined.

End CategoryMore.

(** ** The relationships of the recipes *)

Module RelationshipFacts.
Import Json Graph Invariants JsonFacts StoreFacts ModelFacts UpsertFacts.
Import AbsorbFacts PassFacts MergeFacts CategoryFacts RerunFacts KeyFacts.
Import KeepFacts TypingFacts.
Local Open Scope string_scope.
Local Open Scope nat_scope.

Lemma for_each_makes {A} (R : A -> store -> edge -> Prop)
    (body : A -> store -> store * option exn) items :
  (forall x s Y e, nodes Y = nodes s -> R x Y e -> R x s e) ->
  (forall x, makes (R x) (body x)) ->
  makes (fun s e => exists x, x ∈ items /\ R x s e) (for_each body items).
Proof.
  intros Hnodes Hbody. induction items as [|x items IH]; intros s.
  - simpl. repeat split; try done.
    + by left.
    + intros _ e (x & Hx & _). by apply elem_of_nil in Hx.
  - simpl. destruct (Hbody x s) as (Hn & Hsub & Hsound & Hcomplete).
    destruct (body x s) as [s1 [err|]] eqn:Hx; simpl in *.
    + repeat split; try done. intros e He.
      destruct (Hsound e He) as [?|?]; [by left|right].
      exists x. split; [apply list_elem_of_here|done].
    + destruct (IH s1) as (Hn' & Hsub' & Hsound' & Hcomplete').
      repeat split.
      * congruence.
      * set_solver.
      * intros e He. destruct (Hsound' e He) as [He1|(y & Hy & HR)].
        { destruct (Hsound e He1) as [?|?]; [by left|right].
          exists x. split; [apply list_elem_of_here|done]. }
        right. exists y. split; [by apply list_elem_of_further|].
        by apply (Hnodes y s s1).
      * intros Hnone e (y & [->|Hy]%elem_of_cons & HR).
        { apply Hsub'. by apply Hcomplete. }
        apply (Hcomplete' Hnone). exists y. split; [done|].
        apply (Hnodes y s1 s); [congruence|done].
Qed.

Lemma list_prod_nil {A B} (l : list A) (k : list B) a :
  list_prod l k = [] -> a ∈ l -> k = [].
Proof.
  intros Hp Ha. destruct k as [|b k]; [done|].
  assert ((a, b) ∈ list_prod l (b :: k)) as Hin.
  { apply elem_of_list_prod. split; [done|apply list_elem_of_here]. }
  rewrite Hp in Hin. by apply elem_of_nil in Hin.
Qed.

Section Relationships.

Variable storable : json -> bool.

Lemma merge_edge_count La ka va Lb kb vb T q s s' cnt :
  cypher_match_merge_edge storable La ka va Lb kb vb T q s
    = Returned (s', cnt) ->
  cnt = length (list_prod (match_ids La ka va s) (match_ids Lb kb vb s)).
Proof.
  unfold cypher_match_merge_edge.
  destruct (list_prod _ _) as [|row rows]; [by intros [= _ <-]|].
  destruct (match q with Some _ => _ | None => _ end); [done|].
  by intros [= _ <-].
Qed.

Lemma merge_edge_no_rows La ka va Lb kb vb T q s :
  list_prod (match_ids La ka va s) (match_ids Lb kb vb s) = [] ->
  cypher_match_merge_edge storable La ka va Lb kb vb T q s = Returned (s, 0).
Proof. intros H. unfold cypher_match_merge_edge. by rewrite H. Qed.

Lemma create_builds_makes d :
  makes (fun s => builds_of s d) (create_builds storable d).
Proof.
  intros s. split; [apply create_builds_nodes|].
  split; [apply create_builds_edges|].
  unfold create_builds, builds_of.
  set (ru := dict_get_default "uniqueName" JNull d).
  set (rt := dict_get_default "resultType" JNull d).
  set (q := dict_get_default "num" (JNum 1) d).
  destruct (py_truthy rt) eqn:Hrt;
    [|split; [by left|by intros _ e [? _]]].
  destruct (cypher_match_merge_edge storable Recipe "uniqueName" ru
              Weapon "uniqueName" rt BUILDS (Some q) s)
    as [[s1 cnt]|] eqn:H1; simpl.
  2:{ split; [by left|done]. }
  pose proof (merge_edge_count _ _ _ _ _ _ _ _ _ _ _ H1) as Hcnt.
  pose proof (merge_edge_nodes _ _ _ _ _ _ _ _ _ _ _ _ H1) as Hn1.
  destruct (Nat.eqb_spec cnt 0) as [->|Hpos].
  - apply eq_sym, length_zero_iff_nil in Hcnt.
    rewrite (merge_edge_no_rows _ _ _ _ _ _ _ _ _ Hcnt) in H1.
    injection H1 as <-.
    destruct (cypher_match_merge_edge storable Recipe "uniqueName" ru
                Resource "uniqueName" rt BUILDS (Some q) s)
      as [[s2 cnt2]|] eqn:H2; simpl.
    2:{ split; [by left|done]. }
    split.
    + intros e He.
      apply (merge_edge_elem _ _ _ _ _ _ _ _ _ _ _ _ _ H2) in He
        as [?|(a & b & Ha & Hb & ->)]; [by left|right].
      split; [done|]. exists a, b. split; [done|]. split; [|done].
      right. split; [|done]. by eapply list_prod_nil.
    + intros _ e (_ & r & t & Hr & [Ht|[_ Ht]] & ->).
      * pose proof (list_prod_nil _ _ r Hcnt Hr) as Hw. rewrite Hw in Ht.
        by apply elem_of_nil in Ht.
      * apply (merge_edge_elem _ _ _ _ _ _ _ _ _ _ _ _ _ H2). right.
        by exists r, t.
  - split.
    + intros e He.
      apply (merge_edge_elem _ _ _ _ _ _ _ _ _ _ _ _ _ H1) in He
        as [?|(a & b & Ha & Hb & ->)]; [by left|right].
      split; [done|]. exists a, b. split; [done|]. split; [by left|done].
    + intros _ e (_ & r & t & Hr & [Ht|[Hw _]] & ->).
      * apply (merge_edge_elem _ _ _ _ _ _ _ _ _ _ _ _ _ H1). right.
        by exists r, t.
      * rewrite Hw, length_prod in Hcnt. simpl in Hcnt. lia.
Qed.

Lemma create_requires_makes ru ingredient :
  makes (fun s => requires_of ru s ingredient)
    (create_requires storable ru ingredient).
Proof.
  intros s. split; [apply create_requires_nodes|].
  split; [apply create_requires_edges|].
  unfold create_requires, requires_of.
  destruct ingredient as [| | | | |ing];
    try (split; [by left|done]).
  simpl.
  set (it := dict_get_default "ItemType" JNull ing).
  set (ic := dict_get_default "ItemCount" (JNum 1) ing).
  destruct (py_truthy it) eqn:Hit.
  2:{ split; [by left|]. intros _ e (ing' & r & x & [= <-] & Ht & _).
      fold it in Ht. congruence. }
  destruct (cypher_match_merge_edge storable Recipe "uniqueName" ru
              Resource "uniqueName" it REQUIRES (Some ic) s)
    as [[s1 cnt]|] eqn:H1; simpl.
  2:{ split; [by left|done]. }
  split.
  - intros e He.
    apply (merge_edge_elem _ _ _ _ _ _ _ _ _ _ _ _ _ H1) in He
      as [?|(a & b & Ha & Hb & ->)]; [by left|right].
    by exists ing, a, b.
  - intros _ e (ing' & r & x & [= <-] & _ & Hr & Hx & ->).
    apply (merge_edge_elem _ _ _ _ _ _ _ _ _ _ _ _ _ H1). right.
    by exists r, x.
Qed.

Lemma requires_of_nodes ru s Y ingredient e :
  nodes Y = nodes s -> requires_of ru Y ingredient e ->
  requires_of ru s ingredient e.
Proof.
  intros Hn (ing & r & x & -> & Ht & Hr & Hx & ->).
  exists ing, r, x.
  by rewrite !(match_ids_same_nodes _ _ _ s Y) in * by done.
Qed.

Lemma builds_of_nodes s Y d e :
  nodes Y = nodes s -> builds_of Y d e -> builds_of s d e.
Proof.
  intros Hn (Ht & r & t & Hr & Hw & ->). split; [done|]. exists r, t.
  by rewrite !(match_ids_same_nodes _ _ _ s Y) in * by done.
Qed.

Lemma record_edges_nodes raw s Y e :
  nodes Y = nodes s -> record_edges Y raw e -> record_edges s raw e.
Proof.
  intros Hn (d & -> & [Hb|(items & ing & Hi & Hin & Hr)]); exists d;
    (split; [done|]).
  - left. by eapply builds_of_nodes.
  - right. exists items, ing. repeat split; try done.
    by eapply requires_of_nodes.
Qed.

Lemma recipe_relationships_makes raw :
  makes (fun s => record_edges s raw) (recipe_relationships storable raw).
Proof.
  intros s. split; [apply recipe_relationships_nodes|].
  split; [apply recipe_relationships_edges|].
  unfold recipe_relationships, record_edges.
  destruct raw as [| | | | |d]; try (split; [by left|done]).
  destruct (create_builds_makes d s) as (Hn & Hsub & Hsound & Hcomplete).
  destruct (create_builds storable d s) as [s1 [err|]] eqn:Hb; simpl in *.
  { split; [|done]. intros e He. destruct (Hsound e He); [by left|right].
    exists d. split; [done|by left]. }
  destruct (py_iter _) as [items|err] eqn:Hitems; simpl.
  2:{ split; [|done]. intros e He. destruct (Hsound e He); [by left|right].
      exists d. split; [done|by left]. }
  destruct (for_each_makes
              (fun ing s e =>
                 requires_of (dict_get_default "uniqueName" JNull d) s ing e)
              (create_requires storable
                 (dict_get_default "uniqueName" JNull d)) items
              (fun x s Y e => requires_of_nodes _ s Y x e)
              (create_requires_makes _) s1)
    as (Hn' & Hsub' & Hsound' & Hcomplete').
  split.
  - intros e He. destruct (Hsound' e He) as [He1|(ing & Hin & Hr)].
    + destruct (Hsound e He1); [by left|right].
      exists d. split; [done|by left].
    + right. exists d. split; [done|]. right. exists items, ing.
      repeat split; try done. by apply (requires_of_nodes _ s s1).
  - intros Hnone e (d' & [= <-] & [Hbuilds|(items' & ing & Hi & Hin & Hr)]).
    + apply Hsub'. by apply Hcomplete.
    + apply (Hcomplete' Hnone). rewrite Hitems in Hi. injection Hi as <-.
      exists ing. split; [done|].
      apply (requires_of_nodes _ s1 s); [congruence|done].
Qed.

Lemma create_recipe_relationships_makes rcs :
  makes (fun s e => exists raw, raw ∈ rcs /\ record_edges s raw e)
    (_create_recipe_relationships storable rcs).
Proof.
  apply (for_each_makes (fun raw s e => record_edges s raw e)).
  - intros x s Y e. apply record_edges_nodes.
  - apply recipe_relationships_makes.
Qed.

End Relationships.

(** X19: [_create_recipe_relationships], completed or stopped by an
    exception, leaves the nodes as they are, keeps every relationship, and
    adds none but those its records call for: a BUILDS relationship, with
    the record's [num] (1 when it has none), from the Recipe node of the
    record's [uniqueName] to the Weapon node of its [resultType] or, when
    no Weapon has it, to the Resource node; and for each ingredient with an
    [ItemType] a REQUIRES relationship, with its [ItemCount] (1 when it has
    none), from that Recipe node to the Resource node of the type. *)
Theorem recipe_pass_adds_only_what_records_call_for storable rcs s e :
  let r := _create_recipe_relationships storable rcs s in
  nodes (fst r) = nodes s
  /\ edges s ⊆ edges (fst r)
  /\ (e ∈ edges (fst r) ->
      e ∈ edges s \/ exists raw, raw ∈ rcs /\ record_edges s raw e).
Proof.
  destruct (create_recipe_relationships_makes storable rcs s)
    as (Hn & Hsub & Hsound & _).
  simpl. split; [done|]. split; [done|]. apply Hsound.
Qed.

(** X20: when [_create_recipe_relationships] completes, every relationship
    its records call for is in the store: each record whose Recipe node
    exists is linked by BUILDS to the node of its result, if there is one,
    and by REQUIRES to the Resource node of each of its ingredients that
    has one. *)
Theorem recipe_pass_makes_what_records_call_for storable rcs s s' raw e :
  _create_recipe_relationships storable rcs s = (s', None) ->
  raw ∈ rcs -> record_edges s raw e -> e ∈ edges s'.
Proof.
  intros Hrun Hraw He.
  destruct (create_recipe_relationships_makes storable rcs s)
    as (_ & _ & _ & Hcomplete).
  rewrite Hrun in Hcomplete. apply Hcomplete; [done|]. by exists raw.
Qed.

Lemma recipe_pass_makes_what_records_call_for_witness :
  Edge 3 REQUIRES (Some (JNum 5)) 0
  ∈ edges (fst (_create_recipe_relationships neo4j_storable [Scenario.R1]
                  Scenario.nodes_in)).
Proof.
  apply (recipe_pass_makes_what_records_call_for neo4j_storable
           [Scenario.R1] Scenario.nodes_in _ Scenario.R1).
  - reflexivity.
  - apply list_elem_of_here.
  - exists Scenario.R1_fields. split; [reflexivity|]. right.
    exists [JObj [("ItemType", JStr "Res1"); ("ItemCount", JNum 5)]],
      (JObj [("ItemType", JStr "Res1"); ("ItemCount", JNum 5)]).
    split; [reflexivity|]. split; [apply list_elem_of_here|].
    exists [("ItemType", JStr "Res1"); ("ItemCount", JNum 5)], 3, 0.
    split; [reflexivity|]. split; [reflexivity|].
    split; [vm_compute; apply list_elem_of_here|].
    split; [vm_compute; apply list_elem_of_here|reflexivity].
Defined.

End RelationshipFacts.

(** ** Records the store rejects, and errors in the relationship pass *)

Module ErrorFacts.
Import Json Graph Invariants JsonFacts StoreFacts ValidationFacts ModelFacts.
Import UpsertFacts AbsorbFacts PassFacts.
Local Open Scope string_scope.
Local Open Scope nat_scope.

Section Rejected.

Variable storable : json -> bool.
Variable coerce : ftype -> json -> option json.
Variable py_str : json -> string.

Lemma rejected_raises L op s :
  accepted storable op = false ->
  cypher_merge_node_set storable L "uniqueName" (fst op) (snd op) s
  = Raised StoreError.
Proof.
  unfold accepted, cypher_merge_node_set. intros Hacc.
  destruct (is_null (fst op)); [done|].
  destruct (storable (fst op)); [|done].
  by destruct (props_storable storable (snd op)).
Qed.

Lemma ingest_resource_rejected st d m :
  validate coerce ResourceNode d = Some m ->
  accepted storable
    (dict_get_default "uniqueName" JNull m, model_dump ["uniqueName"] m)
  = false ->
  ingest_resource storable coerce st (JObj d)
  = (fst st, (snd st ++ [IngestError Resource StoreError])%list).
Proof.
  intros Hv Hacc. unfold ingest_resource. rewrite Hv.
  pose proof (rejected_raises Resource _ (fst st) Hacc) as Hr. simpl in Hr.
  by rewrite Hr.
Qed.

Lemma ingest_recipe_rejected st d m :
  validate coerce RecipeNode d = Some m ->
  accepted storable (dict_get_default "uniqueName" JNull m, recipe_props m)
  = false ->
  ingest_recipe storable coerce st (JObj d)
  = (fst st, (snd st ++ [IngestError Recipe StoreError])%list).
Proof.
  intros Hv Hacc. unfold ingest_recipe. rewrite Hv.
  pose proof (rejected_raises Recipe _ (fst st) Hacc) as Hr. simpl in Hr.
  by rewrite Hr.
Qed.

Lemma ingest_weapon_rejected st cats d m :
  validate coerce WeaponNode d = Some m ->
  accepted storable
    (dict_get_default "uniqueName" JNull m, weapon_props py_str m) = false ->
  ingest_weapon storable coerce py_str (st, cats) (JObj d)
  = ((fst st, (snd st ++ [IngestError Weapon StoreError])%list), cats).
Proof.
  intros Hv Hacc. unfold ingest_weapon. rewrite Hv.
  pose proof (rejected_raises Weapon _ (fst st) Hacc) as Hr. simpl in Hr.
  by rewrite Hr.
Qed.

End Rejected.

(** X21: a record that passes validation but whose statement the store
    rejects, because the key or a property is a value the store does not
    take, is skipped like one that fails validation: the error is printed,
    no node is created or changed, no category is collected from it, the
    loop goes on with the records after it, and the store ends as if the
    record had not been in the batch. *)
Theorem rejected_record_is_skipped storable coerce py_str pre d m post st :
  (validate coerce ResourceNode d = Some m ->
   accepted storable
     (dict_get_default "uniqueName" JNull m, model_dump ["uniqueName"] m)
   = false ->
   let st1 := ingest_resources storable coerce pre st in
   ingest_resources storable coerce (pre ++ JObj d :: post) st
   = ingest_resources storable coerce post
       (fst st1, (snd st1 ++ [IngestError Resource StoreError])%list)
   /\ fst (ingest_resources storable coerce (pre ++ JObj d :: post) st)
      = fst (ingest_resources storable coerce (pre ++ post) st))
  /\ (validate coerce RecipeNode d = Some m ->
      accepted storable (dict_get_default "uniqueName" JNull m, recipe_props m)
      = false ->
      let st1 := upsert_recipes storable coerce pre st in
      upsert_recipes storable coerce (pre ++ JObj d :: post) st
      = upsert_recipes storable coerce post
          (fst st1, (snd st1 ++ [IngestError Recipe StoreError])%list)
      /\ fst (upsert_recipes storable coerce (pre ++ JObj d :: post) st)
         = fst (upsert_recipes storable coerce (pre ++ post) st))
  /\ (validate coerce WeaponNode d = Some m ->
      accepted storable
        (dict_get_default "uniqueName" JNull m, weapon_props py_str m)
      = false ->
      let r1 := upsert_weapons storable coerce py_str pre st in
      upsert_weapons storable coerce py_str (pre ++ JObj d :: post) st
      = foldl (ingest_weapon storable coerce py_str)
          ((fst (fst r1),
            (snd (fst r1) ++ [IngestError Weapon StoreError])%list),
           snd r1) post
      /\ fst (fst (upsert_weapons storable coerce py_str
                     (pre ++ JObj d :: post) st))
         = fst (fst (upsert_weapons storable coerce py_str (pre ++ post) st))
      /\ snd (upsert_weapons storable coerce py_str (pre ++ JObj d :: post) st)
         = snd (upsert_weapons storable coerce py_str (pre ++ post) st)).
Proof.
  split; [|split]; intros Hv Hbad st1.
  - assert (ingest_resources storable coerce (pre ++ JObj d :: post) st
            = ingest_resources storable coerce post
                (fst st1, (snd st1 ++ [IngestError Resource StoreError])%list))
      as Heq.
    { unfold ingest_resources. rewrite foldl_app. cbn [foldl].
      by rewrite (ingest_resource_rejected storable coerce _ d m). }
    split; [done|]. rewrite Heq.
    unfold ingest_resources at 2. rewrite foldl_app.
    fold (ingest_resources storable coerce pre st). fold st1.
    fold (ingest_resources storable coerce post st1).
    destruct st1 as [s1 log1]. apply ingest_resources_store.
  - assert (upsert_recipes storable coerce (pre ++ JObj d :: post) st
            = upsert_recipes storable coerce post
                (fst st1, (snd st1 ++ [IngestError Recipe StoreError])%list))
      as Heq.
    { unfold upsert_recipes. rewrite foldl_app. cbn [foldl].
      by rewrite (ingest_recipe_rejected storable coerce _ d m). }
    split; [done|]. rewrite Heq.
    unfold upsert_recipes at 2. rewrite foldl_app.
    fold (upsert_recipes storable coerce pre st). fold st1.
    fold (upsert_recipes storable coerce post st1).
    destruct st1 as [s1 log1]. apply upsert_recipes_store.
  - assert (upsert_weapons storable coerce py_str (pre ++ JObj d :: post) st
            = foldl (ingest_weapon storable coerce py_str)
                ((fst (fst st1),
                  (snd (fst st1) ++ [IngestError Weapon StoreError])%list),
                 snd st1) post) as Heq.
    { unfold upsert_weapons. rewrite foldl_app. cbn [foldl].
      fold (upsert_weapons storable coerce py_str pre st). fold st1.
      destruct st1 as [st1 cats1].
      by rewrite (ingest_weapon_rejected storable coerce py_str _ _ d m). }
    split; [done|]. rewrite Heq.
    unfold upsert_weapons at 1 2. rewrite !foldl_app.
    fold (upsert_weapons storable coerce py_str pre st). fold st1.
    destruct st1 as [[s1 log1] cats1]. simpl. apply weapon_loop_store.
Qed.

Lemma rejected_record_is_skipped_witness :
  let nested :=
    [("uniqueName", JStr "Res2"); ("name", JStr "Alloy");
     ("drops", JObj [("chance", JNum 5)])] in
  fst (ingest_resources neo4j_storable strict_coerce
         [Scenario.Res1; JObj nested; Scenario.Res1] Scenario.fresh)
  = fst (ingest_resources neo4j_storable strict_coerce
           [Scenario.Res1; Scenario.Res1] Scenario.fresh).
Proof.
  intros nested.
  apply (rejected_record_is_skipped neo4j_storable strict_coerce
           Scenario.show [Scenario.Res1] nested
           (default [] (validate strict_coerce ResourceNode nested))
           [Scenario.Res1] Scenario.fresh); reflexivity.
Defined.

Lemma for_each_app_error {A} (body : A -> store -> store * option exn)
    pre x post s :
  snd (for_each body pre s) = None ->
  snd (body x (fst (for_each body pre s))) <> None ->
  for_each body (pre ++ x :: post) s = body x (fst (for_each body pre s)).
Proof.
  revert s. induction pre as [|y pre IH]; intros s Hpre Hx; simpl in *.
  - by destruct (body x s) as [s' [e|]].
  - destruct (body y s) as [s1 [e|]]; [done|]. by apply IH.
Qed.

(** X22: the relationship pass has no handler: when the records before
    [raw] went through and the statements of [raw] raise, the pass ends
    there with that exception and with the store as [raw] left it; the
    records after it are not looked at, and the relationships made before
    it stay. *)
Theorem relationship_pass_stops_at_first_error storable pre raw post s :
  let before := _create_recipe_relationships storable pre s in
  snd before = None ->
  snd (recipe_relationships storable raw (fst before)) <> None ->
  _create_recipe_relationships storable (pre ++ raw :: post) s
  = recipe_relationships storable raw (fst before)
  /\ edges (fst before)
     ⊆ edges (fst (_create_recipe_relationships storable
                     (pre ++ raw :: post) s)).
Proof.
  intros before Hpre Hraw.
  assert (_create_recipe_relationships storable (pre ++ raw :: post) s
          = recipe_relationships storable raw (fst before)) as Heq
    by by apply for_each_app_error.
  split; [done|]. rewrite Heq.
  apply KeepFacts.recipe_relationships_edges.
Qed.

Lemma relationship_pass_stops_at_first_error_witness :
  let bad := JObj [("uniqueName", JStr "R1"); ("resultType", JStr "W1");
                   ("num", JNull)] in
  _create_recipe_relationships neo4j_storable
    ([Scenario.R1] ++ bad :: [Scenario.R5]) Scenario.nodes_in
  = recipe_relationships neo4j_storable bad
      (fst (_create_recipe_relationships neo4j_storable [Scenario.R1]
              Scenario.nodes_in))
  /\ edges (fst (_create_recipe_relationships neo4j_storable [Scenario.R1]
                   Scenario.nodes_in))
     ⊆ edges (fst (_create_recipe_relationships neo4j_storable
                     ([Scenario.R1] ++ bad :: [Scenario.R5])
                     Scenario.nodes_in)).
Proof.
  intros bad.
  apply (relationship_pass_stops_at_first_error neo4j_storable
           [Scenario.R1] bad [Scenario.R5] Scenario.nodes_in);
    [reflexivity|discriminate].
Defined.

End ErrorFacts.

(** ** The summary *)

Module SummaryFacts.
Import Json Graph Summary.
Local Open Scope nat_scope.

Section Counting.

Context {A : Type} `{EqDecision A}.

Lemma row_count_bump (x y : A) (rows : list (A * nat)) :
  row_count x (bump y rows)
  = if decide (y = x) then S (row_count x rows) else row_count x rows.
Proof.
  unfold row_count. induction rows as [|[z c] rows IH]; simpl.
  - destruct (decide (y = x)) as [->|Hne].
    + by rewrite bool_decide_eq_true_2.
    + by rewrite bool_decide_eq_false_2.
  - destruct (decide (z = y)) as [->|Hzy]; simpl.
    + destruct (decide (y = x)) as [->|Hne].
      * by rewrite !bool_decide_eq_true_2.
      * by rewrite !bool_decide_eq_false_2.
    + destruct (decide (z = x)) as [->|Hzx].
      * rewrite !bool_decide_eq_true_2 by done. simpl.
        by destruct (decide (y = x)) as [->|].
      * by rewrite !bool_decide_eq_false_2.
Qed.

Lemma bump_keys (x : A) (rows : list (A * nat)) :
  NoDup (map fst rows) ->
  Forall (fun r => 0 < snd r) rows ->
  NoDup (map fst (bump x rows))
  /\ Forall (fun r => 0 < snd r) (bump x rows)
  /\ forall y, y ∈ map fst (bump x rows) <-> y = x \/ y ∈ map fst rows.
Proof.
  induction rows as [|[z c] rows IH]; simpl.
  - intros _ _. repeat split.
    + apply NoDup_singleton.
    + repeat constructor.
    + intros Hy. left. by apply list_elem_of_singleton in Hy.
    + intros [->|Hy]; [apply list_elem_of_here|by apply elem_of_nil in Hy].
  - intros [Hz Hnd]%NoDup_cons [Hc Hpos]%Forall_cons.
    destruct (IH Hnd Hpos) as (IH1 & IH2 & IH3).
    destruct (decide (z = x)) as [->|Hzx]; simpl.
    + repeat split.
      * by apply NoDup_cons.
      * constructor; [simpl in *; lia|done].
      * intros Hy. by right.
      * intros [->|Hy]; [apply list_elem_of_here|done].
    + repeat split.
      * apply NoDup_cons. split; [|done]. rewrite IH3. intros [?|?]; done.
      * by constructor.
      * intros [->|Hy]%elem_of_cons.
        { right. apply list_elem_of_here. }
        apply IH3 in Hy as [->|Hy]; [by left|]. right.
        by apply list_elem_of_further.
      * intros [->|[->|Hy]%elem_of_cons].
        { apply list_elem_of_further, IH3. by left. }
        { apply list_elem_of_here. }
        apply list_elem_of_further, IH3. by right.
Qed.

Lemma count_by_spec (keys : list A) :
  NoDup (map fst (count_by keys))
  /\ Forall (fun r => 0 < snd r) (count_by keys)
  /\ (forall x, x ∈ map fst (count_by keys) <-> x ∈ keys)
  /\ forall x, row_count x (count_by keys) = occurrences x keys.
Proof.
  unfold count_by. induction keys as [|k keys IH] using rev_ind.
  - simpl. repeat split; try done. apply NoDup_nil_2.
  - rewrite foldl_app. simpl.
    destruct IH as (IH1 & IH2 & IH3 & IH4).
    destruct (bump_keys k _ IH1 IH2) as (H1 & H2 & H3).
    repeat split; try done.
    + intros Hx. apply H3 in Hx as [->|Hx].
      * apply elem_of_app. right. apply list_elem_of_here.
      * apply elem_of_app. left. by apply IH3.
    + intros [Hx|Hx%list_elem_of_singleton]%elem_of_app; apply H3.
      * right. by apply IH3.
      * by left.
    + intros x. rewrite row_count_bump, IH4. unfold occurrences.
      rewrite List.filter_app, length_app. simpl.
      destruct (decide (k = x)) as [->|Hne].
      * rewrite bool_decide_eq_true_2 by done. simpl. lia.
      * rewrite bool_decide_eq_false_2 by done. simpl. lia.
Qed.

End Counting.

(** X23: the summary lists each label that some node carries exactly once,
    with the number of the nodes that carry it, and lists no label without
    a node; likewise each relationship type with the number of its
    relationships.  An empty database gives no line at all. *)
Theorem summary_counts_every_node_once s :
  let '(by_label, by_type) := print_summary s in
  (NoDup (map fst by_label)
   /\ (forall L, L ∈ map fst by_label <-> L ∈ map n_label (nodes s))
   /\ forall L, row_count L by_label = occurrences L (map n_label (nodes s)))
  /\ (NoDup (map fst by_type)
      /\ (forall T, T ∈ map fst by_type <-> T ∈ map e_type (edges s))
      /\ forall T, row_count T by_type = occurrences T (map e_type (edges s))).
Proof.
  unfold print_summary.
  destruct (count_by_spec (map n_label (nodes s))) as (N1 & _ & N3 & N4).
  destruct (count_by_spec (map e_type (edges s))) as (E1 & _ & E3 & E4).
  done.
Qed.

End SummaryFacts.

(** ** Records that fail validation *)

Module SkipFacts.
Import Json Graph Invariants JsonFacts StoreFacts ValidationFacts ModelFacts.
Import UpsertFacts AbsorbFacts PassFacts MergeFacts RerunFacts KeyFacts.
Import KeepFacts CategoryMore RelationshipFacts.
Local Open Scope string_scope.
Local Open Scope nat_scope.


Section Skip.

Variable storable : json -> bool.
Variable coerce : ftype -> json -> option json.
Variable py_str : json -> string.








End Skip.




End SkipFacts.
